(** * AI Video Combiner: a shallow embedding of [src/index.tsx]

    The application is one React component, [App], whose handlers call
    into the browser (media elements, canvas, Web Audio, MediaRecorder,
    object URLs) and into React's state setters.  The embedding keeps

    - the component state as a record ([AppState]), one field per
      [useState] cell;
    - every call a handler makes, to the browser or to a state setter, as
      an [event] appended to a log, in program order;
    - everything the browser decides (clock readings, whether a call
      throws, video metadata, the answer of the AI service) as an oracle
      ([Browser]) the handlers are parameterised by.

    Strings: a JavaScript string is held as the bytes of its UTF-8
    encoding, which is what a Rocq string literal is; [trim] works on the
    encodings of the white space code points.

    Numbers: [masterDuration] comes out of [parseInt], so it is an
    integer-valued double or [NaN]; it is modelled as [option Z] with
    [None] for [NaN] (a digit string beyond the range of doubles, for
    which [parseInt] returns [Infinity], is not modelled).  The clock
    readings and media times the browser supplies are doubles, held as
    the rationals ([Q]) they are.  What the source computes is rounded to
    the nearest double where the source rounds it ([roundDouble]): the
    products [videos.length * masterDuration], [masterDuration * 1000] and
    [totalDuration * 1000], which are infinite beyond the range of
    doubles ([number]); the difference [duration - 0.1]; the time between
    two frames, the sums [elapsed] and [overallProgress], and the
    quotient and product of the progress value.  The sums are taken not
    to overflow, which would need clock readings near 1.8e308 ms.

    Awaiting: a handler is run to its end in one go.  The [while] loop of
    the render awaits one animation frame per pass; [frames] takes a bound
    on the number of passes, and a render that needs more is [Pending].

    Effects and JSX: the two [useEffect] clean-ups, which revoke object
    URLs when the component unmounts or [outputUrl] changes, and the
    conditions under which the JSX offers its controls are modelled apart
    from the handlers, in the section on the effects and the buttons.  The
    rest of the JSX (layout, labels, class names) is left out. *)

From Stdlib Require Import List String Ascii Bool Arith ZArith.
From Stdlib Require Import QArith Qminmax Qabs Qround Qpower Lia Lqa.
From Stdlib Require Import DecimalString DecimalNat DecimalZ.
From Stdlib Require DecimalFacts Finite.
Import ListNotations.

Local Open Scope string_scope.
Local Open Scope list_scope.
Local Open Scope Q_scope.

(** String concatenation, for template strings. *)
Infix "+++" := String.append (at level 60, right associativity).

(** ** Data *)

(** The two members of a DOM [File] the component reads. *)
Record File := { name : string; size : N }.

(** [interface VideoFile] *)
Record VideoFile := { id : string; file : File; objectUrl : string }.

Inductive Format := webm | mp4.

(** A thrown JavaScript value: an [Error] with its message, or anything
    else ([error instanceof Error] is false). *)
Inductive exn := JsError (message : string) | JsOther.

Record AppState := {
  videos : list VideoFile;
  audioFile : option File;
  isRendering : bool;
  progress : Q;
  status : string;
  outputUrl : option string;
  musicPrompt : string;
  musicDescription : string;
  isGeneratingMusic : bool;
  masterDuration : option Z;
  masterLoop : bool;
  outputFormat : Format
}.

(** The values given to [useState]. *)
Definition initialState : AppState :=
  {| videos := []; audioFile := None; isRendering := false; progress := 0;
     status := "Ready. Upload videos to begin."; outputUrl := None;
     musicPrompt := "Epic cinematic score"; musicDescription := "";
     isGeneratingMusic := false; masterDuration := Some 10%Z;
     masterLoop := true; outputFormat := webm |}.

(** A call to one of the state setters, with the value it stores. *)
Inductive update :=
| Videos (vs : list VideoFile)
| AudioFile (f : File)
| IsRendering (b : bool)
| Progress (p : Q)
| Status (s : string)
| OutputUrl (u : option string)
| MusicPrompt (s : string)
| MusicDescription (s : string)
| IsGeneratingMusic (b : bool)
| MasterDuration (d : option Z)
| MasterLoop (b : bool)
| OutputFormat (f : Format).

Definition apply (u : update) (st : AppState) : AppState :=
  match u with
  | Videos vs =>
      {| videos := vs; audioFile := audioFile st; isRendering := isRendering st;
         progress := progress st; status := status st; outputUrl := outputUrl st;
         musicPrompt := musicPrompt st; musicDescription := musicDescription st;
         isGeneratingMusic := isGeneratingMusic st; masterDuration := masterDuration st;
         masterLoop := masterLoop st; outputFormat := outputFormat st |}
  | AudioFile f =>
      {| videos := videos st; audioFile := Some f; isRendering := isRendering st;
         progress := progress st; status := status st; outputUrl := outputUrl st;
         musicPrompt := musicPrompt st; musicDescription := musicDescription st;
         isGeneratingMusic := isGeneratingMusic st; masterDuration := masterDuration st;
         masterLoop := masterLoop st; outputFormat := outputFormat st |}
  | IsRendering b =>
      {| videos := videos st; audioFile := audioFile st; isRendering := b;
         progress := progress st; status := status st; outputUrl := outputUrl st;
         musicPrompt := musicPrompt st; musicDescription := musicDescription st;
         isGeneratingMusic := isGeneratingMusic st; masterDuration := masterDuration st;
         masterLoop := masterLoop st; outputFormat := outputFormat st |}
  | Progress p =>
      {| videos := videos st; audioFile := audioFile st; isRendering := isRendering st;
         progress := p; status := status st; outputUrl := outputUrl st;
         musicPrompt := musicPrompt st; musicDescription := musicDescription st;
         isGeneratingMusic := isGeneratingMusic st; masterDuration := masterDuration st;
         masterLoop := masterLoop st; outputFormat := outputFormat st |}
  | Status s =>
      {| videos := videos st; audioFile := audioFile st; isRendering := isRendering st;
         progress := progress st; status := s; outputUrl := outputUrl st;
         musicPrompt := musicPrompt st; musicDescription := musicDescription st;
         isGeneratingMusic := isGeneratingMusic st; masterDuration := masterDuration st;
         masterLoop := masterLoop st; outputFormat := outputFormat st |}
  | OutputUrl u =>
      {| videos := videos st; audioFile := audioFile st; isRendering := isRendering st;
         progress := progress st; status := status st; outputUrl := u;
         musicPrompt := musicPrompt st; musicDescription := musicDescription st;
         isGeneratingMusic := isGeneratingMusic st; masterDuration := masterDuration st;
         masterLoop := masterLoop st; outputFormat := outputFormat st |}
  | MusicDescription s =>
      {| videos := videos st; audioFile := audioFile st; isRendering := isRendering st;
         progress := progress st; status := status st; outputUrl := outputUrl st;
         musicPrompt := musicPrompt st; musicDescription := s;
         isGeneratingMusic := isGeneratingMusic st; masterDuration := masterDuration st;
         masterLoop := masterLoop st; outputFormat := outputFormat st |}
  | IsGeneratingMusic b =>
      {| videos := videos st; audioFile := audioFile st; isRendering := isRendering st;
         progress := progress st; status := status st; outputUrl := outputUrl st;
         musicPrompt := musicPrompt st; musicDescription := musicDescription st;
         isGeneratingMusic := b; masterDuration := masterDuration st;
         masterLoop := masterLoop st; outputFormat := outputFormat st |}
  | MusicPrompt s =>
      {| videos := videos st; audioFile := audioFile st; isRendering := isRendering st;
         progress := progress st; status := status st; outputUrl := outputUrl st;
         musicPrompt := s; musicDescription := musicDescription st;
         isGeneratingMusic := isGeneratingMusic st; masterDuration := masterDuration st;
         masterLoop := masterLoop st; outputFormat := outputFormat st |}
  | MasterDuration d =>
      {| videos := videos st; audioFile := audioFile st; isRendering := isRendering st;
         progress := progress st; status := status st; outputUrl := outputUrl st;
         musicPrompt := musicPrompt st; musicDescription := musicDescription st;
         isGeneratingMusic := isGeneratingMusic st; masterDuration := d;
         masterLoop := masterLoop st; outputFormat := outputFormat st |}
  | MasterLoop b =>
      {| videos := videos st; audioFile := audioFile st; isRendering := isRendering st;
         progress := progress st; status := status st; outputUrl := outputUrl st;
         musicPrompt := musicPrompt st; musicDescription := musicDescription st;
         isGeneratingMusic := isGeneratingMusic st; masterDuration := masterDuration st;
         masterLoop := b; outputFormat := outputFormat st |}
  | OutputFormat f =>
      {| videos := videos st; audioFile := audioFile st; isRendering := isRendering st;
         progress := progress st; status := status st; outputUrl := outputUrl st;
         musicPrompt := musicPrompt st; musicDescription := musicDescription st;
         isGeneratingMusic := isGeneratingMusic st; masterDuration := masterDuration st;
         masterLoop := masterLoop st; outputFormat := f |}
  end.

(** ** The audio graph and the recorded stream *)

(** What is connected to the [MediaStreamAudioDestinationNode]. *)
Inductive audioNode :=
| BufferSource (f : File)
| Oscillator
| Gain (gain : Q) (input : audioNode).

Inductive track :=
| CanvasVideoTrack (fps : N)
| AudioTrack (input : audioNode).

Record RecorderOptions := {
  mimeType : string;
  videoBitsPerSecond : option N
}.

(** ** Events: the calls a handler makes, in program order *)

Inductive event :=
| SetState (u : update)
| Alert (msg : string)
| ConsoleError (msg : string)
| CreateObjectURL (url : string)
| RevokeObjectURL (url : string)
| GenerateContent (model contents : string)
| CreateElement (tag : string)
| SetVolume (v : Q)
| DisablePictureInPicture
| SetSrc (url : string)
| SizeCanvas (width height : N)
| GetContext (kind : string)
| CaptureStream (fps : N)
| NewAudioContext
| CreateMediaStreamDestination
| ArrayBuffer (f : File)
| DecodeAudioData (f : File)
| CreateBufferSource
| CreateOscillator
| CreateGain
| SetGainValue (v : Q)
| ConnectToGain (input : audioNode)
| ConnectToDestination (input : audioNode)
| StartSource
| NewMediaStream (tracks : list track)
| NewMediaRecorder (tracks : list track) (options : RecorderOptions)
| RecorderStart
| Play
| SetCurrentTime (t : Q)
| DrawImage (width height : N)
| RequestAnimationFrame
| RecorderStop
| Pause
| CloseAudioContext
| NewBlob (mime : string).

(** ** The browser, as an oracle *)

Record Browser := {
  (** [MediaRecorder.isTypeSupported] *)
  isTypeSupported : string -> bool;
  (** Whether the fallible browser call made when the log holds [n]
      events throws (or, for a promise, rejects), and with what. *)
  throws : nat -> option exn;
  (** Loading a source into the off-screen video: [videoWidth] and
      [videoHeight] when [onloadedmetadata] fires, [None] when [onerror]
      does. *)
  loadMetadata : string -> option (N * N);
  (** Whether [canvas.getContext('2d')] returns a context and not null. *)
  has2d : bool;
  (** The n-th clock reading of the session. *)
  performance_now : nat -> Q;
  Date_now : nat -> Z;
  (** [tempVideo.currentTime] and [tempVideo.duration] once n clock
      readings have been taken; [None] is a duration that is [NaN] or
      infinite. *)
  currentTime : nat -> Q;
  duration : nat -> option Q;
  (** The answer of [ai.models.generateContent], by request text. *)
  generateContent : string -> exn + string;
  (** The message of the [NotSupportedError] that [play()] rejects with
      when the source of the element cannot be loaded. *)
  noSourceMessage : string;
  (** [String(x)] for an integer-valued double [x] from 1e21 on, in
      exponent notation; ECMAScript leaves its last digit to the engine. *)
  numberToString : Z -> string
}.

(** ** The world a handler runs in *)

Record World := {
  ui : AppState;
  log : list event;   (* most recent call first *)
  clock : nat;        (* clock readings taken so far *)
  blobs : nat         (* object URLs minted so far *)
}.

Definition initialWorld : World :=
  {| ui := initialState; log := []; clock := 0; blobs := 0 |}.

(** How a computation ends: with a value, with a thrown exception (or a
    rejected promise that is awaited), or not within the frames allowed. *)
Inductive res (A : Type) :=
| Val (a : A)
| Throw (e : exn)
| Hang.
Arguments Val {A} a.
Arguments Throw {A} e.
Arguments Hang {A}.

(** Handlers are computations on the world; what a computation logged
    stays logged when it throws. *)
Definition M (A : Type) := World -> res A * World.

Definition ret {A} (a : A) : M A := fun w => (Val a, w).

Definition bind {A B} (m : M A) (f : A -> M B) : M B :=
  fun w =>
    match m w with
    | (Val a, w') => f a w'
    | (Throw e, w') => (Throw e, w')
    | (Hang, w') => (Hang, w')
    end.

Definition throw {A} (e : exn) : M A := fun w => (Throw e, w).

Notation "x <- m ;; k" := (bind m (fun x => k))
  (at level 61, m at next level, right associativity).
Notation "m ;;; k" := (bind m (fun _ => k))
  (at level 61, right associativity).

Definition record (e : event) (w : World) : World :=
  {| ui := ui w; log := e :: log w; clock := clock w; blobs := blobs w |}.

(** A call that cannot throw. *)
Definition emit (e : event) : M unit := fun w => (Val tt, record e w).

(** A state setter: the call is logged and the cell updated. *)
Definition set (u : update) : M unit :=
  fun w => (Val tt,
            {| ui := apply u (ui w); log := SetState u :: log w;
               clock := clock w; blobs := blobs w |}).

Definition tick (w : World) : World :=
  {| ui := ui w; log := log w; clock := S (clock w); blobs := blobs w |}.

Definition string_of_nat (n : nat) : string := NilZero.string_of_uint (Nat.to_uint n).
Definition string_of_Z (z : Z) : string := NilZero.string_of_int (Z.to_int z).

(** ** Doubles *)

(** [2^e], for any integer [e]. *)
Definition pow2 (e : Z) : Q := 2 ^ e.

(** The binade of a rational other than 0: the [f] with
    [2^f <= |q| < 2^(f+1)]. *)
Definition binade (q : Q) : Z :=
  let f := (Z.log2 (Z.abs (Qnum q)) - Z.log2 (Zpos (Qden q)))%Z in
  if Qle_bool (pow2 f) (Qabs q) then f else (f - 1)%Z.

(** The nearest integer, ties to the even one. *)
Definition roundHalfEven (q : Q) : Z :=
  let n := Qnum q in
  let d := Zpos (Qden q) in
  let below := (n / d)%Z in
  match (2 * (n mod d) ?= d)%Z with
  | Lt => below
  | Gt => (below + 1)%Z
  | Eq => if Z.even below then below else (below + 1)%Z
  end.

(** The exponent of the last place of the doubles next to [q]: 52 places
    below the binade, and not below that of the subnormals. *)
Definition exponent (q : Q) : Z := Z.max (binade q - 52) (-1074).

(** The nearest binary64 value, ties to even, as a reduced fraction: 53
    significant bits, the exponent not below that of the subnormals and
    not bounded above (what rounds to [2^1024] or more is an overflow, see
    [multiply]). *)
Definition roundDouble (q : Q) : Q :=
  if Qeq_bool q 0 then 0
  else Qred (inject_Z (roundHalfEven (q / pow2 (exponent q))) * pow2 (exponent q)).

(** The double written [0.1]. *)
Definition tenth : Q := 3602879701896397 # 36028797018963968.

(** A JavaScript number that is [NaN], an integer or infinite. *)
Inductive number :=
| NaN
| Finite (z : Z)
| Infinite (negative : bool).

(** [n * d] for a count [n] and an integer-valued double or [NaN] [d]:
    the product is rounded to the nearest double, which is the product
    itself below [2^53]. *)
Definition multiply (n : nat) (d : option Z) : number :=
  match d with
  | None => NaN
  | Some d =>
      let z := Qfloor (roundDouble (inject_Z (Z.of_nat n * d))) in
      if (2 ^ 1024 <=? Z.abs z)%Z then Infinite (z <? 0)%Z else Finite z
  end.

(** [x * 1000] *)
Definition milliseconds (x : number) : number :=
  match x with
  | Finite z => multiply 1000 (Some z)
  | _ => x
  end.

(** [x < y] for a double [x] that is a rational. *)
Definition below (x : Q) (y : number) : bool :=
  match y with
  | NaN => false
  | Finite z => negb (Qle_bool (inject_Z z) x)
  | Infinite negative => negb negative
  end.

(** [(x / total) * 100] for a double [x] that is a rational and the
    [total] of the draw loop, which is positive or infinite there. *)
Definition percent (x : Q) (total : number) : Q :=
  match total with
  | Finite z => roundDouble (roundDouble (x / inject_Z z) * 100)
  | _ => 0
  end.

(** [const clipDuration = masterDuration * 1000], where [masterDuration]
    is the integer [d]. *)
Definition clipDuration (d : Z) : number := milliseconds (Finite d).

Section Handlers.

Variable B : Browser.

(** A browser call that can throw: the oracle decides. *)
Definition call (e : event) : M unit :=
  fun w =>
    match throws B (List.length (log w)) with
    | Some x => (Throw x, record e w)
    | None => (Val tt, record e w)
    end.

Definition performanceNow : M Q :=
  fun w => (Val (performance_now B (clock w)), tick w).

Definition DateNow : M Z :=
  fun w => (Val (Date_now B (clock w)), tick w).

(** [URL.createObjectURL]: the browser mints a URL it has not handed out
    before. *)
Definition createObjectURL : M string :=
  fun w =>
    let url := "blob:" +++ string_of_nat (blobs w) in
    (Val url,
     {| ui := ui w; log := CreateObjectURL url :: log w;
        clock := clock w; blobs := S (blobs w) |}).

Definition revokeObjectURL (url : string) : M unit := emit (RevokeObjectURL url).

(** [const totalDuration = videos.length * masterDuration] *)
Definition totalDuration (st : AppState) : number :=
  multiply (List.length (videos st)) (masterDuration st).

(** *** handleVideoUpload *)

(** [files.map(file => ({ id: `${file.name}-${Date.now()}`, file,
    objectUrl: URL.createObjectURL(file) }))] *)
Fixpoint newVideos (files : list File) : M (list VideoFile) :=
  match files with
  | [] => ret []
  | f :: rest =>
      now <- DateNow ;;
      url <- createObjectURL ;;
      vs <- newVideos rest ;;
      ret ({| id := name f +++ "-" +++ string_of_Z now; file := f; objectUrl := url |} :: vs)
  end.

Definition handleVideoUpload (files : list File) : M unit :=
  if (List.length files =? 0)%nat then ret tt
  else
    vs <- newVideos files ;;
    (fun w => set (Videos (videos (ui w) ++ vs)) w) ;;;
    set (Status (string_of_nat (List.length files)
                 +++ " video(s) added. Adjust master settings and render.")).

(** *** handleAudioUpload *)

Definition handleAudioUpload (f : option File) : M unit :=
  match f with
  | Some f => set (AudioFile f)
  | None => ret tt
  end.

(** *** handleRemoveVideo *)

Definition handleRemoveVideo (idToRemove : string) : M unit :=
  (fun w =>
     let prevVideos := videos (ui w) in
     ((match find (fun v => String.eqb (id v) idToRemove) prevVideos with
       | Some videoToRemove => revokeObjectURL (objectUrl videoToRemove)
       | None => ret tt
       end) ;;;
      set (Videos (filter (fun video => negb (String.eqb (id video) idToRemove))
                          prevVideos))) w) ;;;
  set (Status "Video removed.").

(** *** handleClearAllVideos *)

Fixpoint revokeAll (vs : list VideoFile) : M unit :=
  match vs with
  | [] => ret tt
  | v :: rest => revokeObjectURL (objectUrl v) ;;; revokeAll rest
  end.

Definition handleClearAllVideos : M unit :=
  (fun w => revokeAll (videos (ui w)) w) ;;;
  set (Videos []) ;;;
  set (Status "All videos cleared.").

(** *** handleGenerateMusic *)

(** What [String.prototype.trim] strips: the white space and line
    terminator code points of ECMAScript, by their UTF-8 encodings.  In
    one byte U+0009 to U+000D and U+0020; in two bytes U+00A0 (C2 A0); in
    three bytes U+1680 (E1 9A 80), U+2000 to U+200A (E2 80 80 to 8A),
    U+2028, U+2029 and U+202F (E2 80 A8, A9 and AF), U+205F (E2 81 9F),
    U+3000 (E3 80 80) and U+FEFF (EF BB BF). *)
Definition whiteSpace1 (a : ascii) : bool :=
  let a := nat_of_ascii a in
  ((a =? 32) || ((9 <=? a) && (a <=? 13)))%nat.

Definition whiteSpace2 (a b : ascii) : bool :=
  let a := nat_of_ascii a in
  let b := nat_of_ascii b in
  ((a =? 194) && (b =? 160))%nat.

Definition whiteSpace3 (a b c : ascii) : bool :=
  let a := nat_of_ascii a in
  let b := nat_of_ascii b in
  let c := nat_of_ascii c in
  (((a =? 225) && (b =? 154) && (c =? 128))
   || ((a =? 226) && (b =? 128)
       && (((128 <=? c) && (c <=? 138)) || (c =? 168) || (c =? 169) || (c =? 175)))
   || ((a =? 226) && (b =? 129) && (c =? 159))
   || ((a =? 227) && (b =? 128) && (c =? 128))
   || ((a =? 239) && (b =? 187) && (c =? 191)))%nat.

Fixpoint trimStart (s : string) : string :=
  match s with
  | EmptyString => EmptyString
  | String a rest1 =>
      if whiteSpace1 a then trimStart rest1
      else
        match rest1 with
        | EmptyString => s
        | String b rest2 =>
            if whiteSpace2 a b then trimStart rest2
            else
              match rest2 with
              | EmptyString => s
              | String c rest3 => if whiteSpace3 a b c then trimStart rest3 else s
              end
        end
  end.

Definition reverse (s : string) : string :=
  string_of_list_ascii (rev (list_ascii_of_string s)).

(** [trimStart] on the reversed bytes: the encodings are met last byte
    first.  In well-formed UTF-8 the bytes of a white space encoding at
    the end of the string are one code point: the first of them is a
    lead byte. *)
Fixpoint trimReversed (s : string) : string :=
  match s with
  | EmptyString => EmptyString
  | String c rest1 =>
      if whiteSpace1 c then trimReversed rest1
      else
        match rest1 with
        | EmptyString => s
        | String b rest2 =>
            if whiteSpace2 b c then trimReversed rest2
            else
              match rest2 with
              | EmptyString => s
              | String a rest3 => if whiteSpace3 a b c then trimReversed rest3 else s
              end
        end
  end.

Definition trimEnd (s : string) : string := reverse (trimReversed (reverse s)).

Definition trim (s : string) : string := trimEnd (trimStart s).

(** [!s] for a string: only the empty string is falsy. *)
Definition falsy (s : string) : bool :=
  match s with EmptyString => true | String _ _ => false end.

(** [totalDuration <= 0]; a comparison with [NaN] is false. *)
Definition notPositive (x : number) : bool :=
  match x with
  | NaN => false
  | Finite z => (z <=? 0)%Z
  | Infinite negative => negative
  end.

(** [totalDuration.toFixed(2)]: the digits of the integer and two
    decimals below 1e21, [String(x)] behind the sign from there on, and
    the name of what is not a finite number. *)
Definition toFixed2 (x : number) : string :=
  match x with
  | NaN => "NaN"
  | Infinite negative => if negative then "-Infinity" else "Infinity"
  | Finite z =>
      if (Z.abs z <? 10 ^ 21)%Z then string_of_Z z +++ ".00"
      else (if (z <? 0)%Z then "-" else "") +++ numberToString B (Z.abs z)
  end.

Definition fullPrompt (st : AppState) : string :=
  "Describe a piece of instrumental background music for a video that is "
  +++ toFixed2 (totalDuration st)
  +++ " seconds long. The desired mood is: " +++ String "034" (musicPrompt st)
  +++ String "034" ". Describe the instruments, tempo, and emotional progression of the music.".

Definition musicFailure : string :=
  "Failed to generate music description. Please try again.".

Definition handleGenerateMusic : M unit :=
  fun w =>
    let st := ui w in
    if falsy (trim (musicPrompt st)) || notPositive (totalDuration st) then
      emit (Alert "Please add videos to set a total duration and enter a music prompt.") w
    else
      (set (IsGeneratingMusic true) ;;;
       set (MusicDescription "") ;;;
       emit (GenerateContent "gemini-2.5-flash" (fullPrompt st)) ;;;
       (match generateContent B (fullPrompt st) with
        | inr text => set (MusicDescription text)
        | inl error =>
            emit (ConsoleError "Error generating music description:") ;;;
            set (MusicDescription musicFailure)
        end) ;;;
       set (IsGeneratingMusic false)) w.

(** *** handleRenderVideo *)

Definition mimeTypeOf (f : Format) : string :=
  match f with mp4 => "video/mp4" | webm => "video/webm" end.

Definition recorderOptions (f : Format) : RecorderOptions :=
  {| mimeType := mimeTypeOf f;
     videoBitsPerSecond := match f with mp4 => Some 25000000%N | webm => None end |}.

(** The promise around [tempVideo.src = videos[0].objectUrl]: resolved by
    [onloadedmetadata] after the canvas is sized, rejected by [onerror]. *)
Definition loadFirst (vs : list VideoFile) : M (N * N) :=
  match vs with
  | [] => throw (JsError "Cannot read properties of undefined (reading 'objectUrl')")
  | v :: _ =>
      emit (SetSrc (objectUrl v)) ;;;
      match loadMetadata B (objectUrl v) with
      | Some (width, height) => emit (SizeCanvas width height) ;;; ret (width, height)
      | None => throw (JsError "Failed to load video metadata.")
      end
  end.

Definition getContext2d : M unit :=
  emit (GetContext "2d") ;;;
  if has2d B then ret tt else throw (JsError "Could not get canvas context").

(** The audio branch; the result is what ends up connected to the
    stream destination. *)
Definition mixAudio (a : option File) : M audioNode :=
  match a with
  | Some f =>
      call (ArrayBuffer f) ;;;
      call (DecodeAudioData f) ;;;
      emit CreateBufferSource ;;;
      emit (ConnectToDestination (BufferSource f)) ;;;
      emit StartSource ;;;
      ret (BufferSource f)
  | None =>
      emit CreateOscillator ;;;
      emit CreateGain ;;;
      emit (SetGainValue 0) ;;;
      emit (ConnectToGain Oscillator) ;;;
      emit (ConnectToDestination (Gain 0 Oscillator)) ;;;
      emit StartSource ;;;
      ret (Gain 0 Oscillator)
  end.

(** [tempVideo.currentTime >= tempVideo.duration - 0.1] when [k] clock
    readings have been taken; the difference is a double. *)
Definition nearEnd (k : nat) : bool :=
  match duration B k with
  | Some d => Qle_bool (roundDouble (d - tenth)) (currentTime B k)
  | None => false
  end.

Definition videoNearEnd : M bool :=
  fun w => (Val (nearEnd (clock w)), w).

(** [totalDuration * 1000] inside the loop, where [masterDuration] is the
    integer [d]. *)
Definition totalMs (st : AppState) (d : Z) : number :=
  milliseconds (multiply (List.length (videos st)) (Some d)).

(** One pass through the body of the [while] loop.  The locals are
    [elapsed], [lastFrameTime] and [overallProgress]; [dims] is the size
    the canvas has, which [drawImage] is given.  The difference and the
    two sums are rounded to doubles as they are made. *)
Definition frame (st : AppState) (d : Z) (dims : N * N)
    (locals : Q * Q * Q) : M (Q * Q * Q) :=
  let '(elapsed, lastFrameTime, overallProgress) := locals in
  now <- performanceNow ;;
  let delta := roundDouble (now - lastFrameTime) in
  let elapsed := roundDouble (elapsed + delta) in
  seek <- (if masterLoop st then videoNearEnd else ret false) ;;
  (if seek then emit (SetCurrentTime 0) else ret tt) ;;;
  emit (DrawImage (fst dims) (snd dims)) ;;;
  let overallProgress := roundDouble (overallProgress + delta) in
  set (Progress (Qmin 100 (percent overallProgress (totalMs st d)))) ;;;
  emit RequestAnimationFrame ;;;
  ret (elapsed, now, overallProgress).

(** [while (elapsed < clipDuration) { ... }]; [fuel] bounds the number of
    passes. *)
Fixpoint frames (fuel : nat) (st : AppState) (d : Z) (dims : N * N)
    (locals : Q * Q * Q) : M (Q * Q * Q) :=
  if below (fst (fst locals)) (clipDuration d) then
    match fuel with
    | O => fun w => (Hang, w)
    | S fuel' =>
        locals' <- frame st d dims locals ;;
        frames fuel' st d dims locals'
    end
  else ret locals.

(** The [while] loop of one clip.  With [masterDuration] [NaN] the test
    [elapsed < clipDuration] is false at once. *)
Definition drawClip (fuel : nat) (st : AppState) (dims : N * N)
    (lastFrameTime overallProgress : Q) : M (Q * Q) :=
  match masterDuration st with
  | Some d =>
      locals <- frames fuel st d dims (0, lastFrameTime, overallProgress) ;;
      ret (fst (fst locals), snd locals)
  | None => ret (0, overallProgress)
  end.

(** [tempVideo.src = video.objectUrl; await tempVideo.play()].  Assigning
    [src] loads the clip again, and the [onloadedmetadata] handler of the
    setup is still attached: before the promise of [play()] resolves, it
    sizes the canvas to this clip.  The promise is rejected when the
    browser says so, and when the clip cannot be loaded ([onerror] then
    rejects the promise of the setup, which is settled: no effect).  The
    result is the size the canvas has from here on. *)
Definition playClip (video : VideoFile) : M (N * N) :=
  emit (SetSrc (objectUrl video)) ;;;
  call Play ;;;
  match loadMetadata B (objectUrl video) with
  | Some (width, height) => emit (SizeCanvas width height) ;;; ret (width, height)
  | None => throw (JsError (noSourceMessage B))
  end.

(** [for (const video of videos) { ... }].  The result lists, clip by
    clip, the value of [elapsed] when its [while] loop ended. *)
Fixpoint clips (fuel : nat) (st : AppState)
    (vs : list VideoFile) (overallProgress : Q) : M (list Q) :=
  match vs with
  | [] => ret []
  | video :: rest =>
      set (Status ("Rendering: " +++ name (file video))) ;;;
      dims <- playClip video ;;
      lastFrameTime <- performanceNow ;;
      r <- drawClip fuel st dims lastFrameTime overallProgress ;;
      es <- clips fuel st rest (snd r) ;;
      ret (fst r :: es)
  end.

(** The body of [try].  [None] is the early [return] of the format check.

    The calls that can throw or reject are [call]s: [captureStream], the
    [AudioContext] and [MediaRecorder] constructors, [arrayBuffer],
    [decodeAudioData], [recorder.start], [play] and [recorder.stop]; the
    metadata promise and the missing 2d context throw the [Error]s the
    source makes for them.  The canvas that [drawImage] fills has the
    size of the clip being played, see [playClip].  [tempVideo.pause()]
    has no failure mode and the promise of [audioContext.close()] is not
    awaited, so nothing they do reaches [catch]: they are [emit]s. *)
Definition tryBlock (fuel : nat) (st : AppState) : M (option (list Q)) :=
  let mime := mimeTypeOf (outputFormat st) in
  if negb (isTypeSupported B mime) then
    set (Status ("Error: Your browser does not support " +++ mime
                 +++ " recording. Please choose another format.")) ;;;
    set (IsRendering false) ;;;
    ret None
  else
    emit (CreateElement "canvas") ;;;
    emit (CreateElement "video") ;;;
    emit (SetVolume 0) ;;;
    emit DisablePictureInPicture ;;;
    loadFirst (videos st) ;;;
    getContext2d ;;;
    call (CaptureStream 30) ;;;
    call NewAudioContext ;;;
    emit CreateMediaStreamDestination ;;;
    input <- mixAudio (audioFile st) ;;
    let combinedStream := [CanvasVideoTrack 30; AudioTrack input] in
    emit (NewMediaStream combinedStream) ;;;
    call (NewMediaRecorder combinedStream (recorderOptions (outputFormat st))) ;;;
    call RecorderStart ;;;
    es <- clips fuel st (videos st) 0 ;;
    call RecorderStop ;;;
    emit Pause ;;;
    emit CloseAudioContext ;;;
    ret (Some es).

(** [recorder.onstop], which the browser runs once [stop()] has gone
    through and the handler has returned. *)
Definition onstop (mime : string) : M unit :=
  emit (NewBlob mime) ;;;
  url <- createObjectURL ;;
  set (OutputUrl (Some url)) ;;;
  set (Status "Render complete! Your video is ready for download.") ;;;
  set (IsRendering false).

Definition errorMessage (e : exn) : string :=
  match e with JsError m => m | JsOther => "Unknown error" end.

Definition catchRender (e : exn) : M unit :=
  emit (ConsoleError "Render failed:") ;;;
  set (Status ("Error during render: " +++ errorMessage e)) ;;;
  set (IsRendering false).

Definition startRender : M unit :=
  set (IsRendering true) ;;;
  set (Progress 0) ;;;
  set (Status "Initializing render...") ;;;
  set (OutputUrl None).

(** How a call of [handleRenderVideo] ended. *)
Inductive outcome :=
| NoVideos
| Unsupported
| Completed (elapsed : list Q)
| Aborted (e : exn)
| Pending.

Definition handleRenderVideo (fuel : nat) (w : World) : outcome * World :=
  let st := ui w in
  if (List.length (videos st) =? 0)%nat then
    (NoVideos, record (Alert "Please upload videos before rendering.") w)
  else
    match (startRender ;;; tryBlock fuel st) w with
    | (Val None, w') => (Unsupported, w')
    | (Val (Some es), w') => (Completed es, snd (onstop (mimeTypeOf (outputFormat st)) w'))
    | (Throw e, w') => (Aborted e, snd (catchRender e w'))
    | (Hang, w') => (Pending, w')
    end.

(** [disabled={isRendering || videos.length === 0}] on the Render button. *)
Definition renderDisabled (st : AppState) : bool :=
  isRendering st || (List.length (videos st) =? 0)%nat.

End Handlers.

(** ** Reading the log *)

(** The calls made between two worlds, oldest first. *)
Definition since (w w' : World) : list event :=
  rev (firstn (List.length (log w') - List.length (log w)) (log w')).

Definition revoked (evs : list event) : list string :=
  flat_map (fun e => match e with RevokeObjectURL u => [u] | _ => [] end) evs.

Definition minted (evs : list event) : list string :=
  flat_map (fun e => match e with CreateObjectURL u => [u] | _ => [] end) evs.

Definition requests (evs : list event) : list string :=
  flat_map (fun e => match e with GenerateContent _ c => [c] | _ => [] end) evs.

Definition alerts (evs : list event) : list string :=
  flat_map (fun e => match e with Alert m => [m] | _ => [] end) evs.

Definition hasId (i : string) (v : VideoFile) : bool := String.eqb (id v) i.

(** The state cells after the setter calls among [evs] (most recent
    first) have been applied to [st]. *)
Definition replay (evs : list event) (st : AppState) : AppState :=
  fold_right (fun e s => match e with SetState u => apply u s | _ => s end) st evs.

(** Every call [m] makes satisfies [P], and [m] touches the state cells
    through the setters only.  This holds of all runs of [m], also those
    that throw or are still pending. *)
Definition emits {A} (P : event -> Prop) (m : M A) : Prop :=
  forall w r w', m w = (r, w') ->
    exists evs, log w' = evs ++ log w /\ Forall P evs /\ ui w' = replay evs (ui w)
                /\ (blobs w <= blobs w')%nat.

(** What the audio branch connects to the stream destination. *)
Definition destinationInput (a : option File) : audioNode :=
  match a with
  | Some f => BufferSource f
  | None => Gain 0 Oscillator
  end.

(** The calls the body of [try] may make. *)
Definition tryEvent (st : AppState) (e : event) : Prop :=
  match e with
  | SetState (Status _) => True
  | SetState (IsRendering b) => b = false
  | SetState (Progress p) => p <= 100
  | SetState _ => False
  | Alert _ | ConsoleError _ | CreateObjectURL _ | RevokeObjectURL _
  | GenerateContent _ _ | NewBlob _ => False
  | CaptureStream fps => fps = 30%N
  | SetCurrentTime t => t = 0 /\ masterLoop st = true
  | NewMediaStream tracks =>
      tracks = [CanvasVideoTrack 30; AudioTrack (destinationInput (audioFile st))]
  | NewMediaRecorder tracks options =>
      tracks = [CanvasVideoTrack 30; AudioTrack (destinationInput (audioFile st))]
      /\ options = recorderOptions (outputFormat st)
  | _ => True
  end.

Definition progressUpdates (evs : list event) : list Q :=
  flat_map (fun e => match e with SetState (Progress p) => [p] | _ => [] end) evs.

Definition sources (evs : list event) : list string :=
  flat_map (fun e => match e with SetSrc u => [u] | _ => [] end) evs.

Definition blobsMade (evs : list event) : list string :=
  flat_map (fun e => match e with NewBlob m => [m] | _ => [] end) evs.

(** The calls [handleRenderVideo] makes outside the body of [try]. *)
Definition handlerEvent (e : event) : Prop :=
  match e with
  | Alert _ | ConsoleError _ | NewBlob _ | CreateObjectURL _ => True
  | SetState (IsRendering _) | SetState (Status _) | SetState (OutputUrl _) => True
  | SetState (Progress p) => p = 0
  | _ => False
  end.

(** The four setter calls before [try], oldest first. *)
Definition startEvents : list event :=
  [SetState (IsRendering true); SetState (Progress 0);
   SetState (Status "Initializing render..."); SetState (OutputUrl None)].

(** The calls of [recorder.onstop], oldest first; [url] is the object URL
    minted for the blob. *)
Definition onstopEvents (mime url : string) : list event :=
  [NewBlob mime; CreateObjectURL url; SetState (OutputUrl (Some url));
   SetState (Status "Render complete! Your video is ready for download.");
   SetState (IsRendering false)].

(** The calls of the [catch] clause, oldest first. *)
Definition catchEvents (e : exn) : list event :=
  [ConsoleError "Render failed:";
   SetState (Status ("Error during render: " +++ errorMessage e));
   SetState (IsRendering false)].

(** The calls of the audio branch, oldest first. *)
Definition audioEvents (a : option File) : list event :=
  match a with
  | Some f =>
      [ArrayBuffer f; DecodeAudioData f; CreateBufferSource;
       ConnectToDestination (BufferSource f); StartSource]
  | None =>
      [CreateOscillator; CreateGain; SetGainValue 0; ConnectToGain Oscillator;
       ConnectToDestination (Gain 0 Oscillator); StartSource]
  end.

Definition combinedStream (st : AppState) : list track :=
  [CanvasVideoTrack 30; AudioTrack (destinationInput (audioFile st))].

(** The calls of a body of [try] that got as far as the [for] loop,
    oldest first; [v] is the first clip and [dims] its size. *)
Definition setupEvents (st : AppState) (v : VideoFile) (dims : N * N) : list event :=
  [CreateElement "canvas"; CreateElement "video"; SetVolume 0; DisablePictureInPicture;
   SetSrc (objectUrl v); SizeCanvas (fst dims) (snd dims); GetContext "2d";
   CaptureStream 30; NewAudioContext; CreateMediaStreamDestination]
  ++ audioEvents (audioFile st)
  ++ [NewMediaStream (combinedStream st);
      NewMediaRecorder (combinedStream st) (recorderOptions (outputFormat st));
      RecorderStart].

(** The world after the calls [evs], made in that order. *)
Definition recordAll (evs : list event) (w : World) : World :=
  fold_left (fun w e => record e w) evs w.

Definition afterSetup (st : AppState) (v : VideoFile) (dims : N * N) (w : World) : World :=
  recordAll (setupEvents st v dims) w.

(** The calls of the [while] loop. *)
Definition frameEvent (e : event) : Prop :=
  match e with
  | SetCurrentTime _ | DrawImage _ _ | RequestAnimationFrame
  | SetState (Progress _) => True
  | _ => False
  end.

Definition isProgress (e : event) : bool :=
  match e with SetState (Progress _) => true | _ => false end.

(** No stored progress value is negative. *)
Definition progressNotNegative (e : event) : Prop :=
  match e with SetState (Progress p) => 0 <= p | _ => True end.

(** [performance.now()] never goes back. *)
Definition monotonic (B : Browser) : Prop :=
  forall m n, (m <= n)%nat -> performance_now B m <= performance_now B n.

(** No browser call throws. *)
Definition reliable (B : Browser) : Prop :=
  forall n, throws B n = None.

(** [d] seconds, in milliseconds. *)
Definition clipMs (d : Z) : Q := inject_Z d * 1000.

(** Every clip was drawn for [masterDuration] seconds to the millisecond:
    each final [elapsed] is that many milliseconds. *)
Definition exactlyClipDuration (st : AppState) (es : list Q) : Prop :=
  forall d, masterDuration st = Some d -> Forall (fun e => e == clipMs d) es.

(** ** Sessions *)

(** What the user can do with the page. *)
Inductive action :=
| UploadVideos (files : list File)
| UploadAudio (f : option File)
| ChangeMusicPrompt (s : string)
| GenerateMusic
| RemoveVideo (i : string)
| ClearAllVideos
| ChangeMasterDuration (d : option Z)
| ChangeMasterLoop (b : bool)
| ChangeOutputFormat (f : Format)
| RenderVideo (fuel : nat).

Definition perform (B : Browser) (a : action) (w : World) : World :=
  match a with
  | UploadVideos files => snd (handleVideoUpload B files w)
  | UploadAudio f => snd (handleAudioUpload f w)
  | ChangeMusicPrompt s => snd (set (MusicPrompt s) w)
  | GenerateMusic => snd (handleGenerateMusic B w)
  | RemoveVideo i => snd (handleRemoveVideo i w)
  | ClearAllVideos => snd (handleClearAllVideos w)
  | ChangeMasterDuration d => snd (set (MasterDuration d) w)
  | ChangeMasterLoop b => snd (set (MasterLoop b) w)
  | ChangeOutputFormat f => snd (set (OutputFormat f) w)
  | RenderVideo fuel => snd (handleRenderVideo B fuel w)
  end.

(** The world after the actions, from a freshly mounted component. *)
Definition session (B : Browser) (actions : list action) : World :=
  fold_left (fun w a => perform B a w) actions initialWorld.

(** What the render handler may store as progress. *)
Definition progressInRange (B : Browser) (e : event) : Prop :=
  match e with
  | SetState (Progress p) => p <= 100 /\ (monotonic B -> 0 <= p)
  | _ => True
  end.

(** ** Scenarios *)

(** [String(x)] as the current engines print a double [z] from 1e21 on:
    the fewest digits that read back as [z], of those the closest to [z],
    then the exponent. *)
Definition readsBack (z c : Z) : bool :=
  (Qfloor (roundDouble (inject_Z c)) =? z)%Z.

Definition digitsOf (z : Z) : Z := Z.of_nat (String.length (string_of_Z z)).

Fixpoint shortest (fuel : nat) (k : Z) (z : Z) : Z :=
  match fuel with
  | O => z
  | S fuel' =>
      let m := (digitsOf z - k)%Z in
      if (m <=? 0)%Z then z
      else
        let scale := (10 ^ m)%Z in
        let lo := (z / scale * scale)%Z in
        let hi := (lo + scale)%Z in
        match readsBack z lo, readsBack z hi with
        | true, true =>
            match (z - lo ?= hi - z)%Z with
            | Lt => lo
            | Gt => hi
            | Eq => if Z.even (lo / scale) then lo else hi
            end
        | true, false => lo
        | false, true => hi
        | false, false => shortest fuel' (k + 1)%Z z
        end
  end.

Fixpoint stripZeros (s : string) : string :=
  match s with
  | String "0" rest => stripZeros rest
  | _ => s
  end.

Definition exponential (z : Z) : string :=
  let v := shortest 17 1 z in
  let s := reverse (stripZeros (reverse (string_of_Z v))) in
  let e := string_of_Z (digitsOf v - 1) in
  match s with
  | String d EmptyString => String d "e+" +++ e
  | String d rest => String d ("." +++ rest) +++ "e+" +++ e
  | EmptyString => "0"
  end.

(** A browser that records WebM only, never throws, and whose animation
    frames come every 16 ms; every clip is 1280x720 and five seconds long. *)
Definition chrome : Browser :=
  {| isTypeSupported := fun m => String.eqb m "video/webm";
     throws := fun _ => None;
     loadMetadata := fun _ => Some (1280, 720)%N;
     has2d := true;
     performance_now := fun n => inject_Z (16 * Z.of_nat n);
     Date_now := fun _ => 1700000000000%Z;
     currentTime := fun _ => 0;
     duration := fun _ => Some 5;
     generateContent := fun _ => inr "Slow strings over a soft pulse.";
     noSourceMessage := "Failed to load because no supported source was found.";
     numberToString := exponential |}.

(** Two files of the same name, picked from two folders in one selection,
    and a third one. *)
Definition introA : File := {| name := "intro.mp4"; size := 1048576 |}.
Definition introB : File := {| name := "intro.mp4"; size := 2097152 |}.
Definition outro : File := {| name := "outro.mp4"; size := 524288 |}.

(** The same browser without a network. *)
Definition offline : Browser :=
  {| isTypeSupported := isTypeSupported chrome;
     throws := throws chrome;
     loadMetadata := loadMetadata chrome;
     has2d := has2d chrome;
     performance_now := performance_now chrome;
     Date_now := Date_now chrome;
     currentTime := currentTime chrome;
     duration := duration chrome;
     generateContent := fun _ => inl (JsError "Failed to fetch");
     noSourceMessage := noSourceMessage chrome;
     numberToString := numberToString chrome |}.

(** The same browser with clips it cannot decode: loading one fires
    [onerror]. *)
Definition noDecoder : Browser :=
  {| isTypeSupported := isTypeSupported chrome;
     throws := throws chrome;
     loadMetadata := fun _ => None;
     has2d := has2d chrome;
     performance_now := performance_now chrome;
     Date_now := Date_now chrome;
     currentTime := currentTime chrome;
     duration := duration chrome;
     generateContent := generateContent chrome;
     noSourceMessage := noSourceMessage chrome;
     numberToString := numberToString chrome |}.

Definition afterUpload : World :=
  snd (handleVideoUpload chrome [introA; outro] initialWorld).

Definition afterSameName : World :=
  snd (handleVideoUpload chrome [introA; introB] initialWorld).

(** The two clips of [afterUpload], one second each. *)
Definition oneSecondClips : World :=
  snd (set (MasterDuration (Some 1%Z)) afterUpload).

(** ** The rest of the component *)

(** The URL [URL.createObjectURL] hands out at its [k]-th call. *)
Definition blobUrl (k : nat) : string := "blob:" +++ string_of_nat k.

(** The calls that leave the inputs of a render alone: every call but
    the setters of the videos, the audio file, the music cells and the
    master settings. *)
Definition inputsUntouched (e : event) : Prop :=
  match e with
  | SetState (IsRendering _) | SetState (Progress _) | SetState (Status _)
  | SetState (OutputUrl _) => True
  | SetState _ => False
  | _ => True
  end.

(** The calls of the [for] loop. *)
Definition loopEvent (e : event) : Prop :=
  match e with
  | SetState (Status _) | SetState (Progress _) | SetSrc _ | Play
  | SizeCanvas _ _ | SetCurrentTime _ | DrawImage _ _ | RequestAnimationFrame => True
  | _ => False
  end.

(** The calls of the body of [try] before the [for] loop. *)
Definition setupCall (e : event) : Prop :=
  match e with
  | CreateElement _ | SetVolume _ | DisablePictureInPicture | SetSrc _
  | SizeCanvas _ _ | GetContext _ | CaptureStream _ | NewAudioContext
  | CreateMediaStreamDestination | ArrayBuffer _ | DecodeAudioData _
  | CreateBufferSource | CreateOscillator | CreateGain | SetGainValue _
  | ConnectToGain _ | ConnectToDestination _ | StartSource | NewMediaStream _
  | NewMediaRecorder _ _ | RecorderStart => True
  | _ => False
  end.

(** What [handleRenderVideo] logs after the body of [try], oldest first:
    the calls of [onstop], those of the [catch] clause, or nothing. *)
Definition renderTail (st : AppState) (o : outcome) (url : string) : list event :=
  match o with
  | Completed _ => onstopEvents (mimeTypeOf (outputFormat st)) url
  | Aborted e => catchEvents e
  | _ => []
  end.

Definition unsupportedMessage (st : AppState) : string :=
  "Error: Your browser does not support " +++ mimeTypeOf (outputFormat st)
  +++ " recording. Please choose another format.".

(** The calls that neither touch the inputs of a render nor revoke a URL
    nor reach the AI service. *)
Definition quietEvent (e : event) : Prop :=
  match e with
  | RevokeObjectURL _ | GenerateContent _ _ => False
  | _ => inputsUntouched e
  end.

(** The calls that open one turn of the [for] loop. *)
Definition clipStartEvent (e : event) : Prop :=
  match e with
  | SetState (Status _) | SetSrc _ | Play | SizeCanvas _ _ => True
  | _ => False
  end.

(** [masterDuration] is [NaN], zero or negative: [elapsed < clipDuration]
    is false from the start. *)
Definition noDuration (st : AppState) : bool :=
  match masterDuration st with
  | Some d => (d <=? 0)%Z
  | None => true
  end.

(** A browser like [chrome] that rejects the fallible call made when [n]
    calls are in the log. *)
Definition rejecting (n : nat) (e : exn) : Browser :=
  {| isTypeSupported := isTypeSupported chrome;
     throws := fun k => if (k =? n)%nat then Some e else None;
     loadMetadata := loadMetadata chrome;
     has2d := has2d chrome;
     performance_now := performance_now chrome;
     Date_now := Date_now chrome;
     currentTime := currentTime chrome;
     duration := duration chrome;
     generateContent := generateContent chrome;
     noSourceMessage := noSourceMessage chrome;
     numberToString := numberToString chrome |}.

(** The two clips of [afterUpload] with the duration field cleared. *)
Definition clearedDuration : World :=
  snd (set (MasterDuration None) afterUpload).

(** The two clips of [afterUpload] with MP4 chosen, which [chrome] does
    not record. *)
Definition mp4Chosen : World :=
  snd (set (OutputFormat mp4) afterUpload).

(** [chrome] with autoplay blocked.  A render started in [oneSecondClips]
    reaches its first [play()] with thirty calls in the log; that call is
    rejected. *)
Definition noAutoplay : Browser :=
  rejecting 30 (JsError "play() failed because the user didn't interact with the document first.").

(** The values [l] go up from [lo] to at most [hi], never back. *)
Fixpoint climbs (lo : Q) (l : list Q) (hi : Q) : Prop :=
  match l with
  | [] => lo <= hi
  | p :: rest => lo <= p /\ climbs p rest hi
  end.

(** The progress value stored when [overallProgress] is [x]. *)
Definition progressAt (st : AppState) (x : Q) : Q :=
  match masterDuration st with
  | Some d => Qmin 100 (percent x (totalMs st d))
  | None => 0
  end.

(** ** Object URLs over a session *)

(** [u] is one of the URLs [URL.createObjectURL] has handed out so far. *)
Definition handedOut (w : World) (u : string) : Prop :=
  exists k, (k < blobs w)%nat /\ u = blobUrl k.

(** The object URLs of the listed videos. *)
Definition listed (w : World) : list string := map objectUrl (videos (ui w)).

(** The URLs the page holds are live: those of the listed videos are
    pairwise distinct and not revoked, [outputUrl] is not revoked and is
    none of them, and no URL was revoked twice. *)
Definition urlsLive (w : World) : Prop :=
  NoDup (listed w) /\
  NoDup (revoked (log w)) /\
  (forall u, In u (listed w) -> handedOut w u /\ ~ In u (revoked (log w))) /\
  (forall u, In u (revoked (log w)) -> handedOut w u) /\
  (forall u, outputUrl (ui w) = Some u ->
     handedOut w u /\ ~ In u (revoked (log w)) /\ ~ In u (listed w)).

(** The URLs that were stored in [outputUrl]. *)
Definition exported (evs : list event) : list string :=
  flat_map (fun e => match e with SetState (OutputUrl (Some u)) => [u] | _ => [] end) evs.

(** What one step of a session may do to the URLs: it revokes URLs of
    listed videos ([R]), keeps some entries, and brings new entries and
    possibly a new output URL whose URLs the browser had not handed out
    before. *)
Definition urlStep (w w' : World) : Prop :=
  exists (R : list string) (keep new : list VideoFile),
    (blobs w <= blobs w')%nat /\
    revoked (log w') = R ++ revoked (log w) /\
    NoDup R /\
    (forall u, In u R -> In u (listed w)) /\
    videos (ui w') = keep ++ new /\
    NoDup (map objectUrl keep) /\
    (forall u, In u (map objectUrl keep) -> In u (listed w) /\ ~ In u R) /\
    NoDup (map objectUrl new) /\
    (forall u, In u (map objectUrl new) ->
       exists k, (blobs w <= k < blobs w')%nat /\ u = blobUrl k) /\
    (forall u, outputUrl (ui w') = Some u ->
       outputUrl (ui w) = Some u \/
       (exists k, (blobs w <= k < blobs w')%nat /\ u = blobUrl k /\
                  ~ In u (map objectUrl new))) /\
    (forall u, In u (exported (log w')) ->
       In u (exported (log w)) \/ outputUrl (ui w') = Some u).

(** ** The effects and the buttons *)

(** The cleanup of the effect on [outputUrl]; [prev] is the value
    [outputUrl] had when the effect ran. *)
Definition outputUrlCleanup (prev : option string) : M unit :=
  match prev with
  | Some u => revokeObjectURL u
  | None => ret tt
  end.

(** The cleanup of the mount effect; [videosRef.current] is the list of
    the latest render. *)
Definition unmountCleanup : M unit :=
  fun w => revokeAll (videos (ui w)) w.

(** [Object.is] on the dependency [outputUrl]. *)
Definition sameUrl (a b : option string) : bool :=
  match a, b with
  | Some x, Some y => String.eqb x y
  | None, None => true
  | _, _ => false
  end.

(** What React does once a handler is through: when [outputUrl] is not
    the value the effect last ran with, the cleanup of that run is called
    before the effect runs again.  The revocation is logged after the
    calls of the handler; the URLs revoked are the same as when the page
    is rendered after every setter. *)
Definition commit (prev : option string) : M unit :=
  fun w =>
    if sameUrl prev (outputUrl (ui w)) then ret tt w else outputUrlCleanup prev w.

(** A handler call on the mounted page. *)
Definition act (B : Browser) (a : action) (w : World) : World :=
  snd (commit (outputUrl (ui w)) (perform B a w)).

Definition page (B : Browser) (actions : list action) : World :=
  fold_left (fun w a => act B a w) actions initialWorld.

(** Unmounting runs the cleanups of both effects. *)
Definition unmount : M unit :=
  fun w => (unmountCleanup ;;; outputUrlCleanup (outputUrl (ui w))) w.

(** [outputUrl ? ... : ...]: the empty string counts as absent. *)
Definition truthy (u : option string) : bool :=
  match u with
  | Some s => negb (falsy s)
  | None => false
  end.

(** The controls the page offers in state [st]: the Generate button is
    disabled while a description is generated or no video is listed, a
    row with its Remove button exists for every listed id, Clear All is
    shown when a video is listed, the format select is disabled during a
    render, and the Render button is replaced by the download link once
    [outputUrl] is set. *)
Definition offered (st : AppState) (a : action) : bool :=
  match a with
  | GenerateMusic =>
      negb (isGeneratingMusic st || (List.length (videos st) =? 0)%nat)
  | RemoveVideo i => existsb (hasId i) (videos st)
  | ClearAllVideos => (0 <? List.length (videos st))%nat
  | ChangeOutputFormat _ => negb (isRendering st)
  | RenderVideo _ => negb (truthy (outputUrl st)) && negb (renderDisabled st)
  | _ => true
  end.

(** A visit: the user can only use what the page offers. *)
Definition visit (B : Browser) (actions : list action) : World :=
  fold_left (fun w a => if offered (ui w) a then act B a w else w) actions initialWorld.

(** [src={outputUrl ?? videos[0]?.objectUrl ?? ''}] of the preview
    player. *)
Definition previewSrc (st : AppState) : string :=
  match outputUrl st with
  | Some u => u
  | None =>
      match videos st with
      | v :: _ => objectUrl v
      | [] => ""
      end
  end.

(** [ctx.drawImage(tempVideo, 0, 0, canvas.width, canvas.height)] with
    the canvas of size [dims]. *)
Definition drawnAt (dims : N * N) (e : event) : Prop :=
  match e with
  | DrawImage width height => (width, height) = dims
  | _ => True
  end.

(** An audio file. *)
Definition song : File := {| name := "song.mp3"; size := 4194304 |}.

(** ** The calls of the draw loop *)

(** The calls of the passes of the [while] loop that store the progress
    values [ps], the first of them reading the clock for the [c]-th time.
    The clip is taken back to its start in the passes where [masterLoop]
    is set and the playhead is near the end, and every pass draws one
    image, of the size [dims] of the canvas. *)
Fixpoint frameCalls (B : Browser) (st : AppState) (dims : N * N) (c : nat)
    (ps : list Q) : list event :=
  match ps with
  | [] => []
  | p :: rest =>
      (if masterLoop st && nearEnd B (S c) then [SetCurrentTime 0] else [])
      ++ [DrawImage (fst dims) (snd dims); SetState (Progress p); RequestAnimationFrame]
      ++ frameCalls B st dims (S c) rest
  end.

(** The calls of one turn of the [for] loop that went through: the clip
    is named in the status, assigned and played, the canvas takes its
    size [dims], [lastFrameTime] is the [c]-th clock reading, and the
    passes of the [while] loop follow. *)
Definition clipCalls (B : Browser) (st : AppState) (video : VideoFile)
    (dims : N * N) (c : nat) (ps : list Q) : list event :=
  [SetState (Status ("Rendering: " +++ name (file video)));
   SetSrc (objectUrl video); Play; SizeCanvas (fst dims) (snd dims)]
  ++ frameCalls B st dims (S c) ps.

(** [elapsed] after [j] passes of a [while] loop whose [lastFrameTime] was
    the [c]-th clock reading when it started: the times between one
    reading and the next, added up as the loop adds them. *)
Fixpoint elapsedAfter (B : Browser) (c j : nat) : Q :=
  match j with
  | O => 0
  | S j' =>
      roundDouble (elapsedAfter B c j'
                   + roundDouble (performance_now B (c + S j') - performance_now B (c + j')))
  end.

(** [calls] are the calls of a turn of the [for] loop for [video] that
    ended with [elapsed]: a frame was drawn at each clock reading after
    [lastFrameTime], up to and including the first one at which the
    elapsed time had reached [clipDuration], and [elapsed] is the elapsed
    time at that reading.  Without a duration no frame was drawn. *)
Definition clipDrawn (B : Browser) (st : AppState) (video : VideoFile)
    (elapsed : Q) (calls : list event) : Prop :=
  exists dims c ps,
    loadMetadata B (objectUrl video) = Some dims /\
    calls = clipCalls B st video dims c ps /\
    elapsed = elapsedAfter B c (List.length ps) /\
    match masterDuration st with
    | Some d =>
        below elapsed (clipDuration d) = false /\
        forall j, (j < List.length ps)%nat ->
                  below (elapsedAfter B c j) (clipDuration d) = true
    | None => ps = []
    end.

(** The calls of the whole [for] loop: the turns of the clips, in the
    order of the list. *)
Inductive drawnInOrder (B : Browser) (st : AppState) :
    list VideoFile -> list Q -> list event -> Prop :=
| drawn_none : drawnInOrder B st [] [] []
| drawn_next (video : VideoFile) (elapsed : Q) (calls : list event)
    (vs : list VideoFile) (es : list Q) (rest : list event) :
    clipDrawn B st video elapsed calls ->
    drawnInOrder B st vs es rest ->
    drawnInOrder B st (video :: vs) (elapsed :: es) (calls ++ rest).

(** The clock advances far enough for every clip: at whatever reading a
    [while] loop starts, the elapsed time it adds up reaches
    [clipDuration] after some number of passes. *)
Definition advances (B : Browser) (st : AppState) : Prop :=
  forall d, masterDuration st = Some d ->
  forall c, exists j, below (elapsedAfter B c j) (clipDuration d) = false.

(** Every [drawImage] is given the size of the clip that was assigned to
    [tempVideo.src] last; [src] is the source before the calls. *)
Fixpoint drawnAtClipSize (B : Browser) (src : option string) (evs : list event) : Prop :=
  match evs with
  | [] => True
  | SetSrc u :: rest => drawnAtClipSize B (Some u) rest
  | DrawImage width height :: rest =>
      (exists u, src = Some u /\ loadMetadata B u = Some (width, height))
      /\ drawnAtClipSize B src rest
  | _ :: rest => drawnAtClipSize B src rest
  end.

(** [chrome] with a second clip of another size. *)
Definition twoSizes : Browser :=
  {| isTypeSupported := isTypeSupported chrome;
     throws := throws chrome;
     loadMetadata := fun u => if String.eqb u "blob:1" then Some (640, 360)%N
                              else Some (1280, 720)%N;
     has2d := has2d chrome;
     performance_now := performance_now chrome;
     Date_now := Date_now chrome;
     currentTime := currentTime chrome;
     duration := duration chrome;
     generateContent := generateContent chrome;
     noSourceMessage := noSourceMessage chrome;
     numberToString := numberToString chrome |}.

(** ** Removing by id *)


(** The two clips of [afterUpload] with a prompt of white space only: a
    no-break space (U+00A0), a tab, a line separator (U+2028), an
    ideographic space (U+3000) and a byte order mark (U+FEFF). *)
Definition blankPrompt : World :=
  snd (set (MusicPrompt (String "194" (String "160" (String "009"
                          (String "226" (String "128" (String "168"
                          (String "227" (String "128" (String "128"
                          (String "239" (String "187" (String "191" "")))))))))))))
           afterUpload).

(** The two clips of [afterUpload], 1e21 seconds each. *)
Definition longClips : World :=
  snd (set (MasterDuration (Some (10 ^ 21)%Z)) afterUpload).


(** * Properties *)

Arguments String.append : simpl never.
Arguments string_of_nat : simpl never.
Arguments string_of_Z : simpl never.

(** ** Doubles *)

(** *** Powers of two *)

Lemma pow2_pos (e : Z) : 0 < pow2 e.
Proof. apply Qpower_0_lt. reflexivity. Qed.

Lemma pow2_add (a b : Z) : pow2 (a + b) == pow2 a * pow2 b.
Proof. apply Qpower_plus. discriminate. Qed.

Lemma pow2_le (a b : Z) : (a <= b)%Z -> pow2 a <= pow2 b.
Proof. intros H. apply Qpower_le_compat_l; [exact H | discriminate]. Qed.

Lemma pow2_Z (e : Z) : (0 <= e)%Z -> pow2 e == inject_Z (2 ^ e).
Proof. intros H. symmetry. apply (Zpower_Qpower 2 e H). Qed.

Lemma pow2_sub (a b : Z) : pow2 a / pow2 b == pow2 (a - b).
Proof. symmetry. apply Qpower_minus. discriminate. Qed.

(** *** The binade *)

Lemma Qmake_mult (q : Q) : q * inject_Z (Zpos (Qden q)) == inject_Z (Qnum q).
Proof. destruct q as [n d]. unfold Qeq, Qmult, inject_Z. simpl. lia. Qed.

Lemma binade_spec (q : Q) :
  0 < q -> pow2 (binade q) <= q /\ q < pow2 (binade q + 1).
Proof.
  intros Hq.
  assert (Hn : (0 < Qnum q)%Z) by (unfold Qlt in Hq; simpl in Hq; lia).
  assert (Habs : Qabs q == q) by (apply Qabs_pos; lra).
  unfold binade. rewrite (Z.abs_eq (Qnum q)) by lia.
  set (ln := Z.log2 (Qnum q)). set (ld := Z.log2 (Zpos (Qden q))).
  destruct (Z.log2_spec (Qnum q) Hn) as [Hn1 Hn2]. fold ln in Hn1, Hn2.
  destruct (Z.log2_spec (Zpos (Qden q)) eq_refl) as [Hd1 Hd2]. fold ld in Hd1, Hd2.
  assert (Hln : (0 <= ln)%Z) by apply Z.log2_nonneg.
  assert (Hld : (0 <= ld)%Z) by apply Z.log2_nonneg.
  assert (Hmul := Qmake_mult q).
  assert (Qn1 : pow2 ln <= inject_Z (Qnum q)).
  { rewrite pow2_Z by lia. now rewrite <- Zle_Qle. }
  assert (Qn2 : inject_Z (Qnum q) < pow2 (ln + 1)).
  { rewrite pow2_Z by lia. rewrite <- Zlt_Qlt. exact Hn2. }
  assert (Qd1 : pow2 ld <= inject_Z (Zpos (Qden q))).
  { rewrite pow2_Z by lia. now rewrite <- Zle_Qle. }
  assert (Qd2 : inject_Z (Zpos (Qden q)) < pow2 (ld + 1)).
  { rewrite pow2_Z by lia. rewrite <- Zlt_Qlt. exact Hd2. }
  assert (Hup : q < pow2 (ln - ld + 1)).
  { apply (Qmult_lt_r _ _ (pow2 ld)); [apply pow2_pos|].
    rewrite <- pow2_add. replace (ln - ld + 1 + ld)%Z with (ln + 1)%Z by lia.
    apply Qle_lt_trans with (q * inject_Z (Zpos (Qden q))); [|now rewrite Hmul].
    apply Qmult_le_l; [exact Hq | exact Qd1]. }
  assert (Hdown : pow2 (ln - ld - 1) <= q).
  { apply (Qmult_le_r _ _ (pow2 (ld + 1))); [apply pow2_pos|].
    rewrite <- pow2_add. replace (ln - ld - 1 + (ld + 1))%Z with ln by lia.
    apply Qle_trans with (q * inject_Z (Zpos (Qden q))); [now rewrite Hmul|].
    apply Qmult_le_l; [exact Hq | lra]. }
  destruct (Qle_bool (pow2 (ln - ld)) (Qabs q)) eqn:Hcmp.
  - apply Qle_bool_iff in Hcmp. rewrite Habs in Hcmp. split; assumption.
  - assert (Hlt : ~ pow2 (ln - ld) <= Qabs q).
    { intros H. apply Qle_bool_iff in H. congruence. }
    rewrite Habs in Hlt. split; [exact Hdown|].
    replace (ln - ld - 1 + 1)%Z with (ln - ld)%Z by lia. lra.
Qed.

Lemma binade_unique (q : Q) (b : Z) :
  0 < q -> pow2 b <= q -> q < pow2 (b + 1) -> binade q = b.
Proof.
  intros Hq H1 H2. destruct (binade_spec q Hq) as [H3 H4].
  destruct (Z.lt_trichotomy (binade q) b) as [H|[H|H]]; [|exact H|].
  - assert (pow2 (binade q + 1) <= pow2 b) by (apply pow2_le; lia). lra.
  - assert (pow2 (b + 1) <= pow2 (binade q)) by (apply pow2_le; lia). lra.
Qed.

Lemma binade_le (q q' : Q) : 0 < q -> q <= q' -> (binade q <= binade q')%Z.
Proof.
  intros Hq Hle. destruct (binade_spec q Hq) as [H1 _].
  destruct (binade_spec q') as [_ H2]; [lra|].
  destruct (Z.le_gt_cases (binade q) (binade q')) as [H|H]; [exact H|].
  assert (pow2 (binade q' + 1) <= pow2 (binade q)) by (apply pow2_le; lia). lra.
Qed.

(** *** Rounding to an integer *)

Lemma roundHalfEven_cases (x : Q) :
  let b := Qfloor x in
  (roundHalfEven x = b /\
   (x - inject_Z b < 1 # 2 \/ (x - inject_Z b == 1 # 2 /\ Z.even b = true))) \/
  (roundHalfEven x = (b + 1)%Z /\
   ((1 # 2) < x - inject_Z b \/ (x - inject_Z b == 1 # 2 /\ Z.even b = false))).
Proof.
  destruct x as [n d]. unfold roundHalfEven, Qfloor. cbn [Qnum Qden]. cbv zeta.
  assert (Hmod := Z.mod_pos_bound n (Zpos d) eq_refl).
  assert (Hdiv := Z.div_mod n (Zpos d)).
  assert (Hd : Zpos d <> 0%Z) by discriminate. specialize (Hdiv Hd).
  set (b := (n / Zpos d)%Z) in *. set (r := (n mod Zpos d)%Z) in *.
  unfold Qlt, Qeq, Qminus, Qplus, Qopp, inject_Z. cbn [Qnum Qden].
  destruct (Z.compare_spec (2 * r) (Zpos d)) as [H|H|H].
  - destruct (Z.even b) eqn:He; [left | right]; (split; [reflexivity|]); right;
      (split; [|reflexivity]); nia.
  - left. split; [reflexivity|]. left. nia.
  - right. split; [reflexivity|]. left. nia.
Qed.

Lemma roundHalfEven_le (x y : Q) : x <= y -> (roundHalfEven x <= roundHalfEven y)%Z.
Proof.
  intros Hle.
  assert (Hfl := Qfloor_resp_le x y Hle).
  assert (Hx1 := Qfloor_le x). assert (Hx2 := Qlt_floor x).
  assert (Hy1 := Qfloor_le y). assert (Hy2 := Qlt_floor y).
  destruct (roundHalfEven_cases x) as [[-> Hx]|[-> Hx]];
    destruct (roundHalfEven_cases y) as [[-> Hy]|[-> Hy]]; try lia.
  destruct (Z.eq_dec (Qfloor x) (Qfloor y)) as [He|He]; [|lia].
  exfalso. rewrite He in Hx.
  destruct Hx as [Hx|[Hx Hodd]], Hy as [Hy|[Hy Heven]]; try lra. congruence.
Qed.

Lemma roundHalfEven_Z (x : Q) (k : Z) : x == inject_Z k -> roundHalfEven x = k.
Proof.
  intros Hx.
  assert (Hfl : Qfloor x = k) by (rewrite Hx; apply Qfloor_Z).
  destruct (roundHalfEven_cases x) as [[-> _]|[_ H]]; [exact Hfl|].
  exfalso. rewrite Hfl in H. destruct H as [H|[H _]]; lra.
Qed.

(** *** Rounding to a double *)

Lemma roundDouble_eq (q : Q) :
  ~ q == 0 ->
  roundDouble q == inject_Z (roundHalfEven (q / pow2 (exponent q))) * pow2 (exponent q).
Proof.
  intros Hq. unfold roundDouble. destruct (Qeq_bool q 0) eqn:H; [|apply Qred_correct].
  apply Qeq_bool_iff in H. contradiction.
Qed.

Lemma roundDouble_0 (q : Q) : q == 0 -> roundDouble q = 0.
Proof.
  intros Hq. unfold roundDouble. destruct (Qeq_bool q 0) eqn:H; [reflexivity|].
  apply Qeq_bool_neq in H. contradiction.
Qed.

Lemma roundDouble_nonneg (q : Q) : 0 <= q -> 0 <= roundDouble q.
Proof.
  intros Hq. destruct (Qeq_dec q 0) as [H|H]; [rewrite roundDouble_0; [lra | exact H]|].
  rewrite roundDouble_eq by exact H.
  assert (Hp := pow2_pos (exponent q)).
  apply Qmult_le_0_compat; [|lra].
  change 0 with (inject_Z 0). rewrite <- Zle_Qle.
  rewrite <- (roundHalfEven_Z 0 0) by reflexivity.
  apply roundHalfEven_le. apply Qle_shift_div_l; [exact Hp | lra].
Qed.

Lemma roundDouble_nonpos (q : Q) : q <= 0 -> roundDouble q <= 0.
Proof.
  intros Hq. destruct (Qeq_dec q 0) as [H|H]; [rewrite roundDouble_0; [lra | exact H]|].
  rewrite roundDouble_eq by exact H.
  assert (Hp := pow2_pos (exponent q)).
  assert (Hr : (roundHalfEven (q / pow2 (exponent q)) <= 0)%Z).
  { replace 0%Z with (roundHalfEven 0) by (now apply roundHalfEven_Z).
    apply roundHalfEven_le. apply Qle_shift_div_r; [exact Hp | lra]. }
  rewrite Zle_Qle in Hr. change (inject_Z 0) with 0 in Hr. nra.
Qed.

(** What is at most (at least) a power of two that doubles of this
    exponent can hold is rounded to at most (at least) that power. *)
Lemma roundDouble_le_pow2 (q : Q) (k : Z) :
  0 < q -> (exponent q <= k)%Z -> q <= pow2 k -> roundDouble q <= pow2 k.
Proof.
  intros Hq Hk Hle. rewrite roundDouble_eq by lra.
  assert (Hp := pow2_pos (exponent q)).
  assert (Hr : (roundHalfEven (q / pow2 (exponent q)) <= 2 ^ (k - exponent q))%Z).
  { rewrite <- (roundHalfEven_Z (pow2 (k - exponent q)) (2 ^ (k - exponent q)))
      by (apply pow2_Z; lia).
    apply roundHalfEven_le. rewrite <- pow2_sub.
    apply Qmult_le_compat_r; [exact Hle|]. apply Qinv_le_0_compat. lra. }
  rewrite Zle_Qle, <- pow2_Z in Hr by lia.
  assert (Hk2 : pow2 k == pow2 (k - exponent q) * pow2 (exponent q)).
  { rewrite <- pow2_add. now replace (k - exponent q + exponent q)%Z with k by lia. }
  rewrite Hk2. apply Qmult_le_compat_r; [exact Hr | lra].
Qed.

Lemma roundDouble_ge_pow2 (q : Q) (k : Z) :
  0 < q -> (exponent q <= k)%Z -> pow2 k <= q -> pow2 k <= roundDouble q.
Proof.
  intros Hq Hk Hle. rewrite roundDouble_eq by lra.
  assert (Hp := pow2_pos (exponent q)).
  assert (Hr : (2 ^ (k - exponent q) <= roundHalfEven (q / pow2 (exponent q)))%Z).
  { rewrite <- (roundHalfEven_Z (pow2 (k - exponent q)) (2 ^ (k - exponent q)))
      by (apply pow2_Z; lia).
    apply roundHalfEven_le. rewrite <- pow2_sub.
    apply Qmult_le_compat_r; [exact Hle|]. apply Qinv_le_0_compat. lra. }
  rewrite Zle_Qle, <- pow2_Z in Hr by lia.
  assert (Hk2 : pow2 k == pow2 (k - exponent q) * pow2 (exponent q)).
  { rewrite <- pow2_add. now replace (k - exponent q + exponent q)%Z with k by lia. }
  rewrite Hk2. apply Qmult_le_compat_r; [exact Hr | lra].
Qed.

(** Rounding keeps the order. *)
Lemma roundDouble_le (q q' : Q) :
  0 <= q -> q <= q' -> roundDouble q <= roundDouble q'.
Proof.
  intros H0 Hle. destruct (Qeq_dec q 0) as [Hz|Hz].
  { rewrite (roundDouble_0 q Hz). apply roundDouble_nonneg. lra. }
  assert (Hq : 0 < q) by lra. assert (Hq' : 0 < q') by lra.
  assert (Hb := binade_le q q' Hq Hle).
  destruct (binade_spec q Hq) as [_ Hup]. destruct (binade_spec q' Hq') as [Hdown _].
  destruct (Z.eq_dec (exponent q) (exponent q')) as [He|He].
  - rewrite !roundDouble_eq by lra. rewrite He.
    assert (Hp := pow2_pos (exponent q')).
    apply Qmult_le_compat_r; [|lra]. rewrite <- Zle_Qle. apply roundHalfEven_le.
    apply Qmult_le_compat_r; [exact Hle|]. apply Qinv_le_0_compat. lra.
  - unfold exponent in *.
    apply Qle_trans with (pow2 (binade q')).
    + apply roundDouble_le_pow2; [exact Hq | unfold exponent; lia |].
      assert (pow2 (binade q + 1) <= pow2 (binade q')) by (apply pow2_le; lia). lra.
    + apply roundDouble_ge_pow2; [exact Hq' | unfold exponent; lia | exact Hdown].
Qed.

Lemma roundDouble_comp (q q' : Q) : 0 <= q -> q == q' -> roundDouble q == roundDouble q'.
Proof.
  intros H0 He. apply Qle_antisym; apply roundDouble_le; lra.
Qed.

(** A product [m * 2^e] with [m] of at most 53 bits and [e] not below the
    exponent of the subnormals is a double. *)
Lemma roundDouble_exact (m e : Z) :
  (0 <= m <= 2 ^ 53)%Z -> (-1074 <= e)%Z ->
  roundDouble (inject_Z m * pow2 e) == inject_Z m * pow2 e.
Proof.
  intros Hm He. assert (Hp := pow2_pos e).
  destruct (Z.eq_dec m 0) as [->|Hm0].
  { rewrite roundDouble_0; [|ring]. ring. }
  assert (Hpos : 0 < inject_Z m * pow2 e).
  { apply Qmult_lt_0_compat; [|exact Hp]. change 0 with (inject_Z 0).
    rewrite <- Zlt_Qlt. lia. }
  destruct (Z.log2_spec m) as [Hl1 Hl2]; [lia|].
  assert (Hl0 := Z.log2_nonneg m).
  assert (Hb : binade (inject_Z m * pow2 e) = (Z.log2 m + e)%Z).
  { apply binade_unique; [exact Hpos | |].
    - rewrite pow2_add. apply Qmult_le_compat_r; [|lra].
      rewrite pow2_Z by lia. now rewrite <- Zle_Qle.
    - replace (Z.log2 m + e + 1)%Z with (Z.log2 m + 1 + e)%Z by lia.
      rewrite pow2_add. apply Qmult_lt_r; [exact Hp|].
      rewrite pow2_Z by lia. rewrite <- Zlt_Qlt. exact Hl2. }
  rewrite roundDouble_eq by lra. unfold exponent. rewrite Hb.
  set (e2 := Z.max (Z.log2 m + e - 52) (-1074)).
  assert (Hp2 := pow2_pos e2).
  assert (Hl53 : (Z.log2 m <= 53)%Z).
  { change 53%Z with (Z.log2 (2 ^ 53)). apply Z.log2_le_mono. lia. }
  destruct (Z.le_gt_cases e2 e) as [Hle|Hgt].
  - rewrite (roundHalfEven_Z _ (m * 2 ^ (e - e2))).
    + rewrite inject_Z_mult, <- pow2_Z by lia.
      rewrite <- Qmult_assoc, <- pow2_add. now replace (e - e2 + e2)%Z with e by lia.
    + rewrite inject_Z_mult, <- pow2_Z by lia.
      unfold Qdiv. rewrite <- Qmult_assoc. apply Qmult_comp; [reflexivity|].
      apply pow2_sub.
  - assert (Hm53 : m = (2 ^ 53)%Z).
    { assert (Z.log2 m = 53%Z) by lia.
      assert (2 ^ 53 <= m)%Z by (rewrite <- H; exact Hl1). lia. }
    assert (He2 : e2 = (e + 1)%Z) by lia.
    rewrite He2, Hm53.
    rewrite (roundHalfEven_Z _ (2 ^ 52)).
    + rewrite pow2_add. change (pow2 1) with 2.
      change (inject_Z (2 ^ 53)) with (inject_Z (2 ^ 52) * 2). ring.
    + rewrite pow2_add. change (pow2 1) with 2.
      change (inject_Z (2 ^ 53)) with (inject_Z (2 ^ 52) * 2). field. lra.
Qed.

(** Rounding twice is rounding once. *)
Lemma roundDouble_idempotent (q : Q) :
  0 <= q -> roundDouble (roundDouble q) == roundDouble q.
Proof.
  intros H0. destruct (Qeq_dec q 0) as [Hz|Hz].
  { rewrite (roundDouble_0 q Hz). reflexivity. }
  assert (Hq : 0 < q) by lra.
  assert (Heq := roundDouble_eq q Hz).
  assert (Hp := pow2_pos (exponent q)).
  destruct (binade_spec q Hq) as [_ Hup].
  rewrite (roundDouble_comp _ _ (roundDouble_nonneg q H0) Heq), Heq.
  apply roundDouble_exact; [|unfold exponent; lia].
  split.
  - rewrite <- (roundHalfEven_Z 0 0) by reflexivity.
    apply roundHalfEven_le. apply Qle_shift_div_l; [exact Hp | lra].
  - rewrite <- (roundHalfEven_Z (pow2 53) (2 ^ 53)) by (apply pow2_Z; lia).
    apply roundHalfEven_le. apply Qle_shift_div_r; [exact Hp|].
    rewrite <- pow2_add.
    assert (pow2 (binade q + 1) <= pow2 (53 + exponent q))
      by (apply pow2_le; unfold exponent; lia).
    lra.
Qed.

(** ** The log only grows *)

Lemma since_app (w w' : World) (evs : list event) :
  log w' = evs ++ log w -> since w w' = rev evs.
Proof.
  intros H. unfold since. rewrite H, length_app.
  replace (List.length evs + List.length (log w) - List.length (log w))%nat
    with (List.length evs + 0)%nat by lia.
  rewrite firstn_app_2. simpl. now rewrite app_nil_r.
Qed.

Lemma recordAll_spec (evs : list event) (w : World) :
  log (recordAll evs w) = rev evs ++ log w /\
  ui (recordAll evs w) = ui w /\
  clock (recordAll evs w) = clock w /\
  blobs (recordAll evs w) = blobs w.
Proof.
  revert w. induction evs as [|e evs IH]; intros w; [now repeat split|].
  simpl. destruct (IH (record e w)) as (Hlog & Hui & Hclock & Hblobs).
  rewrite Hlog, Hui, Hclock, Hblobs. simpl. rewrite <- app_assoc. now repeat split.
Qed.

(** ** handleVideoUpload *)

Lemma string_of_nat_inj (n m : nat) : string_of_nat n = string_of_nat m -> n = m.
Proof.
  unfold string_of_nat. intros H.
  assert (Hnonnil : forall k, Nat.to_uint k <> Decimal.Nil).
  { intros k Hk. pose proof (DecimalNat.Unsigned.to_of (Nat.to_uint k)) as E.
    rewrite DecimalNat.Unsigned.of_to in E. rewrite E in Hk.
    exact (DecimalFacts.unorm_nonnil _ Hk). }
  apply (f_equal NilZero.uint_of_string) in H.
  rewrite !NilZero.usu in H by apply Hnonnil.
  injection H. apply DecimalNat.Unsigned.to_uint_inj.
Qed.

(** The URLs the model mints are as distinct as their counters. *)
Lemma blobUrl_inj (n m : nat) :
  "blob:" +++ string_of_nat n = "blob:" +++ string_of_nat m -> n = m.
Proof.
  intros H. cbv [String.append] in H. injection H as H.
  now apply string_of_nat_inj.
Qed.

Section Upload.

Variable B : Browser.

(** The new entries, in the order of the selection: one per file, each
    with the object URL the browser minted for it. *)
Lemma newVideos_spec (files : list File) (w : World) :
  exists vs w',
    newVideos B files w = (Val vs, w') /\
    map file vs = files /\
    ui w' = ui w /\
    log w' = rev (map (fun v => CreateObjectURL (objectUrl v)) vs) ++ log w /\
    map objectUrl vs
      = map (fun k => "blob:" +++ string_of_nat k) (seq (blobs w) (List.length files)).
Proof.
  revert w. induction files as [|f rest IH]; intros w.
  - exists [], w. simpl. repeat split.
  - simpl. unfold bind. simpl.
    match goal with |- context [newVideos B rest ?w0] =>
      destruct (IH w0) as (vs & w' & Hrun & Hfile & Hui & Hlog & Hurl) end.
    rewrite Hrun. simpl.
    eexists _, w'. split; [reflexivity|]. simpl. repeat split.
    + now rewrite Hfile.
    + exact Hui.
    + rewrite Hlog. simpl. now rewrite <- app_assoc.
    + now rewrite Hurl.
Qed.

(** The parts of the upload that do not depend on the ids: the new
    entries go to the end, one per file, and what was there stays; the
    object URLs of the new entries differ from one another and from every
    URL minted before. *)
Lemma handleVideoUpload_appends (files : list File) (w : World) :
  files <> [] ->
  exists vs,
    videos (ui (snd (handleVideoUpload B files w))) = videos (ui w) ++ vs /\
    map file vs = files /\
    NoDup (map objectUrl vs) /\
    forall k, (k < blobs w)%nat ->
              ~ In ("blob:" +++ string_of_nat k) (map objectUrl vs).
Proof.
  intros Hne. unfold handleVideoUpload.
  destruct files as [|f rest]; [congruence|].
  change (List.length (f :: rest) =? 0)%nat with false. cbv iota.
  destruct (newVideos_spec (f :: rest) w) as (vs & w' & Hrun & Hfile & Hui & _ & Hurl).
  exists vs. unfold bind at 1. rewrite Hrun. simpl. rewrite Hui.
  split; [reflexivity|]. split; [exact Hfile|]. rewrite Hurl. split.
  - apply Finite.Injective_map_NoDup; [|apply seq_NoDup].
    intros m n. apply blobUrl_inj.
  - intros k Hk Hin. apply in_map_iff in Hin. destruct Hin as (n & Heq & Hn).
    apply blobUrl_inj in Heq. apply in_seq in Hn. lia.
Qed.

Lemma handleVideoUpload_empty (w : World) :
  handleVideoUpload B [] w = (Val tt, w).
Proof. reflexivity. Qed.

End Upload.

(** C5.  [handleVideoUpload] is meant to give every new entry an id of
    its own: the id is the React key of the row and the handle
    [handleRemoveVideo] takes.  It builds the id from the file name and
    [Date.now()], so two files of one name added in the same millisecond
    share their id.  Here the selection [introA; introB] is uploaded into
    the empty list: both entries end up with the id
    [intro.mp4-1700000000000], while their object URLs differ. *)
Theorem handleVideoUpload_same_name_same_id :
  map id (videos (ui afterSameName))
    = ["intro.mp4-1700000000000"; "intro.mp4-1700000000000"]
  /\ map objectUrl (videos (ui afterSameName)) = ["blob:0"; "blob:1"]
  /\ ~ NoDup (map id (videos (ui afterSameName))).
Proof.
  split; [reflexivity|]. split; [reflexivity|].
  intros H. change (map id (videos (ui afterSameName)))
    with ["intro.mp4-1700000000000"; "intro.mp4-1700000000000"] in H.
  inversion H as [|x l Hnotin _]; subst. apply Hnotin. now left.
Qed.

(** ** handleRenderVideo without videos *)

(** C7.  With an empty videos list [handleRenderVideo] shows the alert and
    returns: the alert is the only call it makes and no state cell
    changes, so [isRendering], [progress], [status] and [outputUrl] are
    what they were.  The Render button is disabled exactly when the list
    is empty or a render is in progress. *)
Theorem handleRenderVideo_no_videos (B : Browser) (fuel : nat) (w : World) :
  videos (ui w) = [] ->
  let w' := snd (handleRenderVideo B fuel w) in
  fst (handleRenderVideo B fuel w) = NoVideos /\
  since w w' = [Alert "Please upload videos before rendering."] /\
  ui w' = ui w /\
  (isRendering (ui w) = false -> isRendering (ui w') = false) /\
  forall st : AppState,
    renderDisabled st = true <-> videos st = [] \/ isRendering st = true.
Proof.
  intros Hempty. unfold handleRenderVideo. rewrite Hempty. simpl.
  split; [reflexivity|]. split.
  - now apply (since_app w (record _ w) [Alert _]).
  - split; [reflexivity|]. split; [auto|].
    intros st. unfold renderDisabled. rewrite orb_true_iff, Nat.eqb_eq.
    destruct (videos st); simpl; intuition congruence.
Qed.

Lemma handleRenderVideo_no_videos_witness :
  fst (handleRenderVideo chrome 0 initialWorld) = NoVideos /\
  ui (snd (handleRenderVideo chrome 0 initialWorld)) = initialState.
Proof.
  destruct (handleRenderVideo_no_videos chrome 0 initialWorld eq_refl)
    as (Hout & _ & Hui & _).
  split; [exact Hout | exact Hui].
Defined.

(** ** handleRemoveVideo *)

Lemma find_unique (i : string) (l1 l2 : list VideoFile) (v : VideoFile) :
  id v = i ->
  (forall x, In x (l1 ++ l2) -> id x <> i) ->
  find (hasId i) (l1 ++ v :: l2) = Some v.
Proof.
  intros Hv Hother. induction l1 as [|x l1 IH]; simpl.
  - unfold hasId. now rewrite Hv, String.eqb_refl.
  - unfold hasId at 1. destruct (String.eqb_spec (id x) i) as [Heq|_].
    + exfalso. apply (Hother x); [now left | exact Heq].
    + apply IH. intros y Hy. apply Hother. now right.
Qed.

Lemma filter_others (i : string) (l : list VideoFile) :
  (forall x, In x l -> id x <> i) ->
  filter (fun v => negb (hasId i v)) l = l.
Proof.
  intros Hother. induction l as [|x l IH]; simpl; [reflexivity|].
  unfold hasId at 1. destruct (String.eqb_spec (id x) i) as [Heq|_].
  - exfalso. apply (Hother x); [now left | exact Heq].
  - simpl. f_equal. apply IH. intros y Hy. apply Hother. now right.
Qed.

Lemma find_none_others (i : string) (l : list VideoFile) :
  (forall x, In x l -> id x <> i) -> find (hasId i) l = None.
Proof.
  intros Hother. induction l as [|x l IH]; simpl; [reflexivity|].
  unfold hasId at 1. destruct (String.eqb_spec (id x) i) as [Heq|_].
  - exfalso. apply (Hother x); [now left | exact Heq].
  - apply IH. intros y Hy. apply Hother. now right.
Qed.

(** What [handleRemoveVideo] does to the list and to the log, whatever
    the list holds. *)
Lemma handleRemoveVideo_run (i : string) (w : World) :
  let w' := snd (handleRemoveVideo i w) in
  videos (ui w') = filter (fun v => negb (hasId i v)) (videos (ui w)) /\
  revoked (since w w')
    = match find (hasId i) (videos (ui w)) with
      | Some v => [objectUrl v]
      | None => []
      end.
Proof.
  unfold handleRemoveVideo, bind, revokeObjectURL.
  fold (hasId i). 
  change (fun video : VideoFile => negb (String.eqb (id video) i))
    with (fun v : VideoFile => negb (hasId i v)).
  destruct (find (hasId i) (videos (ui w))) as [v|] eqn:Hfind; simpl.
  - split; [reflexivity|].
    match goal with |- revoked (since w ?w1) = _ =>
      rewrite (since_app w w1
                 [SetState (Status "Video removed.");
                  SetState (Videos (filter (fun v => negb (hasId i v)) (videos (ui w))));
                  RevokeObjectURL (objectUrl v)] eq_refl)
    end.
    reflexivity.
  - split; [reflexivity|].
    match goal with |- revoked (since w ?w1) = _ =>
      rewrite (since_app w w1
                 [SetState (Status "Video removed.");
                  SetState (Videos (filter (fun v => negb (hasId i v)) (videos (ui w))))]
                 eq_refl)
    end.
    reflexivity.
Qed.



(** With the two same-named entries of [afterSameName], one click on
    Remove takes both rows out and revokes the URL of the first only. *)
Lemma handleRemoveVideo_shared_id :
  videos (ui (snd (handleRemoveVideo "intro.mp4-1700000000000" afterSameName))) = []
  /\ revoked (since afterSameName
                (snd (handleRemoveVideo "intro.mp4-1700000000000" afterSameName)))
    = ["blob:0"].
Proof. split; reflexivity. Qed.


(** ** handleGenerateMusic *)

Lemma falsy_iff (s : string) : falsy s = true <-> s = "".
Proof. destruct s; simpl; split; congruence. Qed.

Lemma notPositive_iff (x : number) :
  notPositive x = true
  <-> match x with
      | NaN => False
      | Finite t => (t <= 0)%Z
      | Infinite negative => negative = true
      end.
Proof.
  destruct x as [|z|negative]; simpl.
  - split; [discriminate | contradiction].
  - apply Z.leb_le.
  - reflexivity.
Qed.

(** C6.  With a prompt that is empty after [trim], or a total duration
    that is zero or negative, [handleGenerateMusic] shows the alert, sends
    no request and changes no state cell.  Otherwise it sends one request,
    the text of [fullPrompt]; if the request fails the description becomes
    the fixed failure message, and whether it fails or not
    [isGeneratingMusic] ends up false.  The handler always runs to its
    end. *)
Theorem handleGenerateMusic_spec (B : Browser) (w : World) :
  let st := ui w in
  let w' := snd (handleGenerateMusic B w) in
  let refused :=
    trim (musicPrompt st) = ""
    \/ match totalDuration st with
       | NaN => False
       | Finite t => (t <= 0)%Z
       | Infinite negative => negative = true
       end in
  fst (handleGenerateMusic B w) = Val tt /\
  (refused ->
     alerts (since w w')
       = ["Please add videos to set a total duration and enter a music prompt."] /\
     requests (since w w') = [] /\ ui w' = ui w) /\
  (~ refused ->
     alerts (since w w') = [] /\
     requests (since w w') = [fullPrompt B st] /\
     isGeneratingMusic (ui w') = false /\
     (forall error, generateContent B (fullPrompt B st) = inl error ->
                    musicDescription (ui w') = musicFailure) /\
     (forall text, generateContent B (fullPrompt B st) = inr text ->
                   musicDescription (ui w') = text)).
Proof.
  intros st w' refused. subst w'. unfold handleGenerateMusic. fold st.
  assert (Hguard : falsy (trim (musicPrompt st)) || notPositive (totalDuration st) = true
                   <-> refused).
  { unfold refused. now rewrite orb_true_iff, falsy_iff, notPositive_iff. }
  destruct (falsy (trim (musicPrompt st)) || notPositive (totalDuration st)).
  - split; [reflexivity|]. split.
    + intros _. simpl.
      rewrite (since_app w (record _ w) [Alert _] eq_refl). simpl.
      repeat split.
    + intros Hn. exfalso. apply Hn, Hguard. reflexivity.
  - unfold bind. simpl.
    destruct (generateContent B (fullPrompt B st)) as [error|text] eqn:Hai; simpl.
    + split; [reflexivity|]. split.
      * intros Hr. apply Hguard in Hr. discriminate.
      * intros _.
        match goal with |- alerts (since w ?w1) = _ /\ _ =>
          rewrite (since_app w w1
                     [SetState (IsGeneratingMusic false);
                      SetState (MusicDescription musicFailure);
                      ConsoleError "Error generating music description:";
                      GenerateContent "gemini-2.5-flash" (fullPrompt B st);
                      SetState (MusicDescription "");
                      SetState (IsGeneratingMusic true)] eq_refl)
        end.
        repeat split; try reflexivity; intros ? [=].
    + split; [reflexivity|]. split.
      * intros Hr. apply Hguard in Hr. discriminate.
      * intros _.
        match goal with |- alerts (since w ?w1) = _ /\ _ =>
          rewrite (since_app w w1
                     [SetState (IsGeneratingMusic false);
                      SetState (MusicDescription text);
                      GenerateContent "gemini-2.5-flash" (fullPrompt B st);
                      SetState (MusicDescription "");
                      SetState (IsGeneratingMusic true)] eq_refl)
        end.
        repeat split; try reflexivity; intros ? [=]. now subst.
Qed.

Lemma handleGenerateMusic_spec_witness :
  ui (snd (handleGenerateMusic chrome initialWorld)) = initialState /\
  ui (snd (handleGenerateMusic chrome blankPrompt)) = ui blankPrompt /\
  requests (since blankPrompt (snd (handleGenerateMusic chrome blankPrompt))) = [] /\
  isGeneratingMusic (ui (snd (handleGenerateMusic offline afterUpload))) = false /\
  musicDescription (ui (snd (handleGenerateMusic offline afterUpload))) = musicFailure /\
  requests (since longClips (snd (handleGenerateMusic chrome longClips)))
    = ["Describe a piece of instrumental background music for a video that is 2e+21 seconds long. The desired mood is: "
       +++ String "034" "Epic cinematic score"
       +++ String "034" ". Describe the instruments, tempo, and emotional progression of the music."].
Proof.
  split; [|split; [|split; [|split; [|split]]]].
  - destruct (handleGenerateMusic_spec chrome initialWorld) as (_ & Hrefused & _).
    apply Hrefused. right. vm_compute. discriminate.
  - destruct (handleGenerateMusic_spec chrome blankPrompt) as (_ & Hrefused & _).
    apply Hrefused. left. reflexivity.
  - destruct (handleGenerateMusic_spec chrome blankPrompt) as (_ & Hrefused & _).
    apply Hrefused. left. reflexivity.
  - destruct (handleGenerateMusic_spec offline afterUpload) as (_ & _ & Hsent).
    destruct Hsent as (_ & _ & Hflag & _); [|exact Hflag].
    intros [Hblank | Hle]; [vm_compute in Hblank; discriminate | vm_compute in Hle].
    apply Hle. reflexivity.
  - destruct (handleGenerateMusic_spec offline afterUpload) as (_ & _ & Hsent).
    destruct Hsent as (_ & _ & _ & Hfail & _).
    + intros [Hblank | Hle]; [vm_compute in Hblank; discriminate | vm_compute in Hle].
      apply Hle. reflexivity.
    + apply (Hfail (JsError "Failed to fetch")). reflexivity.
  - destruct (handleGenerateMusic_spec chrome longClips) as (_ & _ & Hsent).
    destruct Hsent as (_ & Hreq & _).
    + intros [Hblank | Hle]; [vm_compute in Hblank; discriminate | vm_compute in Hle].
      apply Hle. reflexivity.
    + rewrite Hreq. vm_compute. reflexivity.
Defined.

(** ** Reasoning about runs *)

Lemma replay_app (evs2 evs1 : list event) (st : AppState) :
  replay (evs2 ++ evs1) st = replay evs2 (replay evs1 st).
Proof. unfold replay. now rewrite fold_right_app. Qed.

Section Rules.

Variable B : Browser.
Variable P : event -> Prop.

Lemma emits_ret {A} (a : A) : emits P (ret a).
Proof.
  intros w r w' [= <- <-]. exists []. repeat split; auto.
Qed.

Lemma emits_throw {A} (e : exn) : emits P (@throw A e).
Proof.
  intros w r w' [= <- <-]. exists []. repeat split; auto.
Qed.

Lemma emits_hang {A} : emits P (fun w => (@Hang A, w)).
Proof.
  intros w r w' [= <- <-]. exists []. repeat split; auto.
Qed.

Lemma emits_emit (e : event) :
  P e -> match e with SetState _ => False | _ => True end -> emits P (emit e).
Proof.
  intros He Hns w r w' [= <- <-]. exists [e]. simpl.
  repeat split; auto. destruct e; auto; contradiction.
Qed.

Lemma emits_call (e : event) :
  P e -> match e with SetState _ => False | _ => True end -> emits P (call B e).
Proof.
  intros He Hns w r w' Hrun. unfold call in Hrun.
  exists [e]. destruct (throws B (List.length (log w))); injection Hrun as <- <-; simpl;
    repeat split; auto; destruct e; auto; contradiction.
Qed.

Lemma emits_set (u : update) : P (SetState u) -> emits P (set u).
Proof.
  intros He w r w' [= <- <-]. exists [SetState u]. simpl. repeat split; auto.
Qed.

Lemma emits_performanceNow : emits P (performanceNow B).
Proof.
  intros w r w' [= <- <-]. exists []. repeat split; auto.
Qed.

Lemma emits_videoNearEnd : emits P (videoNearEnd B).
Proof.
  intros w r w' [= <- <-]. exists []. repeat split; auto.
Qed.

Lemma emits_createObjectURL :
  (forall url, P (CreateObjectURL url)) -> emits P createObjectURL.
Proof.
  intros He w r w' [= <- <-]. eexists [CreateObjectURL _]. simpl.
  repeat split; auto.
Qed.

Lemma emits_bind {A C} (m : M A) (f : A -> M C) :
  emits P m -> (forall a, emits P (f a)) -> emits P (bind m f).
Proof.
  intros Hm Hf w r w' Hrun. unfold bind in Hrun.
  destruct (m w) as [r1 w1] eqn:Hm1.
  destruct (Hm _ _ _ Hm1) as (evs1 & Hlog1 & HP1 & Hui1 & Hb1).
  destruct r1 as [a|e|].
  - destruct (Hf a _ _ _ Hrun) as (evs2 & Hlog2 & HP2 & Hui2 & Hb2).
    exists (evs2 ++ evs1). repeat split.
    + now rewrite Hlog2, Hlog1, app_assoc.
    + apply Forall_app. now split.
    + now rewrite Hui2, Hui1, replay_app.
    + lia.
  - injection Hrun as <- <-. now exists evs1.
  - injection Hrun as <- <-. now exists evs1.
Qed.

(** The rule for [bind] when what follows depends on a fact [R] about
    the value returned. *)
Lemma emits_bind_val {A C} (R : A -> Prop) (m : M A) (f : A -> M C) :
  emits P m ->
  (forall w w' a, m w = (Val a, w') -> R a) ->
  (forall a, R a -> emits P (f a)) ->
  emits P (bind m f).
Proof.
  intros Hm HR Hf w r w' Hrun. unfold bind in Hrun.
  destruct (m w) as [r1 w1] eqn:Hm1.
  destruct (Hm _ _ _ Hm1) as (evs1 & Hlog1 & HP1 & Hui1 & Hb1).
  destruct r1 as [a|e|].
  - destruct (Hf a (HR _ _ _ Hm1) _ _ _ Hrun) as (evs2 & Hlog2 & HP2 & Hui2 & Hb2).
    exists (evs2 ++ evs1). repeat split.
    + now rewrite Hlog2, Hlog1, app_assoc.
    + apply Forall_app. now split.
    + now rewrite Hui2, Hui1, replay_app.
    + lia.
  - injection Hrun as <- <-. now exists evs1.
  - injection Hrun as <- <-. now exists evs1.
Qed.

End Rules.

Lemma emits_weaken {A} (P R : event -> Prop) (m : M A) :
  (forall e, P e -> R e) -> emits P m -> emits R m.
Proof.
  intros HPR Hm w r w' Hrun.
  destruct (Hm _ _ _ Hrun) as (evs & Hlog & HP & Hrest).
  exists evs. split; [exact Hlog|]. split; [|exact Hrest].
  eapply Forall_impl; [exact HPR | exact HP].
Qed.

(** ** What the body of [try] may call *)

Create HintDb emits.
#[local] Hint Resolve emits_ret emits_throw emits_hang emits_performanceNow
  emits_videoNearEnd : emits.

Ltac emits_auto :=
  repeat first
    [ apply emits_bind; [|intros]
    | solve [auto with emits]
    | apply emits_set; simpl; auto
    | apply emits_emit; simpl; auto
    | apply emits_call; simpl; auto ].

Section TryBlock.

Variable B : Browser.
Variable st : AppState.

Lemma emits_frame (d : Z) (dims : N * N) (locals : Q * Q * Q) :
  emits (tryEvent st) (frame B st d dims locals).
Proof.
  destruct locals as [[elapsed lastFrameTime] overallProgress]. unfold frame.
  apply emits_bind; [auto with emits | intros now].
  apply (emits_bind_val _ (fun seek => seek = true -> masterLoop st = true)).
  - destruct (masterLoop st); auto with emits.
  - intros w w' seek Hrun. destruct (masterLoop st); [auto|].
    injection Hrun as <- _. discriminate.
  - intros seek Hseek.
    apply emits_bind; [destruct seek; emits_auto | intros _].
    emits_auto. apply Q.le_min_l.
Qed.

Lemma emits_frames (fuel : nat) (d : Z) (dims : N * N) (locals : Q * Q * Q) :
  emits (tryEvent st) (frames B fuel st d dims locals).
Proof.
  revert locals. induction fuel as [|fuel IH]; intros locals; simpl;
    destruct (below _ _); auto with emits.
  apply emits_bind; [apply emits_frame | intros locals'; apply IH].
Qed.

Lemma emits_drawClip (fuel : nat) (dims : N * N) (lastFrameTime overall : Q) :
  emits (tryEvent st) (drawClip B fuel st dims lastFrameTime overall).
Proof.
  unfold drawClip. destruct (masterDuration st); auto with emits.
  apply emits_bind; [apply emits_frames | intros; auto with emits].
Qed.

Lemma emits_playClip (video : VideoFile) : emits (tryEvent st) (playClip B video).
Proof.
  unfold playClip. destruct (loadMetadata B (objectUrl video)) as [[width height]|];
    emits_auto.
Qed.

Lemma emits_clips (fuel : nat) (vs : list VideoFile) (overall : Q) :
  emits (tryEvent st) (clips B fuel st vs overall).
Proof.
  revert overall. induction vs as [|video rest IH]; intros overall; simpl;
    auto with emits.
  apply emits_bind; [emits_auto | intros _].
  apply emits_bind; [apply emits_playClip | intros dims].
  emits_auto. apply emits_drawClip.
Qed.

Section Generic.

(** The straight-line part of the body makes the same calls whatever the
    clips are; a property of its calls extends to the whole body once it
    holds of the loop. *)
Variable P : event -> Prop.
Hypothesis HP : forall e, tryEvent st e -> isProgress e = false -> P e.

Ltac generic_auto :=
  repeat first
    [ apply emits_bind; [|intros]
    | solve [auto with emits]
    | apply emits_set; apply HP; simpl; auto
    | apply emits_emit; [apply HP; simpl; auto | exact I]
    | apply emits_call; [apply HP; simpl; auto | exact I] ].

Lemma emits_loadFirst (vs : list VideoFile) : emits P (loadFirst B vs).
Proof.
  unfold loadFirst. destruct vs as [|v rest]; auto with emits.
  apply emits_bind; [generic_auto | intros _].
  destruct (loadMetadata B (objectUrl v)) as [[width height]|]; generic_auto.
Qed.

Lemma emits_getContext2d : emits P (getContext2d B).
Proof.
  unfold getContext2d. apply emits_bind; [generic_auto | intros _].
  destruct (has2d B); auto with emits.
Qed.

Lemma emits_mixAudio : emits P (mixAudio B (audioFile st)).
Proof.
  unfold mixAudio. destruct (audioFile st) as [f|]; generic_auto.
Qed.

Lemma mixAudio_input (w w' : World) (input : audioNode) :
  mixAudio B (audioFile st) w = (Val input, w') ->
  input = destinationInput (audioFile st).
Proof.
  unfold mixAudio, bind, call, emit. intros Hrun.
  destruct (audioFile st) as [f|]; simpl in *.
  - repeat match type of Hrun with
           | context [throws B ?n] => destruct (throws B n); simpl in Hrun
           end; try discriminate; now injection Hrun as <- _.
  - now injection Hrun as <- _.
Qed.

Lemma emits_tryBlock_with (fuel : nat) :
  emits P (clips B fuel st (videos st) 0) ->
  emits P (tryBlock B fuel st).
Proof.
  intros Hclips.
  unfold tryBlock. destruct (isTypeSupported B _); simpl; [|generic_auto].
  do 4 (apply emits_bind; [generic_auto | intros _]).
  apply emits_bind; [apply emits_loadFirst | intros dims].
  apply emits_bind; [apply emits_getContext2d | intros _].
  do 3 (apply emits_bind; [generic_auto | intros _]).
  apply (emits_bind_val P (fun input => input = destinationInput (audioFile st)));
    [apply emits_mixAudio | apply mixAudio_input | intros input ->].
  generic_auto.
Qed.

End Generic.

Lemma emits_tryBlock (fuel : nat) : emits (tryEvent st) (tryBlock B fuel st).
Proof.
  apply emits_tryBlock_with; [auto | apply emits_clips].
Qed.

End TryBlock.

(** The body of [try] leaves [outputUrl] and the render inputs alone, and
    can only lower [isRendering]. *)
Lemma replay_tryEvent (st0 : AppState) (evs : list event) (s : AppState) :
  Forall (tryEvent st0) evs ->
  outputUrl (replay evs s) = outputUrl s /\
  videos (replay evs s) = videos s /\
  audioFile (replay evs s) = audioFile s /\
  (isRendering s = false -> isRendering (replay evs s) = false).
Proof.
  induction 1 as [|e evs He _ IH]; simpl; [auto|].
  destruct IH as (Hout & Hvs & Haud & Hrend).
  destruct e as [u| | | | | | | | | | | | | | | | | | | | | | | | | | | | | | | | | |];
    try (repeat split; assumption).
  destruct u; simpl in He; try contradiction; simpl; repeat split; auto.
Qed.

Lemma tryEvent_no_export (st0 : AppState) (evs : list event) :
  Forall (tryEvent st0) evs -> minted evs = [] /\ blobsMade evs = [].
Proof.
  induction 1 as [|e evs He _ [IHm IHb]]; [now split|].
  unfold minted, blobsMade in *. simpl. rewrite IHm, IHb.
  destruct e; simpl in He; try contradiction; now split.
Qed.

(** How a call of [handleRenderVideo] with videos unfolds: the four
    setters, the body of [try], and then [onstop], the [catch] clause or
    nothing. *)
Lemma handleRenderVideo_unfold (B : Browser) (fuel : nat) (w : World) :
  videos (ui w) <> [] ->
  handleRenderVideo B fuel w =
    match tryBlock B fuel (ui w) (snd (startRender w)) with
    | (Val None, w') => (Unsupported, w')
    | (Val (Some es), w') =>
        (Completed es, snd (onstop (mimeTypeOf (outputFormat (ui w))) w'))
    | (Throw e, w') => (Aborted e, snd (catchRender e w'))
    | (Hang, w') => (Pending, w')
    end.
Proof.
  intros Hne. unfold handleRenderVideo.
  destruct (videos (ui w)) as [|v rest] eqn:Hvs; [congruence|]. reflexivity.
Qed.

(** ** The [catch] clause *)

(** C2.  When a step of the body of [try] throws, [handleRenderVideo]
    goes to its [catch] clause and does nothing else: it logs the error,
    sets the status to [Error during render: ] followed by the message,
    and sets [isRendering] to false.  No blob and no object URL is made in
    the whole call, and [outputUrl] is the null it was reset to. *)
Theorem handleRenderVideo_abort
    (B : Browser) (fuel : nat) (w w1 : World) (e : exn) :
  videos (ui w) <> [] ->
  tryBlock B fuel (ui w) (snd (startRender w)) = (Throw e, w1) ->
  let w' := snd (handleRenderVideo B fuel w) in
  fst (handleRenderVideo B fuel w) = Aborted e /\
  since w1 w' = [ConsoleError "Render failed:";
                 SetState (Status ("Error during render: " +++ errorMessage e));
                 SetState (IsRendering false)] /\
  status (ui w') = "Error during render: " +++ errorMessage e /\
  prefix "Error during render:" (status (ui w')) = true /\
  isRendering (ui w') = false /\
  outputUrl (ui w') = None /\
  minted (since w w') = [] /\
  blobsMade (since w w') = [].
Proof.
  intros Hne Htry w'. subst w'. rewrite (handleRenderVideo_unfold B fuel w Hne), Htry.
  destruct (emits_tryBlock B (ui w) fuel _ _ _ Htry) as (evs & Hlog & Hevs & Hui & _).
  destruct (replay_tryEvent (ui w) evs (ui (snd (startRender w))) Hevs) as (Hout & _).
  cbn [fst snd].
  assert (Hlog' : log (snd (catchRender e w1))
                  = [SetState (IsRendering false);
                     SetState (Status ("Error during render: " +++ errorMessage e));
                     ConsoleError "Render failed:"] ++ log w1) by reflexivity.
  assert (Hui' : ui (snd (catchRender e w1))
                 = apply (IsRendering false)
                     (apply (Status ("Error during render: " +++ errorMessage e)) (ui w1)))
    by reflexivity.
  set (w' := snd (catchRender e w1)) in *. clearbody w'.
  split; [reflexivity|]. split; [now rewrite (since_app _ _ _ Hlog')|].
  rewrite Hui'. split; [reflexivity|]. split; [reflexivity|]. split; [reflexivity|].
  split; [simpl; now rewrite Hui, Hout|].
  assert (Hsince : since w w'
                   = rev ([SetState (IsRendering false);
                           SetState (Status ("Error during render: " +++ errorMessage e));
                           ConsoleError "Render failed:"]
                          ++ evs
                          ++ [SetState (OutputUrl None);
                              SetState (Status "Initializing render...");
                              SetState (Progress 0);
                              SetState (IsRendering true)])).
  { apply since_app. rewrite Hlog', Hlog. simpl. now rewrite <- app_assoc. }
  rewrite Hsince.
  match goal with |- minted (rev ?l) = _ /\ _ =>
    assert (Hall : Forall (fun ev => match ev with
                                     | CreateObjectURL _ | NewBlob _ => False
                                     | _ => True
                                     end) (rev l));
      [|revert Hall; generalize (rev l)]
  end.
  { apply Forall_rev. repeat (apply Forall_cons; [exact I|]).
    apply Forall_app. split.
    - eapply Forall_impl; [|exact Hevs]. intros ev Hev.
      destruct ev; simpl in Hev; try contradiction; exact I.
    - repeat (apply Forall_cons; [exact I|]). constructor. }
  intros l Hall. induction Hall as [|ev l Hev _ [IHm IHb]]; [now split|].
  unfold minted, blobsMade in *. simpl. rewrite IHm, IHb.
  destruct ev; try contradiction; now split.
Qed.

Lemma handleRenderVideo_abort_witness :
  fst (handleRenderVideo noDecoder 0 afterUpload)
    = Aborted (JsError "Failed to load video metadata.") /\
  status (ui (snd (handleRenderVideo noDecoder 0 afterUpload)))
    = "Error during render: Failed to load video metadata." /\
  outputUrl (ui (snd (handleRenderVideo noDecoder 0 afterUpload))) = None.
Proof.
  destruct (handleRenderVideo_abort noDecoder 0 afterUpload
              (snd (tryBlock noDecoder 0 (ui afterUpload) (snd (startRender afterUpload))))
              (JsError "Failed to load video metadata."))
    as (Hout & _ & Hstatus & _ & _ & Hurl & _).
  - vm_compute. discriminate.
  - vm_compute. reflexivity.
  - split; [exact Hout|]. split; [exact Hstatus | exact Hurl].
Defined.

(** ** The frame loop *)

Section Loop.

Variable B : Browser.
Variable st : AppState.

(** One frame: the clock is read once, the clip is taken back to its
    start exactly when [masterLoop] is set and the playhead is within a
    tenth of a second of the end, one image is drawn and one progress
    value stored.  A frame never throws. *)
Lemma frame_run (d : Z) (dims : N * N) (elapsed last overall : Q) (w : World) :
  let now := performance_now B (clock w) in
  let delta := roundDouble (now - last) in
  let p := Qmin 100 (percent (roundDouble (overall + delta)) (totalMs st d)) in
  exists w',
    frame B st d dims (elapsed, last, overall) w
      = (Val (roundDouble (elapsed + delta), now, roundDouble (overall + delta)), w') /\
    log w' = [RequestAnimationFrame; SetState (Progress p);
              DrawImage (fst dims) (snd dims)]
             ++ (if masterLoop st && nearEnd B (S (clock w))
                 then [SetCurrentTime 0] else [])
             ++ log w /\
    clock w' = S (clock w) /\
    blobs w' = blobs w /\
    ui w' = apply (Progress p) (ui w).
Proof.
  intros now delta p. unfold frame, bind, performanceNow, videoNearEnd, emit, set, ret.
  simpl. destruct (masterLoop st); simpl.
  - destruct (nearEnd B (S (clock w))); simpl; eexists; repeat split.
  - eexists; repeat split.
Qed.

Lemma frames_unfold (fuel : nat) (d : Z) (dims : N * N) (locals : Q * Q * Q) :
  frames B fuel st d dims locals =
    if below (fst (fst locals)) (clipDuration d) then
      match fuel with
      | O => fun w => (Hang, w)
      | S fuel' => bind (frame B st d dims locals) (frames B fuel' st d dims)
      end
    else ret locals.
Proof. destruct fuel; reflexivity. Qed.

Lemma inject_Z_nonneg (z : Z) : (0 <= z)%Z -> 0 <= inject_Z z.
Proof. intros H. unfold Qle. simpl. lia. Qed.

(** A product of a count and an integer that is not negative is not
    negative, and one that is not positive is not positive. *)
Lemma multiply_nonneg (n : nat) (d : Z) :
  (0 <= d)%Z ->
  match multiply n (Some d) with
  | NaN => False
  | Finite z => (0 <= z)%Z
  | Infinite negative => negative = false
  end.
Proof.
  intros Hd. unfold multiply.
  set (q := roundDouble (inject_Z (Z.of_nat n * d))).
  assert (Hq : 0 <= q) by (apply roundDouble_nonneg, inject_Z_nonneg; nia).
  assert (Hz : (0 <= Qfloor q)%Z).
  { change 0%Z with (Qfloor 0). now apply Qfloor_resp_le. }
  destruct (2 ^ 1024 <=? Z.abs (Qfloor q))%Z; [|exact Hz].
  apply Z.ltb_ge. exact Hz.
Qed.

Lemma multiply_nonpos (n : nat) (d : Z) :
  (d <= 0)%Z ->
  match multiply n (Some d) with
  | NaN => False
  | Finite z => (z <= 0)%Z
  | Infinite negative => negative = true
  end.
Proof.
  intros Hd. unfold multiply.
  set (q := roundDouble (inject_Z (Z.of_nat n * d))).
  assert (Hq : q <= 0).
  { apply roundDouble_nonpos. change 0 with (inject_Z 0). rewrite <- Zle_Qle. nia. }
  assert (Hz : (Qfloor q <= 0)%Z).
  { change 0%Z with (Qfloor 0). now apply Qfloor_resp_le. }
  destruct (2 ^ 1024 <=? Z.abs (Qfloor q))%Z eqn:Hbig; [|exact Hz].
  apply Z.ltb_lt. apply Z.leb_le in Hbig. lia.
Qed.

(** The loop is entered for a positive duration only. *)
Lemma clipDuration_pos (d : Z) (elapsed : Q) :
  0 <= elapsed -> below elapsed (clipDuration d) = true -> (0 < d)%Z.
Proof.
  intros H0 Hlt. destruct (Z.lt_ge_cases 0 d) as [Hd|Hd]; [exact Hd | exfalso].
  assert (H := multiply_nonpos 1000 d Hd).
  unfold clipDuration, milliseconds, below in Hlt.
  destruct (multiply 1000 (Some d)) as [|z|negative]; [discriminate| |].
  - apply negb_true_iff in Hlt.
    assert (Hle : inject_Z z <= elapsed).
    { apply Qle_trans with 0; [|exact H0]. change 0 with (inject_Z 0).
      now rewrite <- Zle_Qle. }
    apply Qle_bool_iff in Hle. congruence.
  - subst negative. discriminate.
Qed.

(** [totalDuration * 1000] is not negative in the loop. *)
Lemma totalMs_nonneg (d : Z) :
  (0 < d)%Z ->
  match totalMs st d with
  | NaN => False
  | Finite z => (0 <= z)%Z
  | Infinite negative => negative = false
  end.
Proof.
  intros Hd. unfold totalMs.
  assert (H := multiply_nonneg (List.length (videos st)) d (Z.lt_le_incl _ _ Hd)).
  destruct (multiply (List.length (videos st)) (Some d)) as [|z|negative];
    [contradiction | | exact H].
  exact (multiply_nonneg 1000 z H).
Qed.

Lemma percent_nonneg (d : Z) (overall : Q) :
  (0 < d)%Z -> 0 <= overall -> 0 <= percent overall (totalMs st d).
Proof.
  intros Hd Ho. assert (Ht := totalMs_nonneg d Hd). unfold percent.
  destruct (totalMs st d) as [|z|negative]; try lra.
  assert (Hq : 0 <= overall / inject_Z z).
  { unfold Qdiv. apply Qmult_le_0_compat; [exact Ho|].
    apply Qinv_le_0_compat. now apply inject_Z_nonneg. }
  apply roundDouble_nonneg.
  assert (Hr := roundDouble_nonneg _ Hq). lra.
Qed.

Lemma progress_nonneg (d : Z) (overall : Q) :
  (0 < d)%Z -> 0 <= overall -> 0 <= Qmin 100 (percent overall (totalMs st d)).
Proof.
  intros Hd Ho. apply Q.min_glb; [lra|]. now apply percent_nonneg.
Qed.

(** One turn of the [for] loop: the status is set, the clip becomes the
    source of the off-screen video, [play()] is awaited while the canvas
    takes the size of the clip, and the frame loop runs from a fresh
    clock reading. *)
Lemma clips_cons (fuel : nat) (video : VideoFile)
    (rest : list VideoFile) (overall : Q) (w : World) :
  let w1 := record Play (record (SetSrc (objectUrl video))
                           (snd (set (Status ("Rendering: " +++ name (file video))) w))) in
  clips B fuel st (video :: rest) overall w =
    match throws B (S (S (List.length (log w)))) with
    | Some x => (Throw x, w1)
    | None =>
        match loadMetadata B (objectUrl video) with
        | None => (Throw (JsError (noSourceMessage B)), w1)
        | Some dims =>
            match drawClip B fuel st dims (performance_now B (clock w)) overall
                    (tick (record (SizeCanvas (fst dims) (snd dims)) w1)) with
            | (Val r, w2) =>
                match clips B fuel st rest (snd r) w2 with
                | (Val es, w3) => (Val (fst r :: es), w3)
                | (Throw e, w3) => (Throw e, w3)
                | (Hang, w3) => (Hang, w3)
                end
            | (Throw e, w2) => (Throw e, w2)
            | (Hang, w2) => (Hang, w2)
            end
        end
    end.
Proof.
  intros w1. subst w1. cbn [clips]. unfold playClip, bind, set, emit, call, throw, ret.
  simpl.
  destruct (throws B (S (S (List.length (log w))))); [reflexivity|].
  destruct (loadMetadata B (objectUrl video)) as [[width height]|]; [|reflexivity].
  unfold performanceNow. simpl.
  destruct (drawClip B fuel st (width, height) _ overall _) as [[r|e|] w2]; reflexivity.
Qed.

Section Monotonic.

Hypothesis Hmono : monotonic B.

Lemma frames_notNegative (fuel : nat) (d : Z) (dims : N * N) :
  forall elapsed last overall w r w',
    0 <= elapsed -> 0 <= overall ->
    (exists k, (k <= clock w)%nat /\ last = performance_now B k) ->
    frames B fuel st d dims (elapsed, last, overall) w = (r, w') ->
    (exists evs, log w' = evs ++ log w /\ Forall progressNotNegative evs /\
                 ui w' = replay evs (ui w) /\ (blobs w <= blobs w')%nat) /\
    forall locals, r = Val locals -> 0 <= snd locals.
Proof.
  induction fuel as [|fuel IH]; intros elapsed last overall w r w' He Ho Hlast Hrun;
    rewrite frames_unfold in Hrun; cbn [fst] in Hrun;
    destruct (below elapsed (clipDuration d)) eqn:Hlt;
    try (injection Hrun as <- <-; split;
         [exists []; repeat split; auto | intros locals [= <-]; exact Ho]).
  destruct Hlast as (k & Hk & ->).
  destruct (frame_run d dims elapsed (performance_now B k) overall w)
    as (w1 & Hframe & Hlog1 & Hclock1 & Hblobs1 & Hui1).
  unfold bind in Hrun. rewrite Hframe in Hrun.
  assert (Hdelta : 0 <= roundDouble (performance_now B (clock w) - performance_now B k)).
  { apply roundDouble_nonneg. assert (H := Hmono k (clock w) Hk). lra. }
  assert (Hd : (0 < d)%Z) by (apply (clipDuration_pos d elapsed); assumption).
  apply IH in Hrun; try (apply roundDouble_nonneg; lra).
  + destruct Hrun as [(evs & Hlog & Hevs & Hui & Hblobs) Hval].
    split; [|exact Hval].
    rewrite (app_assoc [_; _; _]) in Hlog1.
    match type of Hlog1 with _ = ?L ++ log w => exists (evs ++ L) end.
    split; [rewrite Hlog, Hlog1; apply app_assoc|].
    rewrite Hui, Hui1. split; [|split; [|lia]].
    * apply Forall_app. split; [exact Hevs|]. apply Forall_app. split.
      -- repeat (apply Forall_cons; [simpl; auto|]); [|constructor].
         apply progress_nonneg; [exact Hd | apply roundDouble_nonneg; lra].
      -- destruct (_ && _); repeat constructor.
    * rewrite replay_app. f_equal. rewrite replay_app.
      destruct (_ && _); reflexivity.
  + exists (clock w). split; [lia | reflexivity].
Qed.

Lemma drawClip_notNegative (fuel : nat) (dims : N * N) (last overall : Q)
    (w : World) (r : res (Q * Q)) (w' : World) :
  0 <= overall ->
  (exists k, (k <= clock w)%nat /\ last = performance_now B k) ->
  drawClip B fuel st dims last overall w = (r, w') ->
  (exists evs, log w' = evs ++ log w /\ Forall progressNotNegative evs /\
               ui w' = replay evs (ui w) /\ (blobs w <= blobs w')%nat) /\
  forall x, r = Val x -> 0 <= snd x.
Proof.
  intros Ho Hlast Hrun. unfold drawClip in Hrun.
  destruct (masterDuration st) as [d|].
  - unfold bind in Hrun.
    destruct (frames B fuel st d dims (0, last, overall) w) as [r1 w1] eqn:Hframes.
    apply frames_notNegative in Hframes; [|lra|exact Ho|exact Hlast].
    destruct Hframes as [Hevs Hval].
    destruct r1 as [locals|e|]; injection Hrun as <- <-; (split; [exact Hevs|]);
      try discriminate.
    intros x [= <-]. simpl. now apply Hval.
  - injection Hrun as <- <-. split; [exists []; repeat split; auto|].
    now intros x [= <-].
Qed.

Lemma clips_notNegative (fuel : nat) (vs : list VideoFile) :
  forall overall, 0 <= overall ->
    emits progressNotNegative (clips B fuel st vs overall).
Proof.
  induction vs as [|video rest IH]; intros overall Ho w r w' Hrun.
  - injection Hrun as <- <-. exists []. repeat split; auto.
  - rewrite clips_cons in Hrun.
    destruct (throws B (S (S (List.length (log w))))).
    { injection Hrun as <- <-. eexists [_; _; _]. repeat split; auto.
      repeat constructor. }
    destruct (loadMetadata B (objectUrl video)) as [dims|].
    2: { injection Hrun as <- <-. eexists [_; _; _]. repeat split; auto.
         repeat constructor. }
    match type of Hrun with context [drawClip B fuel st dims ?l overall ?w1] =>
      destruct (drawClip B fuel st dims l overall w1) as [r2 w2] eqn:Hdraw
    end.
    apply drawClip_notNegative in Hdraw;
      [|exact Ho|exists (clock w); split; [simpl; lia | reflexivity]].
    destruct Hdraw as [(evs2 & Hlog2 & Hevs2 & Hui2 & Hblobs2) Hval2].
    simpl in Hlog2, Hui2, Hblobs2.
    assert (Hhead : Forall progressNotNegative
                      [SizeCanvas (fst dims) (snd dims); Play; SetSrc (objectUrl video);
                       SetState (Status ("Rendering: " +++ name (file video)))])
      by (repeat constructor).
    destruct r2 as [x|e|].
    + destruct (clips B fuel st rest (snd x) w2) as [r3 w3] eqn:Hrest.
      destruct (IH (snd x) (Hval2 x eq_refl) _ _ _ Hrest)
        as (evs3 & Hlog3 & Hevs3 & Hui3 & Hblobs3).
      assert (Hw3 : w' = w3) by (destruct r3; now injection Hrun). subst w3.
      exists (evs3 ++ evs2 ++ [SizeCanvas (fst dims) (snd dims); Play;
                               SetSrc (objectUrl video);
                               SetState (Status ("Rendering: " +++ name (file video)))]).
      split; [rewrite Hlog3, Hlog2; now rewrite <- !app_assoc|].
      split; [repeat (apply Forall_app; split; auto)|].
      split; [now rewrite Hui3, Hui2, !replay_app | lia].
    + injection Hrun as <- <-.
      exists (evs2 ++ [SizeCanvas (fst dims) (snd dims); Play; SetSrc (objectUrl video);
                       SetState (Status ("Rendering: " +++ name (file video)))]).
      split; [rewrite Hlog2; now rewrite <- !app_assoc|].
      split; [repeat (apply Forall_app; split; auto)|].
      split; [now rewrite Hui2, !replay_app | lia].
    + injection Hrun as <- <-.
      exists (evs2 ++ [SizeCanvas (fst dims) (snd dims); Play; SetSrc (objectUrl video);
                       SetState (Status ("Rendering: " +++ name (file video)))]).
      split; [rewrite Hlog2; now rewrite <- !app_assoc|].
      split; [repeat (apply Forall_app; split; auto)|].
      split; [now rewrite Hui2, !replay_app | lia].
Qed.

Lemma tryBlock_notNegative (fuel : nat) :
  emits progressNotNegative (tryBlock B fuel st).
Proof.
  apply emits_tryBlock_with.
  - intros e _ He.
    destruct e as [u| | | | | | | | | | | | | | | | | | | | | | | | | | | | | | | | | |];
      try exact I.
    destruct u; try exact I. discriminate.
  - apply clips_notNegative. lra.
Qed.

End Monotonic.

End Loop.

(** ** Runs of the body of [try] that return *)

Section Completed.

Variable B : Browser.

Ltac run_step H :=
  match type of H with
  | context [throws B ?n] =>
      let E := fresh "Hthrows" in
      destruct (throws B n) eqn:E; simpl in H; [discriminate H|]
  end.

(** A body of [try] that returns normally went through the whole setup
    without a throw, ran the [for] loop to its end from there, and then
    stopped the recorder, paused the video and closed the audio context. *)
Lemma tryBlock_completed (fuel : nat) (st : AppState) (w w' : World) (es : list Q) :
  tryBlock B fuel st w = (Val (Some es), w') ->
  exists v rest dims w1,
    videos st = v :: rest /\
    isTypeSupported B (mimeTypeOf (outputFormat st)) = true /\
    loadMetadata B (objectUrl v) = Some dims /\
    clips B fuel st (videos st) 0 (afterSetup st v dims w) = (Val es, w1) /\
    w' = record CloseAudioContext (record Pause (record RecorderStop w1)).
Proof.
  unfold tryBlock. destruct (isTypeSupported B _) eqn:Hsup; simpl; [|discriminate].
  unfold loadFirst, getContext2d, mixAudio.
  remember (clips B fuel st) as loop eqn:Hloop.
  destruct (videos st) as [|v rest] eqn:Hvs; destruct (audioFile st) as [f|] eqn:Haudio;
    unfold bind, emit, call, throw, ret; simpl; try discriminate.
  all: destruct (loadMetadata B (objectUrl v)) as [[width height]|] eqn:Hmeta; simpl;
    [|discriminate].
  all: destruct (has2d B) eqn:H2d; simpl; [|discriminate].
  all: intros Hrun; exists v, rest, (width, height).
  all: repeat run_step Hrun.
  all: match type of Hloop with ?l = _ =>
         match type of Hrun with context [l ?vs 0 ?w0] =>
           destruct (l vs 0 w0) as [[es'|e|] w1] eqn:Hclips
         end
       end; simpl in Hrun; try discriminate.
  all: run_step Hrun; injection Hrun as <- <-; exists w1.
  all: repeat split; auto.
  all: unfold afterSetup, setupEvents, combinedStream; rewrite Haudio; exact Hclips.
Qed.

(** The other way round: in a browser that throws nowhere, a body of
    [try] whose format is supported and whose first clip loads is the
    setup, then the [for] loop, then the three closing calls. *)
Lemma tryBlock_reliable (fuel : nat) (st : AppState) (w : World)
    (v : VideoFile) (rest : list VideoFile) (dims : N * N) :
  reliable B ->
  videos st = v :: rest ->
  isTypeSupported B (mimeTypeOf (outputFormat st)) = true ->
  loadMetadata B (objectUrl v) = Some dims ->
  has2d B = true ->
  tryBlock B fuel st w =
    match clips B fuel st (videos st) 0 (afterSetup st v dims w) with
    | (Val es, w1) =>
        (Val (Some es), record CloseAudioContext (record Pause (record RecorderStop w1)))
    | (Throw e, w1) => (Throw e, w1)
    | (Hang, w1) => (Hang, w1)
    end.
Proof.
  intros Hrel Hvs Hsup Hmeta H2d. unfold tryBlock. rewrite Hsup. simpl.
  unfold loadFirst, getContext2d, mixAudio, afterSetup, setupEvents, combinedStream.
  remember (clips B fuel st) as loop eqn:Hloop.
  rewrite Hvs. destruct dims as [width height].
  destruct (audioFile st) as [f|] eqn:Haudio;
    unfold bind, emit, call, throw, ret; simpl;
    rewrite Hmeta, H2d; simpl; rewrite !Hrel; simpl.
  all: match type of Hloop with ?l = _ =>
         match goal with |- context [l ?vs 0 ?w0] =>
           destruct (l vs 0 w0) as [[es|e|] w1]
         end
       end; simpl; rewrite ?Hrel; reflexivity.
Qed.

End Completed.

(** ** What the loops return *)

Lemma sources_app (l1 l2 : list event) : sources (l1 ++ l2) = sources l1 ++ sources l2.
Proof. unfold sources. now rewrite flat_map_app. Qed.

Section LoopResults.

Variable B : Browser.
Variable st : AppState.

(** A [while] loop that ends made one pass per clock reading, each with
    the calls of [frameCalls], and stopped at the first reading at which
    the elapsed time was no longer below [clipDuration].  The loop is in
    its [k]-th pass here, and [lastFrameTime] was the [c]-th clock
    reading when it started. *)
Lemma frames_drawn (fuel : nat) (d : Z) (dims : N * N) (c : nat) :
  forall k overall w locals w',
    clock w = S (c + k) ->
    frames B fuel st d dims (elapsedAfter B c k, performance_now B (c + k), overall) w
      = (Val locals, w') ->
    exists ps,
      log w' = rev (frameCalls B st dims (S (c + k)) ps) ++ log w /\
      fst (fst locals) = elapsedAfter B c (k + List.length ps) /\
      below (fst (fst locals)) (clipDuration d) = false /\
      forall j, (j < List.length ps)%nat ->
                below (elapsedAfter B c (k + j)) (clipDuration d) = true.
Proof.
  induction fuel as [|fuel IH]; intros k overall w locals w' Hclock Hrun;
    rewrite frames_unfold in Hrun; cbn [fst] in Hrun;
    destruct (below (elapsedAfter B c k) (clipDuration d)) eqn:Htest;
    try discriminate;
    try (injection Hrun as <- <-; exists []; cbn [List.length frameCalls rev app fst];
         rewrite Nat.add_0_r; repeat split; [exact Htest | intros j Hj; lia]).
  destruct (frame_run B st d dims (elapsedAfter B c k) (performance_now B (c + k)) overall w)
    as (w1 & Hframe & Hlog1 & Hclock1 & _).
  unfold bind in Hrun. rewrite Hframe in Hrun. clear Hframe.
  rewrite Hclock in Hlog1, Hclock1.
  rewrite Hclock, <- (Nat.add_succ_r c k) in Hrun.
  change (roundDouble (elapsedAfter B c k
            + roundDouble (performance_now B (c + S k) - performance_now B (c + k))))
    with (elapsedAfter B c (S k)) in Hrun.
  apply IH in Hrun; [|rewrite Hclock1; now rewrite Nat.add_succ_r].
  destruct Hrun as (ps & Hlog & Helapsed & Hend & Hbefore).
  match type of Hlog1 with
  | _ = [_; SetState (Progress ?p); _] ++ _ => exists (p :: ps)
  end.
  split; [|split; [|split]].
  - rewrite Hlog, Hlog1. cbn [frameCalls]. rewrite Nat.add_succ_r.
    rewrite !rev_app_distr. cbn [rev app]. rewrite <- !app_assoc.
    f_equal. cbn [app]. do 3 f_equal.
    destruct (masterLoop st && nearEnd B (S (S (c + k)))); reflexivity.
  - rewrite Helapsed. f_equal. cbn [List.length]. lia.
  - exact Hend.
  - intros [|j] Hj.
    + now rewrite Nat.add_0_r.
    + rewrite Nat.add_succ_r. apply (Hbefore j). cbn [List.length] in Hj. lia.
Qed.

Lemma drawClip_drawn (fuel : nat) (dims : N * N) (c : nat) (overall : Q)
    (w : World) (x : Q * Q) (w' : World) :
  clock w = S c ->
  drawClip B fuel st dims (performance_now B c) overall w = (Val x, w') ->
  exists ps,
    log w' = rev (frameCalls B st dims (S c) ps) ++ log w /\
    fst x = elapsedAfter B c (List.length ps) /\
    match masterDuration st with
    | Some d =>
        below (fst x) (clipDuration d) = false /\
        forall j, (j < List.length ps)%nat ->
                  below (elapsedAfter B c j) (clipDuration d) = true
    | None => ps = []
    end.
Proof.
  intros Hclock. unfold drawClip. destruct (masterDuration st) as [d|].
  - unfold bind.
    destruct (frames B fuel st d dims (0, performance_now B c, overall) w)
      as [[locals|e|] w1] eqn:Hframes; try discriminate.
    intros [= <- <-].
    destruct (frames_drawn fuel d dims c 0 overall w locals w1) as (ps & H).
    + now rewrite Nat.add_0_r.
    + rewrite Nat.add_0_r. exact Hframes.
    + rewrite Nat.add_0_r in H. exists ps. exact H.
  - intros [= <- <-]. exists []. repeat split.
Qed.

(** A [for] loop that ends went through the clips in the order of the
    list, each with the calls of [clipCalls]. *)
Lemma clips_drawn (fuel : nat) (vs : list VideoFile) :
  forall overall w es w',
    clips B fuel st vs overall w = (Val es, w') ->
    exists evs, log w' = rev evs ++ log w /\ drawnInOrder B st vs es evs.
Proof.
  induction vs as [|video rest IH]; intros overall w es w' Hrun.
  - injection Hrun as <- <-. exists []. split; [reflexivity | constructor].
  - rewrite clips_cons in Hrun.
    destruct (throws B (S (S (List.length (log w))))); [discriminate|].
    destruct (loadMetadata B (objectUrl video)) as [dims|] eqn:Hmeta; [|discriminate].
    match type of Hrun with context [drawClip B fuel st dims ?l overall ?w1] =>
      destruct (drawClip B fuel st dims l overall w1) as [[x|e|] w2] eqn:Hdraw
    end; try discriminate.
    apply drawClip_drawn in Hdraw; [|reflexivity].
    destruct Hdraw as (ps & Hlog2 & Helapsed & Hend). rewrite Helapsed in Hend.
    destruct (clips B fuel st rest (snd x) w2) as [[es3|e|] w3] eqn:Hrest;
      try discriminate.
    injection Hrun as <- <-.
    destruct (IH _ _ _ _ Hrest) as (evs3 & Hlog3 & Hdrawn3).
    exists (clipCalls B st video dims (clock w) ps ++ evs3).
    split.
    + rewrite Hlog3, Hlog2. unfold clipCalls, set, record, tick. cbn [log].
      rewrite !rev_app_distr. cbn [rev app]. now rewrite <- !app_assoc.
    + constructor; [|exact Hdrawn3].
      exists dims, (clock w), ps. rewrite Helapsed.
      split; [exact Hmeta|]. split; [reflexivity|]. split; [reflexivity | exact Hend].
Qed.

(** More frames than a loop took change nothing. *)
Lemma frames_more_fuel (fuel extra : nat) (d : Z) (dims : N * N) :
  forall locals w r w',
    frames B fuel st d dims locals w = (Val r, w') ->
    frames B (fuel + extra) st d dims locals w = (Val r, w').
Proof.
  induction fuel as [|fuel IH]; intros locals w r w' Hrun;
    rewrite frames_unfold in Hrun |- *;
    destruct (below (fst (fst locals)) (clipDuration d)); try exact Hrun;
    try discriminate.
  cbn [Nat.add]. unfold bind in *.
  destruct (frame B st d dims locals w) as [[locals1|e|] w1]; try discriminate.
  now apply IH.
Qed.

Lemma clips_more_fuel (fuel fuel' : nat) (vs : list VideoFile) :
  (fuel <= fuel')%nat ->
  forall overall w es w',
    clips B fuel st vs overall w = (Val es, w') ->
    clips B fuel' st vs overall w = (Val es, w').
Proof.
  intros Hfuel. induction vs as [|video rest IH]; intros overall w es w' Hrun;
    [exact Hrun|].
  rewrite clips_cons in Hrun |- *.
  destruct (throws B (S (S (List.length (log w))))); [discriminate|].
  destruct (loadMetadata B (objectUrl video)) as [dims|]; [|discriminate].
  match type of Hrun with context [drawClip B fuel st dims ?l overall ?w1] =>
    destruct (drawClip B fuel st dims l overall w1) as [[x|e|] w2] eqn:Hdraw;
    try discriminate;
    assert (Hdraw' : drawClip B fuel' st dims l overall w1 = (Val x, w2))
  end.
  { unfold drawClip in *. destruct (masterDuration st) as [d|]; [|exact Hdraw].
    unfold bind in *.
    match type of Hdraw with context [frames B fuel st d dims ?l ?w1] =>
      destruct (frames B fuel st d dims l w1) as [[locals|e|] w3] eqn:Hframes
    end; try discriminate.
    apply (frames_more_fuel fuel (fuel' - fuel)) in Hframes.
    replace (fuel + (fuel' - fuel))%nat with fuel' in Hframes by lia.
    now rewrite Hframes. }
  rewrite Hdraw'.
  destruct (clips B fuel st rest (snd x) w2) as [[es3|e|] w3] eqn:Hrest;
    try discriminate.
  now rewrite (IH _ _ _ _ Hrest).
Qed.

(** A [while] loop ends when the elapsed time reaches [clipDuration]
    within the passes allowed. *)
Lemma frames_terminates (d : Z) (dims : N * N) (c j : nat) :
  below (elapsedAfter B c j) (clipDuration d) = false ->
  forall fuel k overall w,
    (k <= j)%nat -> (j <= k + fuel)%nat -> clock w = S (c + k) ->
    exists locals w',
      frames B fuel st d dims (elapsedAfter B c k, performance_now B (c + k), overall) w
        = (Val locals, w').
Proof.
  intros Hend. induction fuel as [|fuel IH]; intros k overall w Hk Hj Hclock;
    rewrite frames_unfold; cbn [fst];
    destruct (below (elapsedAfter B c k) (clipDuration d)) eqn:Htest;
    try (now eexists _, _).
  - exfalso. replace k with j in Htest by lia. congruence.
  - assert (k <> j) by (intros ->; congruence).
    destruct (frame_run B st d dims (elapsedAfter B c k) (performance_now B (c + k))
                overall w) as (w1 & Hframe & _ & Hclock1 & _).
    unfold bind. rewrite Hframe. rewrite Hclock, <- (Nat.add_succ_r c k).
    change (roundDouble (elapsedAfter B c k
              + roundDouble (performance_now B (c + S k) - performance_now B (c + k))))
      with (elapsedAfter B c (S k)).
    apply IH; [lia | lia |]. rewrite Hclock1, Hclock. now rewrite Nat.add_succ_r.
Qed.

Lemma clips_terminates (vs : list VideoFile) :
  reliable B ->
  advances B st ->
  (forall v, In v vs -> loadMetadata B (objectUrl v) <> None) ->
  forall overall w, exists fuel es w', clips B fuel st vs overall w = (Val es, w').
Proof.
  intros Hrel Hadv. induction vs as [|video rest IH]; intros Hmeta overall w.
  - now exists 0%nat, [], w.
  - destruct (loadMetadata B (objectUrl video)) as [dims|] eqn:Hvideo;
      [|now destruct (Hmeta video (or_introl eq_refl))].
    set (w1 := tick (record (SizeCanvas (fst dims) (snd dims))
                  (record Play (record (SetSrc (objectUrl video))
                     (snd (set (Status ("Rendering: " +++ name (file video))) w)))))).
    assert (Hdraw : exists fuel x w2,
               drawClip B fuel st dims (performance_now B (clock w)) overall w1
               = (Val x, w2)).
    { unfold drawClip. destruct (masterDuration st) as [d|] eqn:Hd;
        [|now exists 0%nat, (0, overall), w1].
      destruct (Hadv d Hd (clock w)) as (j & Hj).
      destruct (frames_terminates d dims (clock w) j Hj j 0 overall w1)
        as (locals & w2 & Hframes); [lia | lia | simpl; lia |].
      rewrite Nat.add_0_r in Hframes. cbn [elapsedAfter] in Hframes.
      exists j, (fst (fst locals), snd locals), w2. unfold bind. now rewrite Hframes. }
    destruct Hdraw as (fuel1 & x & w2 & Hdraw).
    destruct (IH (fun v Hv => Hmeta v (or_intror Hv)) (snd x) w2) as (fuel2 & es & w3 & Hrest).
    exists (Nat.max fuel1 fuel2), (fst x :: es), w3.
    apply (clips_more_fuel fuel2 (Nat.max fuel1 fuel2)) in Hrest; [|apply Nat.le_max_r].
    assert (Hdraw' : drawClip B (Nat.max fuel1 fuel2) st dims
                       (performance_now B (clock w)) overall w1 = (Val x, w2)).
    { unfold drawClip in *. destruct (masterDuration st) as [d|]; [|exact Hdraw].
      unfold bind in *.
      match type of Hdraw with context [frames B fuel1 st d dims ?l ?w0] =>
        destruct (frames B fuel1 st d dims l w0) as [[locals|e|] w4] eqn:Hframes
      end; try discriminate.
      apply (frames_more_fuel fuel1 (Nat.max fuel1 fuel2 - fuel1)) in Hframes.
      replace (fuel1 + (Nat.max fuel1 fuel2 - fuel1))%nat with (Nat.max fuel1 fuel2)
        in Hframes by lia.
      now rewrite Hframes. }
    rewrite clips_cons, Hrel, Hvideo. fold w1. now rewrite Hdraw', Hrest.
Qed.

End LoopResults.

(** The sources assigned in a [for] loop that ended are those of the
    clips, in order, and there is one elapsed time per clip. *)
Lemma sources_frameCalls (B : Browser) (st : AppState) (dims : N * N) (ps : list Q) :
  forall c, sources (frameCalls B st dims c ps) = [].
Proof.
  induction ps as [|p ps IH]; intros c; [reflexivity|].
  cbn [frameCalls]. rewrite !sources_app, IH.
  destruct (masterLoop st && nearEnd B (S c)); reflexivity.
Qed.

Lemma drawnInOrder_sources (B : Browser) (st : AppState) (vs : list VideoFile)
    (es : list Q) (evs : list event) :
  drawnInOrder B st vs es evs ->
  sources evs = map objectUrl vs /\ List.length es = List.length vs.
Proof.
  induction 1 as [|video elapsed calls vs es rest Hclip _ [IH1 IH2]]; [now split|].
  destruct Hclip as (dims & c & ps & _ & -> & _).
  unfold clipCalls. rewrite !sources_app, sources_frameCalls, IH1.
  split; [reflexivity | simpl; now rewrite IH2].
Qed.

(** ** The handler as a whole *)

Lemma startRender_run (w : World) :
  log (snd (startRender w)) = rev startEvents ++ log w /\
  ui (snd (startRender w)) = replay (rev startEvents) (ui w) /\
  blobs (snd (startRender w)) = blobs w /\
  clock (snd (startRender w)) = clock w.
Proof. repeat split. Qed.

Lemma onstop_run (mime : string) (w : World) :
  let url := "blob:" +++ string_of_nat (blobs w) in
  log (snd (onstop mime w)) = rev (onstopEvents mime url) ++ log w /\
  ui (snd (onstop mime w)) = replay (rev (onstopEvents mime url)) (ui w).
Proof. split; reflexivity. Qed.

Lemma catchRender_run (e : exn) (w : World) :
  log (snd (catchRender e w)) = rev (catchEvents e) ++ log w /\
  ui (snd (catchRender e w)) = replay (rev (catchEvents e)) (ui w).
Proof. split; reflexivity. Qed.

Lemma emits_and_if {A} (H : Prop) (P R : event -> Prop) (m : M A) :
  emits P m -> (H -> emits R m) -> emits (fun e => P e /\ (H -> R e)) m.
Proof.
  intros HP HR w r w' Hrun.
  destruct (HP _ _ _ Hrun) as (evs & Hlog & Hevs & Hrest).
  exists evs. split; [exact Hlog|]. split; [|exact Hrest].
  apply Forall_forall. intros e He. split.
  - revert e He. now apply Forall_forall.
  - intros h. destruct (HR h _ _ _ Hrun) as (evs' & Hlog' & Hevs' & _).
    rewrite Hlog in Hlog'. apply app_inv_tail in Hlog'. subst evs'.
    revert e He. now apply Forall_forall.
Qed.

Section Handler.

Variable B : Browser.
Variable fuel : nat.
Variable P : AppState -> event -> Prop.
Hypothesis Hother : forall st e, handlerEvent e -> P st e.
Hypothesis Htry : forall st, emits (P st) (tryBlock B fuel st).

(** Whatever the outcome, the calls of [handleRenderVideo] are the alert
    alone, or the four setters, the calls of the body of [try], and the
    calls of [onstop] or of the [catch] clause. *)
Lemma handleRenderVideo_emits (w : World) :
  let w' := snd (handleRenderVideo B fuel w) in
  exists evs,
    log w' = evs ++ log w /\ Forall (P (ui w)) evs /\ ui w' = replay evs (ui w) /\
    (videos (ui w) <> [] -> exists evs', evs = evs' ++ rev startEvents).
Proof.
  intros w'. subst w'. destruct (videos (ui w)) as [|v rest] eqn:Hvs.
  - unfold handleRenderVideo. rewrite Hvs. simpl.
    exists [Alert "Please upload videos before rendering."].
    repeat split; auto.
    + repeat constructor. apply Hother. exact I.
    + intros H. now contradiction H.
  - rewrite handleRenderVideo_unfold by (rewrite Hvs; discriminate).
    destruct (tryBlock B fuel (ui w) (snd (startRender w))) as [r w1] eqn:Hrun.
    destruct (Htry _ _ _ _ Hrun) as (evs1 & Hlog1 & HP1 & Hui1 & _).
    destruct (startRender_run w) as (Hlog0 & Hui0 & _).
    rewrite Hlog0 in Hlog1. rewrite Hui0 in Hui1.
    assert (HP0 : Forall (P (ui w)) (rev startEvents)).
    { apply Forall_rev.
      repeat (apply Forall_cons; [apply Hother; exact I || reflexivity|]).
      apply Forall_nil. }
    destruct r as [[es|]|e|]; cbn [snd].
    + destruct (onstop_run (mimeTypeOf (outputFormat (ui w))) w1) as [Hlog2 Hui2].
      cbv zeta in Hlog2, Hui2.
      eexists (rev (onstopEvents _ _) ++ evs1 ++ rev startEvents).
      rewrite Hlog2, Hui2, Hlog1, Hui1, <- !app_assoc, !replay_app.
      split; [reflexivity|]. split; [|split; [reflexivity|]].
      * apply Forall_app. split; [|apply Forall_app; split; assumption].
        apply Forall_rev.
        repeat (apply Forall_cons; [apply Hother; exact I|]). apply Forall_nil.
      * intros _. eexists. apply app_assoc.
    + exists (evs1 ++ rev startEvents).
      rewrite Hlog1, Hui1, !replay_app.
      split; [now rewrite <- app_assoc|]. split; [|split; [reflexivity|]].
      * apply Forall_app; split; assumption.
      * intros _. now eexists.
    + destruct (catchRender_run e w1) as [Hlog2 Hui2].
      exists (rev (catchEvents e) ++ evs1 ++ rev startEvents).
      rewrite Hlog2, Hui2, Hlog1, Hui1, <- !app_assoc, !replay_app.
      split; [reflexivity|]. split; [|split; [reflexivity|]].
      * apply Forall_app. split; [|apply Forall_app; split; assumption].
        apply Forall_rev.
        repeat (apply Forall_cons; [apply Hother; exact I|]). apply Forall_nil.
      * intros _. eexists. apply app_assoc.
    + exists (evs1 ++ rev startEvents).
      rewrite Hlog1, Hui1, !replay_app.
      split; [now rewrite <- app_assoc|]. split; [|split; [reflexivity|]].
      * apply Forall_app; split; assumption.
      * intros _. now eexists.
Qed.

End Handler.

(** A call that completed: what it logged, from the first setter to the
    last, and what the loop returned. *)
Lemma handleRenderVideo_completed (B : Browser) (fuel : nat) (w : World) (es : list Q) :
  fst (handleRenderVideo B fuel w) = Completed es ->
  let st := ui w in
  let w' := snd (handleRenderVideo B fuel w) in
  exists v rest dims loop url,
    videos st = v :: rest /\
    isTypeSupported B (mimeTypeOf (outputFormat st)) = true /\
    loadMetadata B (objectUrl v) = Some dims /\
    since w w' = startEvents ++ setupEvents st v dims ++ loop
                 ++ [RecorderStop; Pause; CloseAudioContext]
                 ++ onstopEvents (mimeTypeOf (outputFormat st)) url /\
    outputUrl (ui w') = Some url /\
    Forall (tryEvent st) loop /\
    drawnInOrder B st (videos st) es loop.
Proof.
  intros Hout st w'. subst w'. unfold handleRenderVideo in *. fold st in Hout |- *.
  destruct (videos st) as [|v0 rest0] eqn:Hvs; [discriminate|].
  change ((List.length (v0 :: rest0) =? 0)%nat) with false in *. cbv iota in *.
  unfold bind in *. cbn [startRender] in *.
  destruct (startRender w) as [r0 w0] eqn:Hstart.
  assert (Hr0 : r0 = Val tt) by (now injection Hstart as <- _). subst r0.
  assert (Hw0 : w0 = snd (startRender w)) by now rewrite Hstart. 
  destruct (tryBlock B fuel st w0) as [[[es'|]|e|] w1] eqn:Htry; try discriminate.
  injection Hout as ->. cbn [snd].
  destruct (tryBlock_completed B fuel st w0 w1 es Htry)
    as (v & rest & dims & w2 & Hvs' & Hsup & Hmeta & Hclips & ->).
  fold st in Hvs'. rewrite Hvs in Hvs'. injection Hvs' as <- <-.
  destruct (clips_drawn B st fuel _ _ _ _ _ Hclips) as (loop & Hlog & Hdrawn).
  destruct (emits_clips B st fuel _ _ _ _ _ Hclips) as (evs' & Hlog' & Hevs & _).
  rewrite Hlog in Hlog'. apply app_inv_tail in Hlog'. subst evs'.
  exists v0, rest0, dims, loop, ("blob:" +++ string_of_nat (blobs w2)).
  rewrite <- Hvs.
  repeat split; auto.
  - erewrite since_app; [apply rev_involutive|].
    destruct (onstop_run (mimeTypeOf (outputFormat st))
                (record CloseAudioContext (record Pause (record RecorderStop w2))))
      as [-> _].
    cbn [log record blobs]. rewrite Hlog. unfold afterSetup.
    destruct (recordAll_spec (setupEvents st v0 dims) w0) as (-> & _).
    rewrite Hw0. destruct (startRender_run w) as (-> & _).
    rewrite !rev_app_distr. cbn [rev app onstopEvents].
    rewrite <- !app_assoc. reflexivity.
  - rewrite <- (rev_involutive loop). now apply Forall_rev.
Qed.


(** ** Progress *)

Lemma progressUpdates_app (l1 l2 : list event) :
  progressUpdates (l1 ++ l2) = progressUpdates l1 ++ progressUpdates l2.
Proof. unfold progressUpdates. now rewrite flat_map_app. Qed.

Lemma progressInRange_updates (B : Browser) (l : list event) :
  Forall (progressInRange B) l ->
  Forall (fun p => p <= 100 /\ (monotonic B -> 0 <= p)) (progressUpdates l).
Proof.
  induction 1 as [|e l He _ IH]; [constructor|].
  change (e :: l) with ([e] ++ l). rewrite progressUpdates_app.
  apply Forall_app. split; [|exact IH].
  destruct e as [u| | | | | | | | | | | | | | | | | | | | | | | | | | | | | | | | | |];
    try constructor.
  destruct u; constructor; auto.
Qed.

Lemma progressInRange_replay (B : Browser) (evs : list event) (s : AppState) :
  Forall (progressInRange B) evs ->
  (progress s <= 100 -> progress (replay evs s) <= 100) /\
  (monotonic B -> 0 <= progress s -> 0 <= progress (replay evs s)).
Proof.
  induction 1 as [|e evs He _ [IHhi IHlo]]; [now split|]. simpl.
  destruct e as [u| | | | | | | | | | | | | | | | | | | | | | | | | | | | | | | | | |];
    try (split; assumption).
  destruct u; try (split; assumption). simpl. destruct He as [Hhi Hlo].
  split; auto.
Qed.

Lemma tryBlock_progressInRange (B : Browser) (fuel : nat) (st : AppState) :
  emits (progressInRange B) (tryBlock B fuel st).
Proof.
  apply (emits_weaken (fun e => tryEvent st e /\ (monotonic B -> progressNotNegative e))).
  - intros e [Htry Hnn].
    destruct e as [u| | | | | | | | | | | | | | | | | | | | | | | | | | | | | | | | | |];
      try exact I.
    destruct u; try exact I. split; [exact Htry | exact Hnn].
  - apply emits_and_if; [apply emits_tryBlock|].
    intros Hmono. now apply tryBlock_notNegative.
Qed.

Lemma handleRenderVideo_progressInRange (B : Browser) (fuel : nat) (w : World) :
  let w' := snd (handleRenderVideo B fuel w) in
  exists evs,
    log w' = evs ++ log w /\ Forall (progressInRange B) evs /\
    ui w' = replay evs (ui w) /\
    (videos (ui w) <> [] -> exists evs', evs = evs' ++ rev startEvents).
Proof.
  apply (handleRenderVideo_emits B fuel (fun _ => progressInRange B)).
  - intros _ e He.
    destruct e as [u| | | | | | | | | | | | | | | | | | | | | | | | | | | | | | | | | |];
      try exact I.
    destruct u; try exact I. simpl in He. subst p. split; [|intros _]; lra.
  - intros st. apply tryBlock_progressInRange.
Qed.

(** The handlers other than [handleRenderVideo] never store a progress
    value. *)
Lemma revokeAll_ui (vs : list VideoFile) (w : World) :
  ui (snd (revokeAll vs w)) = ui w.
Proof.
  revert w. induction vs as [|v rest IH]; intros w; [reflexivity|].
  simpl. unfold bind, revokeObjectURL, emit. simpl. now rewrite IH.
Qed.

Lemma perform_progress (B : Browser) (a : action) (w : World) :
  (forall fuel, a <> RenderVideo fuel) ->
  progress (ui (perform B a w)) = progress (ui w).
Proof.
  intros Hother. destruct a as [files|f|s| |i| |d|b|f|fuel]; simpl; try reflexivity.
  - unfold handleVideoUpload. destruct files as [|f rest]; [reflexivity|].
    change (List.length (f :: rest) =? 0)%nat with false. cbv iota.
    destruct (newVideos_spec B (f :: rest) w) as (vs & w' & Hrun & _ & Hui & _).
    unfold bind at 1. rewrite Hrun. simpl. now rewrite Hui.
  - destruct f; reflexivity.
  - unfold handleGenerateMusic.
    destruct (falsy _ || notPositive _); [reflexivity|].
    unfold bind. simpl. destruct (generateContent B _); reflexivity.
  - unfold handleRemoveVideo, bind, revokeObjectURL.
    destruct (find _ (videos (ui w))); reflexivity.
  - unfold handleClearAllVideos, bind.
    destruct (revokeAll (videos (ui w)) w) as [r w1] eqn:Hrev.
    assert (Hui : ui w1 = ui w) by (rewrite <- (revokeAll_ui (videos (ui w)) w); now rewrite Hrev).
    destruct r; simpl; now rewrite Hui.
  - exfalso. now apply (Hother fuel).
Qed.

(** C8.  Every progress value [handleRenderVideo] stores is at most 100;
    the first one it stores, when there are videos, is the 0 of the
    reset; and on a clock that never goes back none is negative.  So in a
    session, started from the initial progress 0, the stored progress is
    never above 100 and, on such a clock, never below 0. *)
Theorem progress_in_range (B : Browser) (fuel : nat) (w : World) :
  let w' := snd (handleRenderVideo B fuel w) in
  Forall (fun p => p <= 100) (progressUpdates (since w w')) /\
  (videos (ui w) <> [] -> exists ps, progressUpdates (since w w') = 0 :: ps) /\
  (forall actions, progress (ui (session B actions)) <= 100) /\
  (monotonic B ->
     Forall (fun p => 0 <= p) (progressUpdates (since w w')) /\
     forall actions, 0 <= progress (ui (session B actions))).
Proof.
  intros w'. subst w'.
  destruct (handleRenderVideo_progressInRange B fuel w)
    as (evs & Hlog & Hevs & Hui & Hstart).
  rewrite (since_app _ _ _ Hlog).
  assert (Hups := progressInRange_updates B (rev evs) (Forall_rev Hevs)).
  assert (Hsession : forall actions,
             progress (ui (session B actions)) <= 100 /\
             (monotonic B -> 0 <= progress (ui (session B actions)))).
  { intros actions. unfold session.
    assert (Hinit : progress (ui initialWorld) <= 100 /\
                    (monotonic B -> 0 <= progress (ui initialWorld)))
      by (simpl; split; [|intros _]; lra).
    revert Hinit. generalize initialWorld.
    induction actions as [|a actions IH]; intros w0 Hw0; [exact Hw0|].
    simpl. apply IH.
    destruct a as [files|f|s| |i| |d|b|f|fuel0];
      try (rewrite perform_progress by discriminate; exact Hw0).
    simpl.
    destruct (handleRenderVideo_progressInRange B fuel0 w0)
      as (evs0 & _ & Hevs0 & Hui0 & _).
    rewrite Hui0.
    destruct (progressInRange_replay B evs0 (ui w0) Hevs0) as [Hhi Hlo].
    destruct Hw0 as [Hw0hi Hw0lo]. split; [now apply Hhi|].
    intros Hmono. apply Hlo; [exact Hmono | now apply Hw0lo]. }
  split; [|split; [|split]].
  - eapply Forall_impl; [|exact Hups]. now intros p [Hp _].
  - intros Hne. destruct (Hstart Hne) as (evs' & ->).
    rewrite rev_app_distr, rev_involutive. simpl. now eexists.
  - intros actions. apply Hsession.
  - intros Hmono. split.
    + eapply Forall_impl; [|exact Hups]. intros p [_ Hp]. now apply Hp.
    + intros actions. now apply Hsession.
Qed.

Lemma progress_in_range_witness :
  (exists ps,
      progressUpdates (since oneSecondClips
                         (snd (handleRenderVideo chrome 100 oneSecondClips))) = 0 :: ps) /\
  forall actions, 0 <= progress (ui (session chrome actions)).
Proof.
  destruct (progress_in_range chrome 100 oneSecondClips) as (_ & Hreset & _ & Hmono).
  split.
  - apply Hreset. vm_compute. discriminate.
  - apply Hmono. intros m n Hmn. unfold chrome, performance_now, Qle.
    cbn [Qnum Qden inject_Z]. lia.
Defined.

(** ** A render that completes *)

Lemma minted_app (l1 l2 : list event) : minted (l1 ++ l2) = minted l1 ++ minted l2.
Proof. unfold minted. now rewrite flat_map_app. Qed.

Lemma blobsMade_app (l1 l2 : list event) :
  blobsMade (l1 ++ l2) = blobsMade l1 ++ blobsMade l2.
Proof. unfold blobsMade. now rewrite flat_map_app. Qed.

Lemma setupEvents_observed (st : AppState) (v : VideoFile) (dims : N * N) :
  sources (setupEvents st v dims) = [objectUrl v] /\
  minted (setupEvents st v dims) = [] /\
  blobsMade (setupEvents st v dims) = [].
Proof.
  unfold setupEvents, audioEvents. destruct (audioFile st); repeat split.
Qed.

Lemma frame_seeks (B : Browser) (st : AppState) (d : Z) (dims : N * N)
    (locals : Q * Q * Q) (w : World) :
  In (SetCurrentTime 0) (since w (snd (frame B st d dims locals w)))
  <-> masterLoop st = true /\ nearEnd B (S (clock w)) = true.
Proof.
  destruct locals as [[elapsed last] overall].
  destruct (frame_run B st d dims elapsed last overall w) as (w1 & Hrun & Hlog & _).
  rewrite Hrun. cbn [snd]. rewrite (app_assoc [_; _; _]) in Hlog.
  rewrite (since_app _ _ _ Hlog).
  destruct (masterLoop st); destruct (nearEnd B (S (clock w))); simpl; split;
    try tauto;
    try (intros [H|[H|[H|[]]]]; discriminate);
    try (intros [H _]; discriminate); try (intros [_ H]; discriminate).
Qed.

(** With two one-second clips and a frame every 16 ms, each clip is on
    screen for 1008 ms: the loop stops at the first frame at which
    [elapsed] is no longer below 1000. *)
Lemma handleRenderVideo_overshoots :
  exists es,
    fst (handleRenderVideo chrome 100 oneSecondClips) = Completed es /\
    ~ exactlyClipDuration (ui oneSecondClips) es.
Proof.
  exists [1008; 1008]. split; [vm_compute; reflexivity|].
  intros H. specialize (H 1%Z eq_refl). inversion H as [|e l Heq _]; subst.
  vm_compute in Heq. discriminate.
Qed.

(** For a duration whose milliseconds a double holds exactly,
    [clipDuration] is that many milliseconds. *)
Lemma clipDuration_exact (d : Z) :
  (0 <= d * 1000 <= 2 ^ 53)%Z -> clipDuration d = Finite (d * 1000).
Proof.
  intros Hd. unfold clipDuration, milliseconds, multiply.
  change (Z.of_nat 1000) with 1000%Z. rewrite (Z.mul_comm 1000 d).
  assert (Hexact := roundDouble_exact (d * 1000) 0 Hd ltac:(lia)).
  assert (Hsame : inject_Z (d * 1000) == inject_Z (d * 1000) * pow2 0).
  { change (pow2 0) with 1. ring. }
  assert (Hround : roundDouble (inject_Z (d * 1000)) == inject_Z (d * 1000)).
  { rewrite (roundDouble_comp _ _ (inject_Z_nonneg _ (proj1 Hd)) Hsame), Hexact.
    now symmetry. }
  rewrite (Qfloor_comp _ _ Hround), Qfloor_Z.
  destruct (2 ^ 1024 <=? Z.abs (d * 1000))%Z eqn:Hbig; [|reflexivity].
  apply Z.leb_le in Hbig.
  assert (2 ^ 53 < 2 ^ 1024)%Z by (apply Z.pow_lt_mono_r; lia). lia.
Qed.

(** C1, as the code has it.  A call of [handleRenderVideo] that completes
    has made the calls of the setup, then those of the [for] loop, then
    stopped the recorder, and [onstop] has made one blob, whose object URL
    is the only one minted and ends up in [outputUrl].  The [for] loop has
    gone through the clips in list order ([drawnInOrder]): for each clip
    it has set the status, assigned the clip to the off-screen video,
    played it, and then drawn one frame per clock reading, up to and
    including the first reading at which the elapsed time was no longer
    below [masterDuration * 1000] milliseconds, and no further: a clip is
    on screen for [masterDuration] seconds and the part of one frame
    interval it takes to notice.  A frame takes the clip back to time 0
    first exactly when [masterLoop] is set and the playhead is within a
    tenth of a second of the end.  The call does complete when the format
    is supported, every clip loads, the canvas has a 2d context, no
    browser call throws and the clock advances far enough for every
    clip. *)
Theorem handleRenderVideo_renders_in_order (B : Browser) (w : World) :
  let st := ui w in
  videos st <> [] ->
  (forall fuel es,
      fst (handleRenderVideo B fuel w) = Completed es ->
      let w' := snd (handleRenderVideo B fuel w) in
      exists v rest dims loop url,
        videos st = v :: rest /\
        loadMetadata B (objectUrl v) = Some dims /\
        since w w' = startEvents ++ setupEvents st v dims ++ loop
                     ++ [RecorderStop; Pause; CloseAudioContext]
                     ++ onstopEvents (mimeTypeOf (outputFormat st)) url /\
        drawnInOrder B st (videos st) es loop /\
        sources loop = map objectUrl (videos st) /\
        blobsMade (since w w') = [mimeTypeOf (outputFormat st)] /\
        minted (since w w') = [url] /\
        outputUrl (ui w') = Some url) /\
  (isTypeSupported B (mimeTypeOf (outputFormat st)) = true ->
   (forall v, In v (videos st) -> loadMetadata B (objectUrl v) <> None) ->
   has2d B = true ->
   reliable B ->
   advances B st ->
   exists fuel es, fst (handleRenderVideo B fuel w) = Completed es).
Proof.
  intros st Hne. split.
  - intros fuel es Hout w'. subst w'.
    destruct (handleRenderVideo_completed B fuel w es Hout)
      as (v & rest & dims & loop & url & Hvs & _ & Hmeta & Hsince & Hurl & Hloop & Hdrawn).
    fold st in Hvs, Hsince, Hloop, Hdrawn.
    destruct (setupEvents_observed st v dims) as (_ & Hs2 & Hs3).
    destruct (tryEvent_no_export st loop Hloop) as [Hm Hb].
    exists v, rest, dims, loop, url. rewrite Hsince.
    split; [exact Hvs|]. split; [exact Hmeta|]. split; [reflexivity|].
    split; [exact Hdrawn|].
    split; [exact (proj1 (drawnInOrder_sources B st _ _ _ Hdrawn))|].
    split; [|split; [|exact Hurl]].
    + rewrite !blobsMade_app, Hs3, Hb. reflexivity.
    + rewrite !minted_app, Hs2, Hm. reflexivity.
  - intros Hsup Hmeta H2d Hrel Hadv.
    assert (Hfirst : exists v rest dims,
               videos st = v :: rest /\ loadMetadata B (objectUrl v) = Some dims).
    { destruct (videos st) as [|v rest]; [now contradiction Hne|].
      destruct (loadMetadata B (objectUrl v)) as [dims|] eqn:Hv;
        [now exists v, rest, dims|now destruct (Hmeta v (or_introl eq_refl))]. }
    destruct Hfirst as (v & rest & dims & Hvs & Hv).
    destruct (clips_terminates B st (videos st) Hrel Hadv Hmeta 0
                (afterSetup st v dims (snd (startRender w)))) as (fuel & es & w1 & Hclips).
    exists fuel, es.
    rewrite (handleRenderVideo_unfold B fuel w Hne).
    rewrite (tryBlock_reliable B fuel st _ v rest dims Hrel Hvs Hsup Hv H2d).
    now rewrite Hclips.
Qed.

(** The clock of [chrome] gives a reading every 16 ms: the elapsed time
    after [j] passes is 16 ms added up [j] times. *)
Lemma chrome_elapsed (j c : nat) :
  elapsedAfter chrome c j = Nat.iter j (fun q => roundDouble (q + 16)) 0.
Proof.
  induction j as [|j IH]; [reflexivity|].
  cbn [elapsedAfter Nat.iter]. rewrite IH.
  assert (Hdelta : performance_now chrome (c + S j) - performance_now chrome (c + j) = 16).
  { cbn [performance_now chrome]. unfold Qminus, Qplus, Qopp, inject_Z.
    cbn [Qnum Qden Pos.mul]. f_equal. lia. }
  rewrite Hdelta. reflexivity.
Qed.

Lemma handleRenderVideo_renders_in_order_witness :
  (exists loop url,
      drawnInOrder chrome (ui oneSecondClips) (videos (ui oneSecondClips))
        [1008; 1008] loop /\
      sources loop = ["blob:0"; "blob:1"] /\
      minted (since oneSecondClips (snd (handleRenderVideo chrome 100 oneSecondClips)))
      = [url]) /\
  exists fuel es, fst (handleRenderVideo chrome fuel oneSecondClips) = Completed es.
Proof.
  destruct (handleRenderVideo_renders_in_order chrome oneSecondClips) as (Hdone & Htotal).
  - vm_compute. discriminate.
  - split.
    + destruct (Hdone 100%nat [1008; 1008])
        as (v & rest & dims & loop & url & _ & _ & _ & Hdrawn & Hsources & _ & Hminted & _).
      * vm_compute. reflexivity.
      * exists loop, url. split; [exact Hdrawn|]. split; [exact Hsources | exact Hminted].
    + apply Htotal.
      * reflexivity.
      * intros v _. discriminate.
      * reflexivity.
      * intros n. reflexivity.
      * intros d Hd c. exists 63%nat. rewrite chrome_elapsed.
        vm_compute in Hd. injection Hd as <-. vm_compute. reflexivity.
Defined.

(** * Further properties of the component *)

(** ** handleClearAllVideos *)

Lemma revoked_app (l1 l2 : list event) : revoked (l1 ++ l2) = revoked l1 ++ revoked l2.
Proof. unfold revoked. now rewrite flat_map_app. Qed.

Lemma revokeAll_run (vs : list VideoFile) (w : World) :
  exists w',
    revokeAll vs w = (Val tt, w') /\
    log w' = rev (map (fun v => RevokeObjectURL (objectUrl v)) vs) ++ log w /\
    ui w' = ui w /\ blobs w' = blobs w /\ clock w' = clock w.
Proof.
  revert w. induction vs as [|v rest IH]; intros w.
  - exists w. now repeat split.
  - cbn [revokeAll]. unfold bind, revokeObjectURL, emit.
    destruct (IH (record (RevokeObjectURL (objectUrl v)) w))
      as (w' & Hrun & Hlog & Hui & Hblobs & Hclock).
    exists w'. rewrite Hrun. split; [reflexivity|].
    rewrite Hlog, Hui, Hblobs, Hclock. simpl. rewrite <- app_assoc. now repeat split.
Qed.

Lemma revoked_revokes (urls : list string) :
  revoked (map RevokeObjectURL urls) = urls.
Proof.
  induction urls as [|u urls IH]; [reflexivity|].
  unfold revoked in *. simpl. now rewrite IH.
Qed.

(** X1.  Clear All revokes the object URL of every listed video, once
    each and in list order, empties the list and sets the status;
    nothing else changes. *)
Theorem handleClearAllVideos_revokes_all (w : World) :
  let w' := snd (handleClearAllVideos w) in
  fst (handleClearAllVideos w) = Val tt /\
  revoked (since w w') = map objectUrl (videos (ui w)) /\
  minted (since w w') = [] /\
  ui w' = apply (Status "All videos cleared.") (apply (Videos []) (ui w)).
Proof.
  unfold handleClearAllVideos, bind.
  destruct (revokeAll_run (videos (ui w)) w) as (w1 & Hrun & Hlog & Hui & _).
  rewrite Hrun. cbn [fst snd set]. split; [reflexivity|].
  rewrite (since_app w _
             ([SetState (Status "All videos cleared."); SetState (Videos [])]
              ++ rev (map (fun v => RevokeObjectURL (objectUrl v)) (videos (ui w)))))
    by (cbn [log]; rewrite Hlog; reflexivity).
  rewrite rev_app_distr, rev_involutive. cbn [ui]. rewrite Hui.
  rewrite <- (map_map objectUrl RevokeObjectURL).
  split; [|split; [|reflexivity]].
  - rewrite revoked_app, revoked_revokes. simpl. now rewrite app_nil_r.
  - rewrite minted_app. unfold minted at 2. simpl. rewrite app_nil_r.
    induction (map objectUrl (videos (ui w))) as [|u l IH]; [reflexivity|exact IH].
Qed.

(** ** handleRemoveVideo, again *)

(** X2.  After [handleRemoveVideo] no listed video carries the id, and
    the list has not grown; removing the same id once more changes
    nothing in the list and revokes nothing. *)
Theorem handleRemoveVideo_idempotent (i : string) (w : World) :
  let w1 := snd (handleRemoveVideo i w) in
  let w2 := snd (handleRemoveVideo i w1) in
  (forall v, In v (videos (ui w1)) -> id v <> i) /\
  (List.length (videos (ui w1)) <= List.length (videos (ui w)))%nat /\
  videos (ui w2) = videos (ui w1) /\
  revoked (since w1 w2) = [].
Proof.
  intros w1 w2.
  destruct (handleRemoveVideo_run i w) as [Hvs1 _]. fold w1 in Hvs1.
  destruct (handleRemoveVideo_run i w1) as [Hvs2 Hrev2]. fold w2 in Hvs2, Hrev2.
  assert (Hgone : forall v, In v (videos (ui w1)) -> id v <> i).
  { intros v Hin. rewrite Hvs1 in Hin. apply filter_In in Hin. destruct Hin as [_ Hid].
    unfold hasId in Hid. destruct (String.eqb_spec (id v) i); [discriminate | assumption]. }
  split; [exact Hgone|]. split; [rewrite Hvs1; apply filter_length_le|].
  rewrite Hvs2, Hrev2, (find_none_others i _ Hgone).
  split; [now apply filter_others | reflexivity].
Qed.

(** ** Upload and removal together *)

(** X3.  A file uploaded on its own and then removed by its id leaves
    the list as it was before the upload, and the URL revoked by the
    removal is the one the upload minted.  The id must not be carried by
    an entry already listed. *)
Theorem upload_then_remove (B : Browser) (f : File) (w : World) :
  let i := name f +++ "-" +++ string_of_Z (Date_now B (clock w)) in
  let w1 := snd (handleVideoUpload B [f] w) in
  let w2 := snd (handleRemoveVideo i w1) in
  (forall v, In v (videos (ui w)) -> id v <> i) ->
  videos (ui w1)
    = videos (ui w) ++ [{| id := i; file := f; objectUrl := blobUrl (blobs w) |}] /\
  minted (since w w1) = [blobUrl (blobs w)] /\
  videos (ui w2) = videos (ui w) /\
  revoked (since w1 w2) = [blobUrl (blobs w)].
Proof.
  intros i w1 w2 Hfresh.
  assert (Hvs1 : videos (ui w1)
                 = videos (ui w) ++ [{| id := i; file := f; objectUrl := blobUrl (blobs w) |}])
    by reflexivity.
  assert (Hlog1 : log w1
                  = [SetState (Status (string_of_nat 1
                                       +++ " video(s) added. Adjust master settings and render."));
                     SetState (Videos (videos (ui w1)));
                     CreateObjectURL (blobUrl (blobs w))] ++ log w) by reflexivity.
  destruct (handleRemoveVideo_run i w1) as [Hvs2 Hrev2]. fold w2 in Hvs2, Hrev2.
  split; [exact Hvs1|]. split; [now rewrite (since_app _ _ _ Hlog1)|].
  rewrite Hvs2, Hrev2, Hvs1.
  rewrite (find_unique i (videos (ui w)) []
             {| id := i; file := f; objectUrl := blobUrl (blobs w) |} eq_refl)
    by (intros x Hx; rewrite app_nil_r in Hx; now apply Hfresh).
  split; [|reflexivity].
  rewrite filter_app. simpl. unfold hasId at 2. simpl. rewrite String.eqb_refl. simpl.
  rewrite app_nil_r. now apply filter_others.
Qed.

Lemma upload_then_remove_witness :
  videos (ui (snd (handleRemoveVideo "outro.mp4-1700000000000"
                     (snd (handleVideoUpload chrome [outro] afterSameName)))))
    = videos (ui afterSameName).
Proof.
  destruct (upload_then_remove chrome outro afterSameName) as (_ & _ & Hback & _).
  - intros v [<-|[<-|[]]]; vm_compute; discriminate.
  - exact Hback.
Defined.

(** ** Every run of the body of [try] *)

Lemma ext_nil (P : event -> Prop) (l0 : list event) :
  exists evs, l0 = evs ++ l0 /\ Forall P evs.
Proof. now exists []. Qed.

Lemma ext_cons (P : event -> Prop) (e : event) (l0 l : list event) :
  P e ->
  (exists evs, l = evs ++ l0 /\ Forall P evs) ->
  exists evs, e :: l = evs ++ l0 /\ Forall P evs.
Proof.
  intros He (evs & -> & Hevs). exists (e :: evs). split; [reflexivity | now constructor].
Qed.

Ltac ext := repeat (apply ext_cons; [exact I|]); apply ext_nil.

(** Finds how many calls of the setup were made. *)
Ltac made k :=
  exists k; split; [reflexivity | first [left; assumption | right; simpl; lia]].

Ltac made_some :=
  first [ made 0%nat | made 1%nat | made 2%nat | made 3%nat | made 4%nat
        | made 5%nat | made 6%nat | made 7%nat | made 8%nat | made 9%nat
        | made 10%nat | made 11%nat | made 12%nat | made 13%nat | made 14%nat
        | made 15%nat | made 16%nat | made 17%nat | made 18%nat | made 19%nat ].

Section LoopEvents.

Variable B : Browser.
Variable st : AppState.

Lemma loop_frame (d : Z) (dims : N * N) (locals : Q * Q * Q) :
  emits loopEvent (frame B st d dims locals).
Proof.
  destruct locals as [[elapsed last] overall]. unfold frame.
  apply emits_bind; [auto with emits | intros now].
  apply emits_bind; [destruct (masterLoop st); auto with emits | intros seek].
  apply emits_bind; [destruct seek; emits_auto | intros _].
  emits_auto.
Qed.

Lemma loop_frames (fuel : nat) (d : Z) (dims : N * N) (locals : Q * Q * Q) :
  emits loopEvent (frames B fuel st d dims locals).
Proof.
  revert locals. induction fuel as [|fuel IH]; intros locals; rewrite frames_unfold;
    destruct (below _ _); auto with emits.
  apply emits_bind; [apply loop_frame | intros locals'; apply IH].
Qed.

Lemma loop_drawClip (fuel : nat) (dims : N * N) (last overall : Q) :
  emits loopEvent (drawClip B fuel st dims last overall).
Proof.
  unfold drawClip. destruct (masterDuration st); auto with emits.
  apply emits_bind; [apply loop_frames | intros; auto with emits].
Qed.

Lemma loop_playClip (video : VideoFile) : emits loopEvent (playClip B video).
Proof.
  unfold playClip. destruct (loadMetadata B (objectUrl video)) as [[width height]|];
    emits_auto.
Qed.

Lemma loop_clips (fuel : nat) (vs : list VideoFile) (overall : Q) :
  emits loopEvent (clips B fuel st vs overall).
Proof.
  revert overall. induction vs as [|video rest IH]; intros overall; cbn [clips];
    auto with emits.
  apply emits_bind; [emits_auto | intros _].
  apply emits_bind; [apply loop_playClip | intros dims].
  emits_auto. apply loop_drawClip.
Qed.

(** How the body of [try] runs when the format is supported: it throws
    during the setup, having made the first of the calls of the setup; or
    it reaches the [for] loop in the world the whole setup leaves; then it
    hangs or throws with the loop, or the loop returns and
    [recorder.stop()] throws, or it goes through the three closing calls
    and returns. *)
Lemma tryBlock_run (fuel : nat) (w : World) (r : res (option (list Q))) (w1 : World) :
  isTypeSupported B (mimeTypeOf (outputFormat st)) = true ->
  tryBlock B fuel st w = (r, w1) ->
  (exists e, r = Throw e /\ ui w1 = ui w /\
             (exists evs, log w1 = evs ++ log w /\ Forall setupCall evs) /\
             forall v rest, videos st = v :: rest ->
               exists dims k,
                 log w1 = rev (firstn k (setupEvents st v dims)) ++ log w /\
                 (loadMetadata B (objectUrl v) = Some dims \/ (k <= 5)%nat)) \/
  (exists v rest dims r2 w2,
      videos st = v :: rest /\
      loadMetadata B (objectUrl v) = Some dims /\
      clips B fuel st (videos st) 0 (afterSetup st v dims w) = (r2, w2) /\
      match r2 with
      | Val es =>
          (r = Val (Some es) /\
           w1 = record CloseAudioContext (record Pause (record RecorderStop w2))) \/
          (exists x, r = Throw x /\ w1 = record RecorderStop w2)
      | Throw e => r = Throw e /\ w1 = w2
      | Hang => r = Hang /\ w1 = w2
      end).
Proof.
  intros Hsup. unfold tryBlock. rewrite Hsup. cbn [negb].
  unfold loadFirst, getContext2d, mixAudio, afterSetup, setupEvents, combinedStream.
  remember (clips B fuel st) as loop eqn:Hloop.
  destruct (videos st) as [|v rest] eqn:Hvs; destruct (audioFile st) as [f|] eqn:Haudio;
    unfold bind, emit, call, throw, ret; simpl.
  1, 2: intros [= <- <-]; left; eexists; split; [reflexivity|];
    split; [reflexivity|]; split; [simpl; ext | discriminate].
  all: destruct (loadMetadata B (objectUrl v)) as [[width height]|] eqn:Hmeta; simpl;
    [|intros [= <- <-]; left; eexists; split; [reflexivity|];
      split; [reflexivity|]; split; [simpl; ext|];
      intros v' rest' [= <- <-]; exists (0, 0)%N; made_some].
  all: destruct (has2d B) eqn:H2d; simpl;
    [|intros [= <- <-]; left; eexists; split; [reflexivity|];
      split; [reflexivity|]; split; [simpl; ext|];
      intros v' rest' [= <- <-]; exists (width, height); made_some].
  all: repeat match goal with
         | |- context [throws B ?n] =>
             destruct (throws B n); simpl;
             [intros [= <- <-]; left; eexists; split; [reflexivity|];
              split; [reflexivity|]; split; [simpl; ext|];
              intros v' rest' [= <- <-]; exists (width, height); made_some|]
         end.
  all: intros Hrun; right; exists v, rest, (width, height).
  all: match type of Hloop with ?l = _ =>
         match type of Hrun with context [l ?vs 0 ?w0] =>
           destruct (l vs 0 w0) as [[es|e|] w2] eqn:Hclips
         end
       end; simpl in Hrun.
  all: eexists _, w2; (split; [reflexivity|]); (split; [exact Hmeta|]);
    (split; [simpl; exact Hclips|]).
  all: try (injection Hrun as <- <-; now split).
  all: destruct (throws B (List.length (log w2))); simpl in Hrun;
    injection Hrun as <- <-; [right; now eexists | left; now split].
Qed.

End LoopEvents.

(** ** Every call of handleRenderVideo *)

Lemma since_rev (w w' : World) (l : list event) :
  log w' = rev l ++ log w -> since w w' = l.
Proof. intros H. rewrite (since_app _ _ _ H). apply rev_involutive. Qed.

Lemma setupEvents_setupCall (st : AppState) (v : VideoFile) (dims : N * N) :
  Forall setupCall (setupEvents st v dims).
Proof.
  unfold setupEvents, audioEvents. destruct (audioFile st); repeat constructor.
Qed.

Section RenderCases.

Variable B : Browser.
Variable fuel : nat.
Variable w : World.
Hypothesis Hvideos : videos (ui w) <> [].

(** The outcome follows the result of the body of [try]. *)
Lemma handleRenderVideo_cases :
  exists r w1,
    tryBlock B fuel (ui w) (snd (startRender w)) = (r, w1) /\
    match r with
    | Val None =>
        handleRenderVideo B fuel w = (Unsupported, w1)
    | Val (Some es) =>
        handleRenderVideo B fuel w
          = (Completed es, snd (onstop (mimeTypeOf (outputFormat (ui w))) w1))
    | Throw e =>
        handleRenderVideo B fuel w = (Aborted e, snd (catchRender e w1))
    | Hang =>
        handleRenderVideo B fuel w = (Pending, w1)
    end.
Proof.
  rewrite (handleRenderVideo_unfold B fuel w Hvideos).
  destruct (tryBlock B fuel (ui w) (snd (startRender w))) as [[[es|]|e|] w1];
    eexists _, w1; (split; [reflexivity|]); reflexivity.
Qed.

(** The calls of a render whose format is supported, oldest first: the
    four setters, calls of the setup, calls of the [for] loop, up to three
    closing calls, and the calls of [onstop] or of [catch]. *)
Lemma handleRenderVideo_supported :
  isTypeSupported B (mimeTypeOf (outputFormat (ui w))) = true ->
  let st := ui w in
  let o := fst (handleRenderVideo B fuel w) in
  let w' := snd (handleRenderVideo B fuel w) in
  exists pre loop post url,
    since w w' = startEvents ++ pre ++ loop ++ post ++ renderTail st o url /\
    Forall setupCall pre /\
    ((loop = [] /\ exists e, o = Aborted e) \/
     exists dims w0 r2 w2,
       clips B fuel st (videos st) 0 w0 = (r2, w2) /\
       log w2 = rev loop ++ log w0 /\
       (o = Pending -> r2 = Hang) /\
       (forall es, o = Completed es -> r2 = Val es) /\
       (exists v rest, videos st = v :: rest /\ loadMetadata B (objectUrl v) = Some dims)) /\
    Forall loopEvent loop /\
    match o with
    | Completed _ => post = [RecorderStop; Pause; CloseAudioContext]
    | Aborted _ => post = [] \/ post = [RecorderStop]
    | Pending => post = [] /\ loop <> []
    | _ => False
    end.
Proof.
  intros Hsup st o w'. subst o w'.
  destruct handleRenderVideo_cases as (r & w1 & Htry & Hout).
  destruct (startRender_run w) as (Hlog0 & _).
  destruct (tryBlock_run B (ui w) fuel _ _ _ Hsup Htry)
    as [(e & -> & _ & (evs & Hlog1 & Hevs) & _)
       |(v & rest & dims & r2 & w2 & Hvs & Hmeta & Hclips & Hr2)].
  - rewrite Hout. cbn [fst snd renderTail].
    exists (rev evs), [], [], "". split; [|split; [now apply Forall_rev|]].
    + apply since_rev. destruct (catchRender_run e w1) as [-> _].
      rewrite Hlog1, Hlog0, !rev_app_distr, rev_involutive. cbn [rev app].
      now rewrite <- !app_assoc.
    + split; [left; split; [reflexivity | now exists e]|].
      split; [constructor | now left].
  - destruct (loop_clips B (ui w) fuel _ _ _ _ _ Hclips) as (evs2 & Hlog2 & Hevs2 & _).
    destruct (recordAll_spec (setupEvents (ui w) v dims) (snd (startRender w)))
      as (Hlogs & _).
    fold (afterSetup (ui w) v dims (snd (startRender w))) in Hlogs.
    assert (Hloop : exists dims w0 r2' w2',
               (exists v rest, videos st = v :: rest /\
                               loadMetadata B (objectUrl v) = Some dims) /\
               clips B fuel st (videos st) 0 w0 = (r2', w2') /\
               log w2' = rev (rev evs2) ++ log w0 /\ r2' = r2 /\ w2' = w2).
    { exists dims, (afterSetup (ui w) v dims (snd (startRender w))), r2, w2.
      rewrite rev_involutive. split; [now exists v, rest | now repeat split]. }
    destruct r2 as [es|e|].
    + destruct Hr2 as [[-> ->] | (x & -> & ->)]; rewrite Hout; cbn [fst snd renderTail].
      * exists (setupEvents (ui w) v dims), (rev evs2),
          [RecorderStop; Pause; CloseAudioContext],
          (blobUrl (blobs (record CloseAudioContext (record Pause (record RecorderStop w2))))).
        split; [|split; [apply setupEvents_setupCall|]].
        -- apply since_rev.
           destruct (onstop_run (mimeTypeOf (outputFormat (ui w)))
                       (record CloseAudioContext (record Pause (record RecorderStop w2))))
             as [-> _].
           cbn [log record]. rewrite Hlog2, Hlogs, Hlog0.
           rewrite !rev_app_distr, rev_involutive. cbn [rev app].
           now rewrite <- !app_assoc.
        -- split; [|split; [now apply Forall_rev | reflexivity]].
           right. destruct Hloop as (d0 & w0 & r2' & w2' & H0 & H1 & H2 & -> & ->).
           exists d0, w0, (Val es), w2. split; [exact H1|]. split; [exact H2|].
           split; [intros; congruence|]. split; [intros; congruence | exact H0].
      * exists (setupEvents (ui w) v dims), (rev evs2), [RecorderStop], "".
        split; [|split; [apply setupEvents_setupCall|]].
        -- apply since_rev. destruct (catchRender_run x (record RecorderStop w2)) as [-> _].
           cbn [log record]. rewrite Hlog2, Hlogs, Hlog0.
           rewrite !rev_app_distr, rev_involutive. cbn [rev app].
           now rewrite <- !app_assoc.
        -- split; [|split; [now apply Forall_rev | now right]].
           right. destruct Hloop as (d0 & w0 & r2' & w2' & H0 & H1 & H2 & -> & ->).
           exists d0, w0, (Val es), w2. split; [exact H1|]. split; [exact H2|].
           split; [intros; congruence|]. split; [intros; congruence | exact H0].
    + destruct Hr2 as [-> ->]. rewrite Hout. cbn [fst snd renderTail].
      exists (setupEvents (ui w) v dims), (rev evs2), [], "".
      split; [|split; [apply setupEvents_setupCall|]].
      * apply since_rev. destruct (catchRender_run e w2) as [-> _].
        rewrite Hlog2, Hlogs, Hlog0.
        rewrite !rev_app_distr, rev_involutive. cbn [rev app].
        now rewrite <- !app_assoc.
      * split; [|split; [now apply Forall_rev | now left]].
        right. destruct Hloop as (d0 & w0 & r2' & w2' & H0 & H1 & H2 & -> & ->).
        exists d0, w0, (Throw e), w2. split; [exact H1|]. split; [exact H2|].
           split; [intros; congruence|]. split; [intros; congruence | exact H0].
    + destruct Hr2 as [-> ->]. rewrite Hout. cbn [fst snd renderTail].
      exists (setupEvents (ui w) v dims), (rev evs2), [], "".
      split; [|split; [apply setupEvents_setupCall|]].
      * apply since_rev. cbn [app]. rewrite app_nil_r, Hlog2, Hlogs, Hlog0.
        rewrite !rev_app_distr, rev_involutive.
        now rewrite <- !app_assoc.
      * split; [|split; [now apply Forall_rev|]].
        -- right. destruct Hloop as (d0 & w0 & r2' & w2' & H0 & H1 & H2 & -> & ->).
           exists d0, w0, Hang, w2. split; [exact H1|]. split; [exact H2|].
           split; [intros; congruence|]. split; [intros; congruence | exact H0].
        -- split; [reflexivity|]. intros Hnil.
           assert (Hevs : evs2 = []).
           { destruct evs2 as [|e evs2]; [reflexivity|]. simpl in Hnil.
             symmetry in Hnil. now apply app_cons_not_nil in Hnil. }
           subst evs2. rewrite Hvs in Hclips.
           rewrite clips_cons in Hclips.
           destruct (throws B _); [discriminate|].
           destruct (loadMetadata B (objectUrl v)) as [dims'|]; [|discriminate].
           match type of Hclips with context [drawClip ?b ?f ?s ?d ?l ?o ?w0] =>
             destruct (drawClip b f s d l o w0) as [r3 w3] eqn:Hdraw
           end.
           destruct (loop_drawClip B (ui w) fuel dims' _ _ _ _ _ Hdraw)
             as (evs3 & Hlog3 & _).
           simpl in Hlog2, Hlog3.
           assert (Hlen : (List.length (log w3) <= List.length (log w2))%nat).
           { destruct r3 as [x|e|].
             - destruct (clips B fuel (ui w) rest (snd x) w3) as [r4 w4] eqn:Hrest.
               destruct (loop_clips B (ui w) fuel _ _ _ _ _ Hrest)
                 as (evs4 & Hlog4 & _).
               assert (w4 = w2) by (destruct r4; now injection Hclips). subst w4.
               rewrite Hlog4, length_app. lia.
             - injection Hclips as _ <-. lia.
             - injection Hclips as <-. lia. }
           rewrite Hlog3, Hlog2, length_app in Hlen. simpl in Hlen. lia.
Qed.

End RenderCases.


Lemma replay_inputsUntouched (evs : list event) (s : AppState) :
  Forall inputsUntouched evs ->
  videos (replay evs s) = videos s /\
  audioFile (replay evs s) = audioFile s /\
  musicPrompt (replay evs s) = musicPrompt s /\
  musicDescription (replay evs s) = musicDescription s /\
  isGeneratingMusic (replay evs s) = isGeneratingMusic s /\
  masterDuration (replay evs s) = masterDuration s /\
  masterLoop (replay evs s) = masterLoop s /\
  outputFormat (replay evs s) = outputFormat s.
Proof.
  induction 1 as [|e evs He _ IH]; [now repeat split|]. simpl.
  destruct e as [u| | | | | | | | | | | | | | | | | | | | | | | | | | | | | | | | | |];
    try exact IH.
  destruct u; simpl in He; try contradiction; exact IH.
Qed.

Lemma replay_keeps_isRendering (evs : list event) (s : AppState) :
  Forall (fun e => setupCall e \/ loopEvent e) evs ->
  isRendering (replay evs s) = isRendering s /\
  outputUrl (replay evs s) = outputUrl s.
Proof.
  induction 1 as [|e evs He _ IH]; [now split|]. simpl.
  destruct e as [u| | | | | | | | | | | | | | | | | | | | | | | | | | | | | | | | | |];
    try exact IH.
  destruct u; simpl in He; try tauto; exact IH.
Qed.

Lemma handleRenderVideo_ui (B : Browser) (fuel : nat) (w : World) :
  let w' := snd (handleRenderVideo B fuel w) in
  ui w' = replay (rev (since w w')) (ui w).
Proof.
  intros w'. subst w'.
  destruct (handleRenderVideo_emits B fuel (fun _ _ => True)) with (w := w)
    as (evs & Hlog & _ & Hui & _).
  - intros; exact I.
  - intros st. apply (emits_weaken (tryEvent st)); [intros; exact I | apply emits_tryBlock].
  - now rewrite (since_app _ _ _ Hlog), rev_involutive.
Qed.

(** A render whose format the browser does not record. *)
Lemma handleRenderVideo_unsupported_run (B : Browser) (fuel : nat) (w : World) :
  videos (ui w) <> [] ->
  isTypeSupported B (mimeTypeOf (outputFormat (ui w))) = false ->
  fst (handleRenderVideo B fuel w) = Unsupported /\
  since w (snd (handleRenderVideo B fuel w))
    = startEvents ++ [SetState (Status (unsupportedMessage (ui w)));
                      SetState (IsRendering false)].
Proof.
  intros Hne Hsup. rewrite (handleRenderVideo_unfold B fuel w Hne).
  unfold tryBlock. rewrite Hsup. cbn [negb]. split; [reflexivity|].
  apply since_rev. reflexivity.
Qed.

(** ** The order of the pipeline *)



(** ** The recorded stream *)





(** ** The format check *)

(** X4.  With videos listed, [handleRenderVideo] takes the early return of
    the format check exactly when [MediaRecorder.isTypeSupported] refuses
    the MIME type of the chosen format.  It has then made no browser call
    at all, only setter calls: the status names the refused type,
    [isRendering] is false again, [outputUrl] is null and the progress is
    the 0 of the reset. *)
Theorem handleRenderVideo_unsupported (B : Browser) (fuel : nat) (w : World) :
  videos (ui w) <> [] ->
  let st := ui w in
  let w' := snd (handleRenderVideo B fuel w) in
  (fst (handleRenderVideo B fuel w) = Unsupported
   <-> isTypeSupported B (mimeTypeOf (outputFormat st)) = false) /\
  (isTypeSupported B (mimeTypeOf (outputFormat st)) = false ->
   since w w' = startEvents ++ [SetState (Status (unsupportedMessage st));
                                SetState (IsRendering false)] /\
   status (ui w') = "Error: Your browser does not support "
                    +++ mimeTypeOf (outputFormat st)
                    +++ " recording. Please choose another format." /\
   isRendering (ui w') = false /\
   outputUrl (ui w') = None /\
   progress (ui w') = 0).
Proof.
  intros Hne st w'. subst w'. split.
  - split.
    + intros Hout. destruct (isTypeSupported B _) eqn:Hsup; [|reflexivity].
      destruct (handleRenderVideo_supported B fuel w Hne Hsup)
        as (pre & loop & post & url & _ & _ & _ & _ & Hpost).
      rewrite Hout in Hpost. contradiction.
    + intros Hsup. now apply handleRenderVideo_unsupported_run.
  - intros Hsup.
    destruct (handleRenderVideo_unsupported_run B fuel w Hne Hsup) as [_ Hsince].
    split; [exact Hsince|]. rewrite handleRenderVideo_ui, Hsince.
    repeat split.
Qed.

Lemma handleRenderVideo_unsupported_witness :
  fst (handleRenderVideo chrome 0 mp4Chosen) = Unsupported /\
  status (ui (snd (handleRenderVideo chrome 0 mp4Chosen)))
    = "Error: Your browser does not support video/mp4 recording. Please choose another format.".
Proof.
  destruct (handleRenderVideo_unsupported chrome 0 mp4Chosen) as [Hiff Hrun].
  - vm_compute. discriminate.
  - split; [apply Hiff; reflexivity|].
    destruct Hrun as (_ & Hstatus & _); [reflexivity | exact Hstatus].
Defined.

(** ** The rendering flag *)

(** X5.  With videos listed, a call of [handleRenderVideo] leaves
    [isRendering] false however it ends: by the format check, by [onstop]
    or by [catch].  It is true only while the frames are still being
    drawn. *)
Theorem isRendering_after_render (B : Browser) (fuel : nat) (w : World) :
  videos (ui w) <> [] ->
  isRendering (ui (snd (handleRenderVideo B fuel w)))
    = match fst (handleRenderVideo B fuel w) with
      | Pending => true
      | _ => false
      end.
Proof.
  intros Hne. destruct (isTypeSupported B (mimeTypeOf (outputFormat (ui w)))) eqn:Hsup.
  - destruct (handleRenderVideo_supported B fuel w Hne Hsup)
      as (pre & loop & post & url & Hsince & Hpre & _ & Hloop & Hpost).
    rewrite handleRenderVideo_ui, Hsince.
    destruct (fst (handleRenderVideo B fuel w)) as [| |es|e|]; try contradiction.
    + cbn [renderTail]. rewrite !app_assoc, rev_app_distr, replay_app. reflexivity.
    + cbn [renderTail]. rewrite !app_assoc, rev_app_distr, replay_app. reflexivity.
    + destruct Hpost as [Hpost _]. rewrite Hpost. cbn [renderTail app].
      rewrite !app_nil_r.
      rewrite app_assoc, rev_app_distr, replay_app, rev_app_distr, replay_app.
      destruct (replay_keeps_isRendering (rev loop) (replay (rev pre) (replay (rev startEvents) (ui w))))
        as [-> _].
      { apply Forall_rev. eapply Forall_impl; [|exact Hloop]. now right. }
      destruct (replay_keeps_isRendering (rev pre) (replay (rev startEvents) (ui w)))
        as [-> _].
      { apply Forall_rev. eapply Forall_impl; [|exact Hpre]. now left. }
      reflexivity.
  - destruct (handleRenderVideo_unsupported_run B fuel w Hne Hsup) as [-> Hsince].
    rewrite handleRenderVideo_ui, Hsince. reflexivity.
Qed.

Lemma isRendering_after_render_witness :
  isRendering (ui (snd (handleRenderVideo chrome 5 oneSecondClips))) = true /\
  isRendering (ui (snd (handleRenderVideo chrome 100 oneSecondClips))) = false.
Proof.
  split.
  - rewrite (isRendering_after_render chrome 5 oneSecondClips); [reflexivity|].
    vm_compute. discriminate.
  - rewrite (isRendering_after_render chrome 100 oneSecondClips); [reflexivity|].
    vm_compute. discriminate.
Defined.

Lemma tryEvent_quiet (st : AppState) (e : event) : tryEvent st e -> quietEvent e.
Proof.
  destruct e as [u| | | | | | | | | | | | | | | | | | | | | | | | | | | | | | | | | |];
    simpl; try tauto.
  destruct u; simpl; tauto.
Qed.

Lemma handlerEvent_quiet (e : event) : handlerEvent e -> quietEvent e.
Proof.
  destruct e as [u| | | | | | | | | | | | | | | | | | | | | | | | | | | | | | | | | |];
    simpl; try tauto.
  destruct u; simpl; tauto.
Qed.

Lemma quiet_observed (evs : list event) :
  Forall quietEvent evs ->
  revoked evs = [] /\ requests evs = [] /\ Forall inputsUntouched evs.
Proof.
  induction 1 as [|e evs He _ (IH1 & IH2 & IH3)]; [now repeat split|].
  destruct e as [u| | | | | | | | | | | | | | | | | | | | | | | | | | | | | | | | | |];
    simpl in *; try contradiction; repeat split; auto; constructor; auto; exact I.
Qed.

(** ** What a render leaves alone *)

(** X6.  However it ends, a call of [handleRenderVideo] leaves the listed
    videos, the audio file, the music cells and the master settings as
    they were, revokes no object URL and sends no request to the AI
    service. *)
Theorem handleRenderVideo_keeps_inputs (B : Browser) (fuel : nat) (w : World) :
  let w' := snd (handleRenderVideo B fuel w) in
  videos (ui w') = videos (ui w) /\
  audioFile (ui w') = audioFile (ui w) /\
  musicPrompt (ui w') = musicPrompt (ui w) /\
  musicDescription (ui w') = musicDescription (ui w) /\
  isGeneratingMusic (ui w') = isGeneratingMusic (ui w) /\
  masterDuration (ui w') = masterDuration (ui w) /\
  masterLoop (ui w') = masterLoop (ui w) /\
  outputFormat (ui w') = outputFormat (ui w) /\
  revoked (since w w') = [] /\
  requests (since w w') = [].
Proof.
  intros w'. subst w'.
  destruct (handleRenderVideo_emits B fuel (fun _ => quietEvent)) with (w := w)
    as (evs & Hlog & Hevs & Hui & _).
  - intros _ e. apply handlerEvent_quiet.
  - intros st. apply (emits_weaken (tryEvent st)); [apply tryEvent_quiet | apply emits_tryBlock].
  - rewrite (since_app _ _ _ Hlog), Hui.
    destruct (quiet_observed evs Hevs) as (_ & _ & Hin).
    destruct (quiet_observed (rev evs) (Forall_rev Hevs)) as (Hrev & Hreq & _).
    destruct (replay_inputsUntouched evs (ui w) Hin)
      as (H1 & H2 & H3 & H4 & H5 & H6 & H7 & H8).
    repeat split; assumption.
Qed.

(** ** The recorder and the exported blob *)

(** X7.  A recorder is only ever constructed with a MIME type that
    [MediaRecorder.isTypeSupported] accepted, which is the type of the
    chosen format; it is given the 25 Mbps bit rate for MP4 and none for
    WebM.  A blob is only ever exported with that same type, and only
    after such a recorder was made. *)
Theorem recorder_and_blob_types (B : Browser) (fuel : nat) (w : World) :
  let st := ui w in
  let evs := since w (snd (handleRenderVideo B fuel w)) in
  (forall tracks options, In (NewMediaRecorder tracks options) evs ->
     isTypeSupported B (mimeType options) = true /\
     mimeType options = mimeTypeOf (outputFormat st) /\
     videoBitsPerSecond options
       = match outputFormat st with mp4 => Some 25000000%N | webm => None end) /\
  (forall m, In (NewBlob m) evs ->
     m = mimeTypeOf (outputFormat st) /\
     exists before after,
       evs = before ++ NewMediaRecorder (combinedStream st) (recorderOptions (outputFormat st))
                    :: after /\
       In (NewBlob m) after).
Proof.
  intros st evs. subst evs.
  destruct (videos (ui w)) as [|v0 rest0] eqn:Hvs.
  { unfold handleRenderVideo. rewrite Hvs. cbn [List.length Nat.eqb fst snd].
    rewrite (since_app w (record _ w) [Alert _] eq_refl).
    split; [intros tracks options [H|[]] | intros m [H|[]]]; discriminate. }
  assert (Hne : videos (ui w) <> []) by (rewrite Hvs; discriminate).
  destruct (isTypeSupported B (mimeTypeOf (outputFormat st))) eqn:Hsup.
  - split.
    + intros tracks options Hin.
      destruct (handleRenderVideo_emits B fuel
                  (fun st e => match e with
                               | NewMediaRecorder _ o => o = recorderOptions (outputFormat st)
                               | _ => True
                               end)) with (w := w)
        as (evs & Hlog & Hevs & _).
      * intros st0 e. destruct e; simpl; tauto.
      * intros st0. apply (emits_weaken (tryEvent st0)); [|apply emits_tryBlock].
        intros e. destruct e; simpl; tauto.
      * rewrite (since_app _ _ _ Hlog) in Hin. apply in_rev in Hin.
        rewrite Forall_forall in Hevs. apply Hevs in Hin. simpl in Hin. subst options.
        fold st. cbn [mimeType videoBitsPerSecond recorderOptions].
        repeat split. exact Hsup.
    + intros m Hin.
      destruct (fst (handleRenderVideo B fuel w)) as [| |es|e|] eqn:Hout.
      1,2,4,5: exfalso;
        destruct (handleRenderVideo_supported B fuel w Hne Hsup)
          as (pre & loop & post & url & Hsince & Hpre & _ & Hloop & Hpost);
        rewrite Hout in Hsince, Hpost; try contradiction;
        rewrite Hsince in Hin; cbn [renderTail] in Hin;
        repeat (apply in_app_or in Hin; destruct Hin as [Hin|Hin]).
      all: try (rewrite Forall_forall in Hpre; apply Hpre in Hin; exact Hin).
      all: try (rewrite Forall_forall in Hloop; apply Hloop in Hin; exact Hin).
      all: try (simpl in Hin; intuition discriminate).
      all: try (destruct Hpost as [->| ->]; simpl in Hin; intuition discriminate).
      all: try (destruct Hpost as [-> _]; simpl in Hin; intuition discriminate).
      destruct (handleRenderVideo_completed B fuel w es Hout)
        as (v & rest & dims & loop & url & _ & _ & _ & Hsince & Hurl & Hloop & _).
      fold st in Hsince, Hloop. rewrite Hsince in Hin |- *.
      assert (Hm : m = mimeTypeOf (outputFormat st)).
      { apply in_app_or in Hin. destruct Hin as [Hin|Hin];
          [simpl in Hin; intuition discriminate|].
        apply in_app_or in Hin. destruct Hin as [Hin|Hin].
        { exfalso. assert (H := setupEvents_setupCall st v dims).
          rewrite Forall_forall in H. apply H in Hin. exact Hin. }
        apply in_app_or in Hin. destruct Hin as [Hin|Hin].
        { exfalso. rewrite Forall_forall in Hloop. apply Hloop in Hin. exact Hin. }
        apply in_app_or in Hin. destruct Hin as [Hin|Hin];
          [simpl in Hin; intuition discriminate|].
        simpl in Hin. destruct Hin as [[= <-]|Hin]; [reflexivity|].
        intuition discriminate. }
      split; [exact Hm|]. subst m.
      exists (startEvents
              ++ [CreateElement "canvas"; CreateElement "video"; SetVolume 0;
                  DisablePictureInPicture; SetSrc (objectUrl v);
                  SizeCanvas (fst dims) (snd dims); GetContext "2d";
                  CaptureStream 30; NewAudioContext; CreateMediaStreamDestination]
              ++ audioEvents (audioFile st) ++ [NewMediaStream (combinedStream st)]),
             (RecorderStart :: loop ++ [RecorderStop; Pause; CloseAudioContext]
              ++ onstopEvents (mimeTypeOf (outputFormat st)) url).
      split.
      * unfold setupEvents. rewrite <- !app_assoc. reflexivity.
      * right. apply in_or_app. right. apply in_or_app. right. now left.
  - destruct (handleRenderVideo_unsupported_run B fuel w Hne Hsup) as [_ ->].
    split; [intros tracks options Hin | intros m Hin]; simpl in Hin;
      intuition discriminate.
Qed.

(** ** A render that fails *)

(** X8.  A call of [handleRenderVideo] that ends in the [catch] clause
    has logged the error, reports its message in the status and has
    lowered [isRendering]; [outputUrl] stays null and no blob is made.
    Nothing after the throw is run: the video is not paused and the audio
    context is not closed, and unless it was [recorder.stop()] itself
    that threw the recorder is not stopped either. *)
Theorem handleRenderVideo_aborted (B : Browser) (fuel : nat) (w : World) (e : exn) :
  fst (handleRenderVideo B fuel w) = Aborted e ->
  let w' := snd (handleRenderVideo B fuel w) in
  let evs := since w w' in
  (exists before stop,
     evs = before ++ stop ++ catchEvents e /\
     (stop = [] \/ stop = [RecorderStop]) /\
     ~ In RecorderStop before) /\
  ~ In Pause evs /\
  ~ In CloseAudioContext evs /\
  blobsMade evs = [] /\
  status (ui w') = "Error during render: " +++ errorMessage e /\
  isRendering (ui w') = false /\
  outputUrl (ui w') = None.
Proof.
  intros Hout w' evs. subst evs w'.
  destruct (videos (ui w)) as [|v0 rest0] eqn:Hvs.
  { unfold handleRenderVideo in Hout. rewrite Hvs in Hout. discriminate. }
  assert (Hne : videos (ui w) <> []) by (rewrite Hvs; discriminate).
  destruct (isTypeSupported B (mimeTypeOf (outputFormat (ui w)))) eqn:Hsup.
  2: { destruct (handleRenderVideo_unsupported_run B fuel w Hne Hsup) as [H _].
       rewrite H in Hout. discriminate. }
  destruct (handleRenderVideo_supported B fuel w Hne Hsup)
    as (pre & loop & post & url & Hsince & Hpre & _ & Hloop & Hpost).
  rewrite Hout in Hsince, Hpost. cbn [renderTail] in Hsince.
  assert (Hboth : Forall (fun x => setupCall x \/ loopEvent x) (pre ++ loop)).
  { apply Forall_app. split.
    - eapply Forall_impl; [|exact Hpre]. intros x Hx. now left.
    - eapply Forall_impl; [|exact Hloop]. intros x Hx. now right. }
  assert (Hnot : forall x, ~ setupCall x -> ~ loopEvent x -> (forall u, x <> SetState u) ->
                           ~ In x (startEvents ++ pre ++ loop)).
  { intros x H1 H2 H3 Hin. apply in_app_or in Hin. destruct Hin as [Hin|Hin].
    - simpl in Hin. destruct Hin as [<-|[<-|[<-|[<-|[]]]]]; eapply H3; reflexivity.
    - rewrite Forall_forall in Hboth. apply Hboth in Hin. tauto. }
  assert (Hsince' : since w (snd (handleRenderVideo B fuel w))
                    = (startEvents ++ pre ++ loop) ++ post ++ catchEvents e).
  { rewrite Hsince, <- !app_assoc. reflexivity. }
  clear Hsince. rewrite handleRenderVideo_ui, Hsince'.
  assert (Hin : forall x, ~ setupCall x -> ~ loopEvent x -> x <> RecorderStop ->
                  (forall m, x <> ConsoleError m) -> (forall u, x <> SetState u) ->
                  ~ In x ((startEvents ++ pre ++ loop) ++ post ++ catchEvents e)).
  { intros x H1 H2 H3 H4 H5 Hx. apply in_app_or in Hx. destruct Hx as [Hx|Hx].
    - now apply (Hnot x).
    - apply in_app_or in Hx. destruct Hx as [Hx|Hx].
      + destruct Hpost as [-> | ->]; simpl in Hx; [tauto|]. destruct Hx as [<-|[]]. congruence.
      + simpl in Hx. destruct Hx as [<-|[<-|[<-|[]]]]; [eapply H4 | eapply H5 | eapply H5];
          reflexivity. }
  split; [|split; [|split; [|split; [|split; [|split]]]]].
  - exists (startEvents ++ pre ++ loop), post. split; [reflexivity|]. split; [exact Hpost|].
    apply Hnot; simpl; try tauto; discriminate.
  - apply Hin; simpl; try tauto; discriminate.
  - apply Hin; simpl; try tauto; discriminate.
  - rewrite !blobsMade_app.
    assert (H : forall l, Forall (fun x => setupCall x \/ loopEvent x) l -> blobsMade l = []).
    { induction 1 as [|x l Hx _ IH]; [reflexivity|].
      destruct x; simpl in *; try tauto; exact IH. }
    rewrite (H pre), (H loop).
    + destruct Hpost as [-> | ->]; reflexivity.
    + eapply Forall_impl; [|exact Hloop]. simpl; tauto.
    + eapply Forall_impl; [|exact Hpre]. simpl; tauto.
  - rewrite app_assoc, rev_app_distr, replay_app. reflexivity.
  - rewrite app_assoc, rev_app_distr, replay_app. reflexivity.
  - rewrite rev_app_distr, replay_app, rev_app_distr, replay_app.
    assert (Hkeep : forall s, outputUrl (replay (rev post) s) = outputUrl s).
    { intros s. destruct Hpost as [-> | ->]; reflexivity. }
    change (outputUrl (replay (rev post) (replay (rev (startEvents ++ pre ++ loop)) (ui w)))
            = None).
    rewrite Hkeep.
    rewrite rev_app_distr, replay_app.
    destruct (replay_keeps_isRendering (rev (pre ++ loop)) (replay (rev startEvents) (ui w)))
      as [_ ->]; [now apply Forall_rev | reflexivity].
Qed.

Lemma handleRenderVideo_aborted_witness :
  let w' := snd (handleRenderVideo noAutoplay 3 oneSecondClips) in
  status (ui w')
    = "Error during render: play() failed because the user didn't interact with the document first."
  /\ ~ In CloseAudioContext (since oneSecondClips w').
Proof.
  destruct (handleRenderVideo_aborted noAutoplay 3 oneSecondClips
              (JsError "play() failed because the user didn't interact with the document first."))
    as (_ & _ & Hclose & _ & Hstatus & _).
  - vm_compute. reflexivity.
  - split; [exact Hstatus | exact Hclose].
Defined.

(** ** A render without a duration *)

Section NoDuration.

Variable B : Browser.
Variable st : AppState.
Hypothesis Hno : noDuration st = true.

Lemma drawClip_noDuration (fuel : nat) (dims : N * N) (last overall : Q) (w : World) :
  drawClip B fuel st dims last overall w = (Val (0, overall), w).
Proof.
  unfold drawClip. unfold noDuration in Hno. destruct (masterDuration st) as [d|];
    [|reflexivity].
  unfold bind. rewrite frames_unfold. cbn [fst].
  destruct (below 0 (clipDuration d)) eqn:Hlt; [|reflexivity].
  exfalso. apply Z.leb_le in Hno. apply clipDuration_pos in Hlt; [lia | lra].
Qed.

Lemma clips_noDuration (fuel : nat) (vs : list VideoFile) :
  forall overall w r w',
    clips B fuel st vs overall w = (r, w') ->
    r <> Hang /\
    (forall es, r = Val es -> es = map (fun _ => 0) vs) /\
    exists evs, log w' = rev evs ++ log w /\ Forall clipStartEvent evs.
Proof.
  induction vs as [|video rest IH]; intros overall w r w' Hrun.
  - injection Hrun as <- <-. split; [discriminate|].
    split; [now intros es [= <-] | now exists []].
  - rewrite clips_cons in Hrun.
    destruct (throws B (S (S (List.length (log w))))).
    { injection Hrun as <- <-. split; [discriminate|]. split; [discriminate|].
      eexists [_; _; _]. split; [reflexivity|]. repeat constructor. }
    destruct (loadMetadata B (objectUrl video)) as [dims|].
    2: { injection Hrun as <- <-. split; [discriminate|]. split; [discriminate|].
         eexists [_; _; _]. split; [reflexivity|]. repeat constructor. }
    rewrite drawClip_noDuration in Hrun. cbn [snd fst] in Hrun.
    match type of Hrun with context [clips B fuel st rest overall ?w1] =>
      destruct (clips B fuel st rest overall w1) as [r2 w2] eqn:Hrest
    end.
    destruct (IH _ _ _ _ Hrest) as (Hhang & Hes & evs & Hlog & Hevs).
    assert (r <> Hang /\ w' = w2 /\
            forall es, r = Val es -> es = map (fun _ => 0) (video :: rest))
      as (Hr & -> & Hval).
    { destruct r2 as [es2|e|]; injection Hrun as <- <-;
        (split; [congruence|]); (split; [reflexivity|]); try discriminate.
      intros es [= <-]. simpl. f_equal. now apply Hes. }
    split; [exact Hr|]. split; [exact Hval|].
    exists ([SetState (Status ("Rendering: " +++ name (file video)));
             SetSrc (objectUrl video); Play; SizeCanvas (fst dims) (snd dims)] ++ evs).
    split.
    + rewrite Hlog, rev_app_distr, <- app_assoc. reflexivity.
    + apply Forall_app. split; [repeat constructor | exact Hevs].
Qed.

End NoDuration.

(** X9.  With the duration field cleared ([NaN]) or set to zero or less,
    the [while] loop never runs: a render draws no frame, awaits no
    animation frame and stores no progress but the 0 of the reset.  It
    therefore never waits: whatever the clock does, the call has ended,
    and when it completes, every clip was recorded for 0 ms. *)
Theorem handleRenderVideo_no_duration (B : Browser) (fuel : nat) (w : World) :
  noDuration (ui w) = true ->
  videos (ui w) <> [] ->
  let evs := since w (snd (handleRenderVideo B fuel w)) in
  fst (handleRenderVideo B fuel w) <> Pending /\
  (forall width height, ~ In (DrawImage width height) evs) /\
  ~ In RequestAnimationFrame evs /\
  progressUpdates evs = [0] /\
  (forall es, fst (handleRenderVideo B fuel w) = Completed es ->
     es = map (fun _ => 0) (videos (ui w))).
Proof.
  intros Hno Hne evs. subst evs.
  destruct (isTypeSupported B (mimeTypeOf (outputFormat (ui w)))) eqn:Hsup.
  2: { destruct (handleRenderVideo_unsupported_run B fuel w Hne Hsup) as [Hout ->].
       rewrite Hout. split; [discriminate|].
       split; [intros width height Hin; simpl in Hin; intuition discriminate|].
       split; [intros Hin; simpl in Hin; intuition discriminate|].
       split; [reflexivity | discriminate]. }
  destruct (handleRenderVideo_supported B fuel w Hne Hsup)
    as (pre & loop & post & url & Hsince & Hpre & Hclips & _ & Hpost).
  assert (Hloop : Forall clipStartEvent loop /\
                  fst (handleRenderVideo B fuel w) <> Pending /\
                  (forall es, fst (handleRenderVideo B fuel w) = Completed es ->
                              es = map (fun _ => 0) (videos (ui w)))).
  { destruct Hclips as [[-> [e He]] | (dims & w0 & r2 & w2 & Hrun & Hlog & Hpending & Hdone & _)].
    - split; [constructor|]. split; congruence.
    - destruct (clips_noDuration B (ui w) Hno fuel _ _ _ _ _ Hrun)
        as (Hhang & Hes & evs & Hlog' & Hevs).
      rewrite Hlog in Hlog'. apply app_inv_tail, (f_equal (@rev event)) in Hlog'.
      rewrite !rev_involutive in Hlog'. subst evs. split; [exact Hevs|].
      split; [intros Hout; now apply Hhang, Hpending|].
      intros es Hout. now apply Hes, Hdone. }
  destruct Hloop as (Hloop & Hpending & Hzero).
  assert (Hnot : forall x, ~ setupCall x -> ~ clipStartEvent x ->
                   x <> RecorderStop -> x <> Pause -> x <> CloseAudioContext ->
                   (forall m, x <> NewBlob m) -> (forall u, x <> CreateObjectURL u) ->
                   (forall m, x <> ConsoleError m) -> (forall u, x <> SetState u) ->
                   ~ In x (since w (snd (handleRenderVideo B fuel w)))).
  { intros x H1 H2 H3 H4 H5 H6 H7 H8 H9 Hin. rewrite Hsince in Hin.
    apply in_app_or in Hin. destruct Hin as [Hin|Hin].
    { simpl in Hin. destruct Hin as [<-|[<-|[<-|[<-|[]]]]]; eapply H9; reflexivity. }
    apply in_app_or in Hin. destruct Hin as [Hin|Hin].
    { rewrite Forall_forall in Hpre. now apply Hpre in Hin. }
    apply in_app_or in Hin. destruct Hin as [Hin|Hin].
    { rewrite Forall_forall in Hloop. now apply Hloop in Hin. }
    apply in_app_or in Hin. destruct Hin as [Hin|Hin].
    { destruct (fst (handleRenderVideo B fuel w)); try contradiction.
      - subst post. simpl in Hin. intuition congruence.
      - destruct Hpost as [-> | ->]; simpl in Hin; intuition congruence. }
    destruct (fst (handleRenderVideo B fuel w)); simpl in Hin; try contradiction.
    - destruct Hin as [<-|[<-|[<-|[<-|[<-|[]]]]]];
        solve [eapply H6; reflexivity | eapply H7; reflexivity | eapply H9; reflexivity].
    - destruct Hin as [<-|[<-|[<-|[]]]];
        solve [eapply H8; reflexivity | eapply H9; reflexivity]. }
  split; [exact Hpending|].
  split; [intros width height; apply Hnot; simpl; try tauto; discriminate|].
  split; [apply Hnot; simpl; try tauto; discriminate|].
  split.
  - rewrite Hsince, !progressUpdates_app.
    assert (H1 : forall l, Forall setupCall l -> progressUpdates l = []).
    { induction 1 as [|x l Hx _ IH]; [reflexivity|].
      destruct x; simpl in *; try tauto; exact IH. }
    assert (H2 : forall l, Forall clipStartEvent l -> progressUpdates l = []).
    { induction 1 as [|x l Hx _ IH]; [reflexivity|].
      destruct x as [u| | | | | | | | | | | | | | | | | | | | | | | | | | | | | | | | | |];
        simpl in *; try tauto; try exact IH.
      destruct u; simpl in *; try tauto; exact IH. }
    rewrite (H1 pre Hpre), (H2 loop Hloop).
    destruct (fst (handleRenderVideo B fuel w)); try contradiction.
    + subst post. reflexivity.
    + destruct Hpost as [-> | ->]; reflexivity.
  - intros es Hout.
    now apply Hzero.
Qed.

Lemma handleRenderVideo_no_duration_witness :
  fst (handleRenderVideo chrome 0 clearedDuration) <> Pending /\
  progressUpdates (since clearedDuration (snd (handleRenderVideo chrome 0 clearedDuration)))
    = [0].
Proof.
  destruct (handleRenderVideo_no_duration chrome 0 clearedDuration)
    as (Hpending & _ & _ & Hprogress & _).
  - reflexivity.
  - vm_compute. discriminate.
  - split; [exact Hpending | exact Hprogress].
Defined.

(** ** The progress bar during a render *)

Lemma climbs_app (a b c : Q) (l1 l2 : list Q) :
  climbs a l1 b -> climbs b l2 c -> climbs a (l1 ++ l2) c.
Proof.
  revert a. induction l1 as [|p l1 IH]; intros a H1 H2; simpl in *.
  - destruct l2 as [|q l2]; simpl in *; [lra|]. split; [lra | tauto].
  - split; [tauto|]. apply IH; tauto.
Qed.

Lemma climbs_weaken (a a' b b' : Q) (l : list Q) :
  a' <= a -> b <= b' -> climbs a l b -> climbs a' l b'.
Proof.
  revert a a'. induction l as [|p l IH]; intros a a' Ha Hb H; simpl in *; [lra|].
  split; [lra|]. apply (IH p p); [lra | exact Hb | tauto].
Qed.

Section Climbing.

Variable B : Browser.
Variable st : AppState.
Hypothesis Hmono : monotonic B.

Lemma percent_mono (d : Z) (x y : Q) :
  (0 < d)%Z -> 0 <= x -> x <= y ->
  percent x (totalMs st d) <= percent y (totalMs st d).
Proof.
  intros Hpos Hx Hxy. assert (Ht := totalMs_nonneg st d Hpos). unfold percent.
  destruct (totalMs st d) as [|z|negative]; try lra.
  assert (Hinv : 0 <= / inject_Z z).
  { apply Qinv_le_0_compat. now apply inject_Z_nonneg. }
  assert (H0 : 0 <= x / inject_Z z).
  { unfold Qdiv. now apply Qmult_le_0_compat. }
  assert (H : x / inject_Z z <= y / inject_Z z).
  { unfold Qdiv. now apply Qmult_le_compat_r. }
  assert (Hr0 := roundDouble_nonneg _ H0).
  assert (Hr := roundDouble_le _ _ H0 H).
  apply roundDouble_le; lra.
Qed.

Lemma progressAt_mono (d : Z) (x y : Q) :
  masterDuration st = Some d -> (0 < d)%Z -> 0 <= x -> x <= y ->
  progressAt st x <= progressAt st y.
Proof.
  intros Hd Hpos Hx Hxy. unfold progressAt. rewrite Hd.
  apply Q.min_le_compat_l. now apply percent_mono.
Qed.

(** Adding a delta that is not negative to a double that is not negative
    gives, after rounding, no less. *)
Lemma roundDouble_add_le (x delta : Q) :
  0 <= x -> roundDouble x == x -> 0 <= delta -> x <= roundDouble (x + delta).
Proof.
  intros Hx Hdouble Hdelta. rewrite <- Hdouble at 1.
  apply roundDouble_le; lra.
Qed.

Lemma frames_climbs (fuel : nat) (d : Z) (dims : N * N) :
  masterDuration st = Some d ->
  forall elapsed last overall w r w',
    0 <= elapsed ->
    0 <= overall -> roundDouble overall == overall ->
    (exists k, (k <= clock w)%nat /\ last = performance_now B k) ->
    frames B fuel st d dims (elapsed, last, overall) w = (r, w') ->
    exists evs hi,
      log w' = rev evs ++ log w /\
      climbs (progressAt st overall) (progressUpdates evs) (progressAt st hi) /\
      0 <= hi /\ roundDouble hi == hi /\
      forall locals, r = Val locals -> snd locals = hi.
Proof.
  intros Hd.
  induction fuel as [|fuel IH];
    intros elapsed last overall w r w' He Ho Hdouble Hlast Hrun;
    rewrite frames_unfold in Hrun; cbn [fst] in Hrun;
    destruct (below elapsed (clipDuration d)) eqn:Hlt;
    try (injection Hrun as <- <-; exists [], overall;
         split; [reflexivity|]; split; [simpl; lra|];
         split; [exact Ho|]; split; [exact Hdouble|]; try discriminate;
         now intros locals [= <-]).
  destruct Hlast as (k & Hk & ->).
  destruct (frame_run B st d dims elapsed (performance_now B k) overall w)
    as (w1 & Hframe & Hlog1 & Hclock1 & _).
  unfold bind in Hrun. rewrite Hframe in Hrun.
  set (delta := roundDouble (performance_now B (clock w) - performance_now B k)) in *.
  assert (Hdelta : 0 <= delta).
  { apply roundDouble_nonneg. assert (H := Hmono k (clock w) Hk). lra. }
  assert (Hpos : (0 < d)%Z) by (apply (clipDuration_pos d elapsed); assumption).
  assert (Hnext : 0 <= roundDouble (overall + delta)) by (apply roundDouble_nonneg; lra).
  apply IH in Hrun;
    [ | apply roundDouble_nonneg; lra | exact Hnext
      | apply roundDouble_idempotent; lra
      | exists (clock w); split; [lia | reflexivity] ].
  destruct Hrun as (evs & hi & Hlog & Hclimbs & Hhi & Hhidouble & Hval).
  exists ((if masterLoop st && nearEnd B (S (clock w)) then [SetCurrentTime 0] else [])
          ++ [DrawImage (fst dims) (snd dims);
              SetState (Progress (Qmin 100 (percent (roundDouble (overall + delta))
                                              (totalMs st d))));
              RequestAnimationFrame] ++ evs), hi.
  split; [|split; [|split; [exact Hhi|split; [exact Hhidouble | exact Hval]]]].
  - rewrite Hlog, Hlog1, !rev_app_distr, <- !app_assoc.
    destruct (_ && _); reflexivity.
  - rewrite progressUpdates_app.
    replace (progressUpdates (if masterLoop st && nearEnd B (S (clock w))
                              then [SetCurrentTime 0] else [])) with (@nil Q)
      by (destruct (_ && _); reflexivity).
    cbn [app progressUpdates flat_map climbs].
    change (flat_map _ evs) with (progressUpdates evs).
    unfold progressAt in Hclimbs at 1. rewrite Hd in Hclimbs.
    split; [|exact Hclimbs].
    assert (H := progressAt_mono d overall (roundDouble (overall + delta)) Hd Hpos Ho).
    unfold progressAt in H at 2. rewrite Hd in H. apply H.
    now apply roundDouble_add_le.
Qed.

Lemma drawClip_climbs (fuel : nat) (dims : N * N) (last overall : Q)
    (w : World) (r : res (Q * Q)) (w' : World) :
  0 <= overall -> roundDouble overall == overall ->
  (exists k, (k <= clock w)%nat /\ last = performance_now B k) ->
  drawClip B fuel st dims last overall w = (r, w') ->
  exists evs hi,
    log w' = rev evs ++ log w /\
    climbs (progressAt st overall) (progressUpdates evs) (progressAt st hi) /\
    0 <= hi /\ roundDouble hi == hi /\
    forall x, r = Val x -> snd x = hi.
Proof.
  intros Ho Hdouble Hlast Hrun. unfold drawClip in Hrun.
  destruct (masterDuration st) as [d|] eqn:Hd.
  - unfold bind in Hrun.
    destruct (frames B fuel st d dims (0, last, overall) w) as [r1 w1] eqn:Hframes.
    apply (frames_climbs fuel d dims Hd) in Hframes;
      [|lra|exact Ho|exact Hdouble|exact Hlast].
    destruct Hframes as (evs & hi & Hlog & Hclimbs & Hhi & Hhidouble & Hval).
    exists evs, hi.
    destruct r1 as [locals|e|]; injection Hrun as <- <-;
      (split; [exact Hlog|]); (split; [exact Hclimbs|]);
      (split; [exact Hhi|]); (split; [exact Hhidouble|]); try discriminate.
    intros x [= <-]. simpl. now apply Hval.
  - injection Hrun as <- <-. exists [], overall. split; [reflexivity|].
    split; [simpl; lra|]. split; [exact Ho|]. split; [exact Hdouble|].
    now intros x [= <-].
Qed.

Lemma clips_climbs (fuel : nat) (vs : list VideoFile) :
  forall overall w r w',
    0 <= overall -> roundDouble overall == overall ->
    clips B fuel st vs overall w = (r, w') ->
    exists evs hi,
      log w' = rev evs ++ log w /\
      climbs (progressAt st overall) (progressUpdates evs) (progressAt st hi).
Proof.
  induction vs as [|video rest IH]; intros overall w r w' Ho Hdouble Hrun.
  - injection Hrun as <- <-. exists [], overall. split; [reflexivity | simpl; lra].
  - rewrite clips_cons in Hrun.
    destruct (throws B (S (S (List.length (log w))))).
    { injection Hrun as <- <-. eexists [_; _; _], overall.
      split; [reflexivity | simpl; lra]. }
    destruct (loadMetadata B (objectUrl video)) as [dims|].
    2: { injection Hrun as <- <-. eexists [_; _; _], overall.
         split; [reflexivity | simpl; lra]. }
    match type of Hrun with context [drawClip B fuel st dims ?l overall ?w1] =>
      destruct (drawClip B fuel st dims l overall w1) as [r2 w2] eqn:Hdraw
    end.
    apply drawClip_climbs in Hdraw;
      [|exact Ho|exact Hdouble|exists (clock w); split; [simpl; lia | reflexivity]].
    destruct Hdraw as (evs2 & hi2 & Hlog2 & Hclimbs2 & Hhi2 & Hdouble2 & Hval2).
    simpl in Hlog2.
    assert (Hhead : forall l,
              progressUpdates ([SetState (Status ("Rendering: " +++ name (file video)));
                                SetSrc (objectUrl video); Play;
                                SizeCanvas (fst dims) (snd dims)] ++ l)
              = progressUpdates l) by reflexivity.
    destruct r2 as [x|e|].
    + destruct (clips B fuel st rest (snd x) w2) as [r3 w3] eqn:Hrest.
      rewrite (Hval2 x eq_refl) in Hrest.
      destruct (IH _ _ _ _ Hhi2 Hdouble2 Hrest) as (evs3 & hi3 & Hlog3 & Hclimbs3).
      assert (Hw3 : w' = w3) by (destruct r3; now injection Hrun). subst w3.
      exists ([SetState (Status ("Rendering: " +++ name (file video)));
               SetSrc (objectUrl video); Play;
               SizeCanvas (fst dims) (snd dims)] ++ evs2 ++ evs3), hi3.
      split.
      * rewrite Hlog3, Hlog2, !rev_app_distr, <- !app_assoc. reflexivity.
      * rewrite Hhead, progressUpdates_app. eapply climbs_app; eassumption.
    + injection Hrun as <- <-.
      exists ([SetState (Status ("Rendering: " +++ name (file video)));
               SetSrc (objectUrl video); Play;
               SizeCanvas (fst dims) (snd dims)] ++ evs2), hi2.
      split; [|now rewrite Hhead].
      rewrite Hlog2, !rev_app_distr, <- !app_assoc. reflexivity.
    + injection Hrun as <- <-.
      exists ([SetState (Status ("Rendering: " +++ name (file video)));
               SetSrc (objectUrl video); Play;
               SizeCanvas (fst dims) (snd dims)] ++ evs2), hi2.
      split; [|now rewrite Hhead].
      rewrite Hlog2, !rev_app_distr, <- !app_assoc. reflexivity.
Qed.

End Climbing.

(** X10.  On a clock that never goes back, the progress values a call of
    [handleRenderVideo] stores go up from the 0 of the reset to at most
    100 and never back: the progress bar does not jump backwards when the
    render moves on to the next clip. *)
Theorem progress_never_goes_back (B : Browser) (fuel : nat) (w : World) :
  monotonic B ->
  climbs 0 (progressUpdates (since w (snd (handleRenderVideo B fuel w)))) 100.
Proof.
  intros Hmono.
  destruct (videos (ui w)) as [|v0 rest0] eqn:Hvs.
  { unfold handleRenderVideo. rewrite Hvs. cbn [List.length Nat.eqb fst snd].
    rewrite (since_app w (record _ w) [Alert _] eq_refl). simpl. lra. }
  assert (Hne : videos (ui w) <> []) by (rewrite Hvs; discriminate).
  destruct (isTypeSupported B (mimeTypeOf (outputFormat (ui w)))) eqn:Hsup.
  2: { destruct (handleRenderVideo_unsupported_run B fuel w Hne Hsup) as [_ ->].
       simpl. lra. }
  destruct (handleRenderVideo_supported B fuel w Hne Hsup)
    as (pre & loop & post & url & Hsince & Hpre & Hclips & _ & Hpost).
  rewrite Hsince, !progressUpdates_app.
  assert (H1 : progressUpdates pre = []).
  { clear -Hpre. induction Hpre as [|x l Hx _ IH]; [reflexivity|].
    destruct x; simpl in *; try tauto; exact IH. }
  assert (H2 : progressUpdates post = [] /\
               progressUpdates (renderTail (ui w) (fst (handleRenderVideo B fuel w)) url) = []).
  { destruct (fst (handleRenderVideo B fuel w)); try contradiction.
    - subst post. now split.
    - destruct Hpost as [-> | ->]; now split.
    - destruct Hpost as [-> _]. now split. }
  destruct H2 as [H2 H3]. rewrite H1, H2, H3, !app_nil_r. cbn [app].
  change (progressUpdates startEvents) with [0]. cbn [app climbs].
  split; [lra|].
  destruct Hclips as [[-> _] | (dims & w0 & r2 & w2 & Hrun & Hlog & _)]; [simpl; lra|].
  assert (Hzero : roundDouble 0 == 0) by now rewrite roundDouble_0.
  destruct (clips_climbs B (ui w) Hmono fuel _ _ _ _ _ (Qle_refl 0) Hzero Hrun)
    as (evs & hi & Hlog' & Hclimbs).
  rewrite Hlog in Hlog'. apply app_inv_tail, (f_equal (@rev event)) in Hlog'.
  rewrite !rev_involutive in Hlog'. subst evs.
  apply (climbs_weaken (progressAt (ui w) 0) 0 (progressAt (ui w) hi) 100);
    [| |exact Hclimbs]; unfold progressAt; destruct (masterDuration (ui w)) as [d|];
    try lra.
  - apply Q.min_glb; [lra|]. unfold percent.
    destruct (totalMs (ui w) d) as [|z|negative]; try lra.
    assert (H : 0 <= roundDouble (0 / inject_Z z)).
    { apply roundDouble_nonneg. unfold Qdiv. rewrite Qmult_0_l. lra. }
    apply roundDouble_nonneg. lra.
  - apply Q.le_min_l.
Qed.

Lemma progress_never_goes_back_witness :
  climbs 0 (progressUpdates
              (since oneSecondClips (snd (handleRenderVideo chrome 200 oneSecondClips)))) 100.
Proof.
  apply (progress_never_goes_back chrome 200 oneSecondClips).
  intros m n Hmn. unfold Qle. cbn [performance_now chrome Qnum Qden inject_Z]. lia.
Defined.

(** ** Object URLs over a session *)

Lemma handedOut_mono (w w' : World) (u : string) :
  (blobs w <= blobs w')%nat -> handedOut w u -> handedOut w' u.
Proof. intros Hle (k & Hk & ->). exists k. split; [lia | reflexivity]. Qed.

Lemma handedOut_fresh (w : World) (k : nat) :
  (blobs w <= k)%nat -> ~ handedOut w (blobUrl k).
Proof.
  intros Hle (j & Hj & Heq). apply blobUrl_inj in Heq. lia.
Qed.

(** One step of a session, in general: some held URLs are revoked, some
    entries are kept, new entries and a new output URL come with URLs the
    browser had not handed out before. *)
Lemma urlsLive_step (w w' : World) (R : list string) (keep new : list VideoFile) :
  urlsLive w ->
  (blobs w <= blobs w')%nat ->
  revoked (log w') = R ++ revoked (log w) ->
  NoDup R ->
  (forall u, In u R -> In u (listed w) \/ outputUrl (ui w) = Some u) ->
  videos (ui w') = keep ++ new ->
  NoDup (map objectUrl keep) ->
  (forall u, In u (map objectUrl keep) -> In u (listed w) /\ ~ In u R) ->
  NoDup (map objectUrl new) ->
  (forall u, In u (map objectUrl new) ->
     exists k, (blobs w <= k < blobs w')%nat /\ u = blobUrl k) ->
  (forall u, outputUrl (ui w') = Some u ->
     (outputUrl (ui w) = Some u /\ ~ In u R) \/
     (exists k, (blobs w <= k < blobs w')%nat /\ u = blobUrl k /\
                ~ In u (map objectUrl new))) ->
  urlsLive w'.
Proof.
  intros (Hl & Hr & Hlisted & Hrev & Hout) Hle Hlog HR HRin Hvs Hkeep Hkeepin Hnew Hnewin Hout'.
  assert (HRout : forall u, In u R -> handedOut w u /\ ~ In u (revoked (log w))).
  { intros u Hu. destruct (HRin u Hu) as [H|H]; [now apply Hlisted|].
    destruct (Hout u H) as (H1 & H2 & _). now split. }
  assert (Hfresh : forall u, (exists k, (blobs w <= k < blobs w')%nat /\ u = blobUrl k) ->
                     handedOut w' u /\ ~ handedOut w u).
  { intros u (k & Hk & ->). split; [exists k; split; [lia | reflexivity]|].
    apply handedOut_fresh. lia. }
  unfold urlsLive, listed. rewrite Hvs, map_app, Hlog.
  split; [|split; [|split; [|split]]].
  - apply NoDup_app; [exact Hkeep | exact Hnew|].
    intros u Hk Hn. destruct (Hfresh u (Hnewin u Hn)) as [_ H]. apply H.
    now apply Hlisted, Hkeepin.
  - apply NoDup_app; [exact HR | exact Hr|].
    intros u Hu. now apply HRout.
  - intros u Hu. apply in_app_or in Hu. destruct Hu as [Hu|Hu].
    + destruct (Hkeepin u Hu) as [Hin HnR]. destruct (Hlisted u Hin) as [H1 H2].
      split; [now apply (handedOut_mono w)|].
      intros H. apply in_app_or in H. tauto.
    + destruct (Hfresh u (Hnewin u Hu)) as [H1 H2]. split; [exact H1|].
      intros H. apply in_app_or in H. destruct H as [H|H]; apply H2.
      * now apply HRout.
      * now apply Hrev.
  - intros u Hu. apply (handedOut_mono w); [exact Hle|].
    apply in_app_or in Hu. destruct Hu as [Hu|Hu]; [now apply HRout | now apply Hrev].
  - intros u Hu. destruct (Hout' u Hu) as [[Hsame HnR] | (k & Hk & -> & Hnn)].
    + destruct (Hout u Hsame) as (H1 & H2 & H3).
      split; [now apply (handedOut_mono w)|]. split.
      * intros H. apply in_app_or in H. tauto.
      * intros H. apply in_app_or in H. destruct H as [H|H].
        -- apply H3. now apply Hkeepin.
        -- destruct (Hfresh u (Hnewin u H)) as [_ H4]. now apply H4.
    + destruct (Hfresh (blobUrl k)) as [H1 H2]; [now exists k|].
      split; [exact H1|]. split.
      * intros H. apply in_app_or in H. destruct H as [H|H]; apply H2.
        -- now apply HRout.
        -- now apply Hrev.
      * intros H. apply in_app_or in H. destruct H as [H|H]; [|now apply Hnn].
        apply H2. now apply Hlisted, Hkeepin.
Qed.

Lemma urlStep_live (w w' : World) : urlsLive w -> urlStep w w' -> urlsLive w'.
Proof.
  intros Hlive (R & keep & new & Hle & Hlog & HR & HRin & Hvs & Hkeep & Hkeepin
                & Hnew & Hnewin & Hout & _).
  apply (urlsLive_step w w' R keep new); auto.
  intros u Hu. destruct (Hout u Hu) as [H|H]; [left | now right].
  split; [exact H|]. intros HuR. destruct Hlive as (_ & _ & _ & _ & Ho).
  destruct (Ho u H) as (_ & _ & H3). now apply H3, HRin.
Qed.

(** A step that revokes nothing and leaves the list and [outputUrl]
    alone. *)
Lemma urlStep_same (w w' : World) :
  urlsLive w ->
  (blobs w <= blobs w')%nat ->
  revoked (log w') = revoked (log w) ->
  exported (log w') = exported (log w) ->
  videos (ui w') = videos (ui w) ->
  outputUrl (ui w') = outputUrl (ui w) ->
  urlStep w w'.
Proof.
  intros Hlive Hle Hlog Hexp Hvs Hout.
  exists [], (videos (ui w)), [].
  split; [exact Hle|]. split; [exact Hlog|]. split; [constructor|].
  split; [intros u []|]. split; [now rewrite app_nil_r|].
  split; [now destruct Hlive|].
  split; [intros u Hu; split; [exact Hu | intros []]|].
  split; [constructor|]. split; [intros u []|].
  split; [intros u Hu; left; now rewrite <- Hout|].
  intros u Hu. left. now rewrite <- Hexp.
Qed.

Lemma newVideos_blobs (B : Browser) (files : list File) (w : World) :
  blobs (snd (newVideos B files w)) = (blobs w + List.length files)%nat.
Proof.
  revert w. induction files as [|f rest IH]; intros w; simpl; [lia|].
  unfold bind. simpl.
  match goal with |- context [newVideos B rest ?w0] =>
    specialize (IH w0); destruct (newVideos B rest w0) as [[vs|e|] w1] end;
    simpl in *; lia.
Qed.

Lemma exported_app (l1 l2 : list event) :
  exported (l1 ++ l2) = exported l1 ++ exported l2.
Proof. unfold exported. now rewrite flat_map_app. Qed.

Lemma minting_observed (urls : list string) :
  revoked (map CreateObjectURL urls) = [] /\
  exported (map CreateObjectURL urls) = [] /\
  blobsMade (map CreateObjectURL urls) = [].
Proof. induction urls as [|u urls IH]; [now repeat split | exact IH]. Qed.

Lemma revoking_observed (urls : list string) :
  exported (map RevokeObjectURL urls) = [] /\
  blobsMade (map RevokeObjectURL urls) = [].
Proof. induction urls as [|u urls IH]; [now split | exact IH]. Qed.

Lemma NoDup_map_filter {A C} (f : A -> C) (p : A -> bool) (l : list A) :
  NoDup (map f l) -> NoDup (map f (filter p l)).
Proof.
  induction l as [|x l IH]; simpl; [auto|]. intros H. inversion H as [|? ? Hx Hl]; subst.
  destruct (p x); simpl; [|auto]. constructor; [|auto].
  intros Hin. apply Hx. apply in_map_iff in Hin. destruct Hin as (y & Hy & Hin).
  apply filter_In in Hin. apply in_map_iff. exists y. tauto.
Qed.

Lemma NoDup_map_In_inj {A C} (f : A -> C) (l : list A) (x y : A) :
  NoDup (map f l) -> In x l -> In y l -> f x = f y -> x = y.
Proof.
  induction l as [|z l IH]; [contradiction|]. simpl. intros H Hx Hy Heq.
  inversion H as [|? ? Hz Hl]; subst.
  destruct Hx as [->|Hx], Hy as [->|Hy]; auto.
  - exfalso. apply Hz. rewrite Heq. now apply in_map.
  - exfalso. apply Hz. rewrite <- Heq. now apply in_map.
Qed.

(** What the upload did to the world, for a selection that is not
    empty. *)
Lemma handleVideoUpload_run (B : Browser) (files : list File) (w : World) :
  files <> [] ->
  let w' := snd (handleVideoUpload B files w) in
  exists vs,
    videos (ui w') = videos (ui w) ++ vs /\
    map objectUrl vs = map blobUrl (seq (blobs w) (List.length files)) /\
    blobs w' = (blobs w + List.length files)%nat /\
    outputUrl (ui w') = outputUrl (ui w) /\
    audioFile (ui w') = audioFile (ui w) /\
    log w' = [SetState (Status (string_of_nat (List.length files)
                                +++ " video(s) added. Adjust master settings and render."));
              SetState (Videos (videos (ui w) ++ vs))]
             ++ rev (map CreateObjectURL (map objectUrl vs)) ++ log w.
Proof.
  intros Hne w'. subst w'. unfold handleVideoUpload.
  destruct files as [|f rest]; [congruence|].
  change (List.length (f :: rest) =? 0)%nat with false. cbv iota.
  assert (Hblobs := newVideos_blobs B (f :: rest) w).
  destruct (newVideos_spec B (f :: rest) w) as (vs & w1 & Hrun & Hfile & Hui & Hlog & Hurl).
  rewrite Hrun in Hblobs. cbn [snd] in Hblobs.
  unfold bind. rewrite Hrun. cbn [set fst snd ui log blobs apply videos outputUrl audioFile].
  exists vs. rewrite Hui, Hlog, map_map. repeat split; auto.
Qed.

Lemma handleVideoUpload_urlStep (B : Browser) (files : list File) (w : World) :
  urlsLive w -> urlStep w (snd (handleVideoUpload B files w)).
Proof.
  intros Hlive. destruct files as [|f rest].
  { apply urlStep_same; auto. }
  destruct (handleVideoUpload_run B (f :: rest) w) as (vs & Hvs & Hurl & Hblobs & Hout & _ & Hlog);
    [discriminate|].
  assert (Hobs := minting_observed (rev (map objectUrl vs))).
  rewrite map_rev in Hobs. destruct Hobs as (Hobs1 & Hobs2 & _).
  exists [], (videos (ui w)), vs.
  split; [lia|].
  split; [rewrite Hlog, revoked_app, revoked_app, Hobs1; reflexivity|].
  split; [constructor|]. split; [intros u []|]. split; [exact Hvs|].
  split; [now destruct Hlive|].
  split; [intros u Hu; split; [exact Hu | intros []]|].
  split.
  { rewrite Hurl. apply Finite.Injective_map_NoDup; [|apply seq_NoDup].
    intros m n. apply blobUrl_inj. }
  split.
  { intros u Hu. rewrite Hurl in Hu. apply in_map_iff in Hu.
    destruct Hu as (k & <- & Hk). apply in_seq in Hk. exists k. split; [lia | reflexivity]. }
  split; [intros u Hu; left; now rewrite <- Hout|].
  intros u Hu. left. rewrite Hlog, exported_app, exported_app, Hobs2 in Hu. exact Hu.
Qed.

Lemma handleRemoveVideo_log (i : string) (w : World) :
  let w' := snd (handleRemoveVideo i w) in
  let vs := filter (fun v => negb (hasId i v)) (videos (ui w)) in
  log w' = [SetState (Status "Video removed."); SetState (Videos vs)]
           ++ match find (hasId i) (videos (ui w)) with
              | Some v => [RevokeObjectURL (objectUrl v)]
              | None => []
              end ++ log w /\
  ui w' = apply (Status "Video removed.") (apply (Videos vs) (ui w)) /\
  blobs w' = blobs w.
Proof.
  unfold handleRemoveVideo, bind, revokeObjectURL. fold (hasId i).
  change (fun video : VideoFile => negb (String.eqb (id video) i))
    with (fun v : VideoFile => negb (hasId i v)).
  destruct (find (hasId i) (videos (ui w))); repeat split.
Qed.

Lemma handleRemoveVideo_urlStep (i : string) (w : World) :
  urlsLive w -> urlStep w (snd (handleRemoveVideo i w)).
Proof.
  intros Hlive. assert (Hl := Hlive). destruct Hl as (Hl & _).
  destruct (handleRemoveVideo_log i w) as (Hlog & Hui & Hblobs).
  exists (match find (hasId i) (videos (ui w)) with Some v => [objectUrl v] | None => [] end),
         (filter (fun v => negb (hasId i v)) (videos (ui w))), [].
  split; [lia|]. rewrite Hlog, Hui.
  split; [destruct (find _ _); reflexivity|].
  split; [destruct (find _ _); repeat constructor; intros []|].
  split.
  { destruct (find _ _) as [v|] eqn:Hfind; [|intros u []].
    intros u [<-|[]]. apply find_some in Hfind. now apply in_map. }
  split; [cbn [apply videos]; now rewrite app_nil_r|].
  split; [now apply NoDup_map_filter|].
  split.
  { intros u Hu. apply in_map_iff in Hu. destruct Hu as (x & <- & Hx).
    apply filter_In in Hx. destruct Hx as [Hx Hkeep].
    split; [now apply in_map|].
    destruct (find _ _) as [v|] eqn:Hfind; [|intros []].
    intros [Heq|[]]. apply find_some in Hfind. destruct Hfind as [Hin Hid].
    assert (v = x) by (apply (NoDup_map_In_inj objectUrl (videos (ui w))); auto).
    subst x. rewrite Hid in Hkeep. discriminate. }
  split; [constructor|]. split; [intros u []|].
  split; [intros u Hu; now left|].
  intros u Hu. left. destruct (find _ _); exact Hu.
Qed.

Lemma handleClearAllVideos_log (w : World) :
  let w' := snd (handleClearAllVideos w) in
  log w' = [SetState (Status "All videos cleared."); SetState (Videos [])]
           ++ rev (map RevokeObjectURL (listed w)) ++ log w /\
  ui w' = apply (Status "All videos cleared.") (apply (Videos []) (ui w)) /\
  blobs w' = blobs w.
Proof.
  unfold handleClearAllVideos, bind.
  destruct (revokeAll_run (videos (ui w)) w) as (w1 & Hrun & Hlog & Hui & Hblobs & _).
  rewrite Hrun. cbn [fst snd set ui log blobs]. unfold listed.
  rewrite Hlog, Hui, Hblobs, map_map. repeat split.
Qed.

Lemma handleClearAllVideos_urlStep (w : World) :
  urlsLive w -> urlStep w (snd (handleClearAllVideos w)).
Proof.
  intros Hlive. assert (Hl := Hlive). destruct Hl as (Hl & _).
  destruct (handleClearAllVideos_log w) as (Hlog & Hui & Hblobs).
  assert (Hobs := revoking_observed (rev (listed w))).
  rewrite map_rev in Hobs. destruct Hobs as (Hobs & _).
  exists (rev (listed w)), [], [].
  split; [lia|]. rewrite Hlog, Hui.
  split.
  { rewrite revoked_app, revoked_app, <- map_rev, revoked_revokes. reflexivity. }
  split; [now apply NoDup_rev|].
  split; [intros u Hu; now apply in_rev|].
  split; [reflexivity|]. split; [constructor|]. split; [intros u []|].
  split; [constructor|]. split; [intros u []|].
  split; [intros u Hu; now left|].
  intros u Hu. left. rewrite exported_app, exported_app, Hobs in Hu. exact Hu.
Qed.

Lemma handleGenerateMusic_urlStep (B : Browser) (w : World) :
  urlsLive w -> urlStep w (snd (handleGenerateMusic B w)).
Proof.
  intros Hlive. unfold handleGenerateMusic.
  destruct (falsy _ || notPositive _).
  - now apply urlStep_same.
  - unfold bind. simpl. destruct (generateContent B _); now apply urlStep_same.
Qed.

Lemma tryEvent_observed (st : AppState) (evs : list event) :
  Forall (tryEvent st) evs ->
  revoked evs = [] /\ exported evs = [] /\ blobsMade evs = [].
Proof.
  induction 1 as [|e evs He _ (IH1 & IH2 & IH3)]; [now repeat split|].
  destruct e as [u| | | | | | | | | | | | | | | | | | | | | | | | | | | | | | | | | |];
    simpl in *; try contradiction; try (repeat split; assumption).
  destruct u; simpl in *; try contradiction; repeat split; assumption.
Qed.

(** What a render does to the URLs: it revokes none, mints one when it
    completes and stores that one, and clears [outputUrl] otherwise. *)
Lemma handleRenderVideo_urls (B : Browser) (fuel : nat) (w : World) :
  let w' := snd (handleRenderVideo B fuel w) in
  (blobs w <= blobs w')%nat /\
  revoked (log w') = revoked (log w) /\
  videos (ui w') = videos (ui w) /\
  audioFile (ui w') = audioFile (ui w) /\
  match fst (handleRenderVideo B fuel w) with
  | NoVideos =>
      outputUrl (ui w') = outputUrl (ui w) /\
      exported (log w') = exported (log w) /\
      blobsMade (log w') = blobsMade (log w)
  | Completed _ =>
      exists k, (blobs w <= k < blobs w')%nat /\
                outputUrl (ui w') = Some (blobUrl k) /\
                exported (log w') = blobUrl k :: exported (log w) /\
                blobsMade (log w')
                  = mimeTypeOf (outputFormat (ui w)) :: blobsMade (log w)
  | _ =>
      outputUrl (ui w') = None /\
      exported (log w') = exported (log w) /\
      blobsMade (log w') = blobsMade (log w)
  end.
Proof.
  intros w'. subst w'.
  destruct (videos (ui w)) as [|v0 rest0] eqn:Hvs.
  { unfold handleRenderVideo. rewrite Hvs. cbn. repeat split; auto. }
  assert (Hne : videos (ui w) <> []) by (rewrite Hvs; discriminate).
  rewrite <- Hvs. clear v0 rest0 Hvs.
  rewrite (handleRenderVideo_unfold B fuel w Hne).
  destruct (startRender_run w) as (Hlog0 & Hui0 & Hblobs0 & _).
  destruct (tryBlock B fuel (ui w) (snd (startRender w))) as [r w1] eqn:Hrun.
  destruct (emits_tryBlock B (ui w) fuel _ _ _ Hrun) as (evs & Hlog & Hevs & Hui & Hblobs).
  destruct (tryEvent_observed (ui w) evs Hevs) as (Hrev & Hexp & Hmade).
  destruct (replay_tryEvent (ui w) evs (ui (snd (startRender w))) Hevs)
    as (Hout1 & Hvs1 & Haudio1 & _).
  rewrite <- Hui in Hout1, Hvs1, Haudio1.
  assert (Hrev1 : revoked (log w1) = revoked (log w)).
  { rewrite Hlog, revoked_app, Hrev, Hlog0, revoked_app. reflexivity. }
  assert (Hexp1 : exported (log w1) = exported (log w)).
  { rewrite Hlog, exported_app, Hexp, Hlog0, exported_app. reflexivity. }
  assert (Hmade1 : blobsMade (log w1) = blobsMade (log w)).
  { rewrite Hlog, blobsMade_app, Hmade, Hlog0, blobsMade_app. reflexivity. }
  assert (Hvideos1 : videos (ui w1) = videos (ui w)) by (rewrite Hvs1, Hui0; reflexivity).
  assert (Haudio : audioFile (ui w1) = audioFile (ui w)) by (rewrite Haudio1, Hui0; reflexivity).
  assert (Houtput1 : outputUrl (ui w1) = None) by (rewrite Hout1, Hui0; reflexivity).
  destruct r as [[es|]|e|]; cbn [fst snd].
  - destruct (onstop_run (mimeTypeOf (outputFormat (ui w))) w1) as [Hlog2 Hui2].
    rewrite Hlog2, Hui2. cbn [onstopEvents rev app revoked exported blobsMade flat_map].
    change (flat_map _ (log w1)) with (revoked (log w1)) at 1.
    change (flat_map _ (log w1)) with (exported (log w1)) at 1.
    change (flat_map _ (log w1)) with (blobsMade (log w1)) at 1.
    rewrite Hrev1, Hexp1, Hmade1.
    split; [unfold onstop, bind, createObjectURL; simpl; lia|].
    split; [reflexivity|]. split; [exact Hvideos1|]. split; [exact Haudio|].
    exists (blobs w1). split; [unfold onstop, bind, createObjectURL; simpl; lia|].
    repeat split.
  - repeat split; auto; lia.
  - destruct (catchRender_run e w1) as [Hlog2 Hui2]. rewrite Hlog2, Hui2.
    split; [unfold catchRender; simpl; lia|].
    repeat split; assumption.
  - repeat split; auto; lia.
Qed.

Lemma handleRenderVideo_urlStep (B : Browser) (fuel : nat) (w : World) :
  urlsLive w -> urlStep w (snd (handleRenderVideo B fuel w)).
Proof.
  intros Hlive.
  destruct (handleRenderVideo_urls B fuel w) as (Hle & Hrev & Hvs & _ & Hout).
  exists [], (videos (ui w)), [].
  split; [exact Hle|]. split; [exact Hrev|]. split; [constructor|].
  split; [intros u []|]. split; [now rewrite app_nil_r|].
  split; [now destruct Hlive|].
  split; [intros u Hu; split; [exact Hu | intros []]|].
  split; [constructor|]. split; [intros u []|].
  destruct (fst (handleRenderVideo B fuel w)).
  - destruct Hout as (H1 & H2 & _). rewrite H1, H2. split; intros u Hu; now left.
  - destruct Hout as (H1 & H2 & _). rewrite H1, H2.
    split; intros u Hu; [discriminate | now left].
  - destruct Hout as (k & Hk & H1 & H2 & _). rewrite H1, H2. split.
    + intros u [= <-]. right. exists k. split; [exact Hk|]. split; [reflexivity | intros []].
    + intros u [<-|Hu]; [now right | now left].
  - destruct Hout as (H1 & H2 & _). rewrite H1, H2.
    split; intros u Hu; [discriminate | now left].
  - destruct Hout as (H1 & H2 & _). rewrite H1, H2.
    split; intros u Hu; [discriminate | now left].
Qed.

Lemma perform_urlStep (B : Browser) (a : action) (w : World) :
  urlsLive w -> urlStep w (perform B a w).
Proof.
  intros Hlive. destruct a as [files|f|s| |i| |d|b|f|fuel]; cbn [perform].
  - now apply handleVideoUpload_urlStep.
  - destruct f; now apply urlStep_same.
  - now apply urlStep_same.
  - now apply handleGenerateMusic_urlStep.
  - now apply handleRemoveVideo_urlStep.
  - now apply handleClearAllVideos_urlStep.
  - now apply urlStep_same.
  - now apply urlStep_same.
  - now apply urlStep_same.
  - now apply handleRenderVideo_urlStep.
Qed.

Lemma urlsLive_initial : urlsLive initialWorld.
Proof.
  repeat split; try constructor; try contradiction; discriminate.
Qed.

(** X11.  Whatever the handlers are called with, in whatever order, the
    object URLs the page holds are live: the listed videos have pairwise
    distinct URLs, none of which has been revoked; [outputUrl], when set,
    has not been revoked and is the URL of no listed video; and no URL is
    ever revoked twice. *)
Theorem session_urls_live (B : Browser) (actions : list action) :
  let w := session B actions in
  NoDup (map objectUrl (videos (ui w))) /\
  (forall v, In v (videos (ui w)) -> ~ In (objectUrl v) (revoked (log w))) /\
  (forall u, outputUrl (ui w) = Some u ->
     ~ In u (revoked (log w)) /\ ~ In u (map objectUrl (videos (ui w)))) /\
  NoDup (revoked (log w)).
Proof.
  intros w. assert (Hlive : urlsLive w).
  { subst w. unfold session. generalize urlsLive_initial. generalize initialWorld.
    induction actions as [|a rest IH]; intros w0 H0; [exact H0|].
    simpl. apply IH. apply (urlStep_live w0); [exact H0 | now apply perform_urlStep]. }
  destruct Hlive as (Hl & Hr & Hlisted & _ & Hout).
  split; [exact Hl|]. split; [|split; [|exact Hr]].
  - intros v Hv. apply Hlisted. unfold listed. now apply in_map.
  - intros u Hu. destruct (Hout u Hu) as (_ & H2 & H3). now split.
Qed.

(** ** The effects *)

Lemma sameUrl_spec (a b : option string) : sameUrl a b = true <-> a = b.
Proof.
  destruct a as [x|], b as [y|]; simpl; try (split; congruence).
  rewrite String.eqb_eq. split; congruence.
Qed.

Lemma commit_run (prev : option string) (w : World) :
  let w' := snd (commit prev w) in
  ui w' = ui w /\ blobs w' = blobs w /\
  log w' = match prev with
           | Some u => if sameUrl prev (outputUrl (ui w)) then [] else [RevokeObjectURL u]
           | None => []
           end ++ log w.
Proof.
  unfold commit, outputUrlCleanup.
  destruct prev as [u|]; destruct (sameUrl _ _); repeat split.
Qed.

Lemma page_ind (B : Browser) (P : World -> Prop) :
  P initialWorld ->
  (forall a w, P w -> P (act B a w)) ->
  forall actions, P (page B actions).
Proof.
  intros H0 Hstep actions. unfold page. revert H0. generalize initialWorld.
  induction actions as [|a rest IH]; intros w Hw; [exact Hw|].
  simpl. apply IH. now apply Hstep.
Qed.

Lemma visit_ind (B : Browser) (P : World -> Prop) :
  P initialWorld ->
  (forall a w, P w -> offered (ui w) a = true -> P (act B a w)) ->
  forall actions, P (visit B actions).
Proof.
  intros H0 Hstep actions. unfold visit. revert H0. generalize initialWorld.
  induction actions as [|a rest IH]; intros w Hw; [exact Hw|].
  simpl. apply IH. destruct (offered (ui w) a) eqn:Ha; [now apply Hstep | exact Hw].
Qed.

(** A handler call followed by the cleanup keeps the held URLs live, and
    every URL that was stored in [outputUrl] and is no longer there has
    been revoked. *)
Lemma act_urls (B : Browser) (a : action) (w : World) :
  urlsLive w /\
  (forall u, In u (exported (log w)) -> outputUrl (ui w) = Some u \/ In u (revoked (log w))) ->
  urlsLive (act B a w) /\
  (forall u, In u (exported (log (act B a w))) ->
     outputUrl (ui (act B a w)) = Some u \/ In u (revoked (log (act B a w)))).
Proof.
  intros [Hlive Hold]. unfold act.
  assert (Hstep := perform_urlStep B a w Hlive).
  destruct (commit_run (outputUrl (ui w)) (perform B a w)) as (Hui & Hblobs & Hlog).
  set (w1 := perform B a w) in *. set (w2 := snd (commit (outputUrl (ui w)) w1)) in *.
  destruct Hstep as (R & keep & new & Hle & Hrev & HR & HRin & Hvs & Hkeep & Hkeepin
                     & Hnew & Hnewin & Hout & Hexp).
  assert (Ho := Hlive). destruct Ho as (_ & _ & _ & _ & Ho).
  destruct (outputUrl (ui w)) as [u|] eqn:Hprev.
  - destruct (sameUrl (Some u) (outputUrl (ui w1))) eqn:Hsame.
    + apply sameUrl_spec in Hsame. simpl in Hlog.
      split.
      * apply (urlsLive_step w w2 R keep new); try rewrite Hui; try rewrite Hlog;
          try rewrite Hblobs; auto.
        intros u' Hu'. destruct (Hout u' Hu') as [H|H]; [left | now right].
        injection H as <-. split; [exact Hprev|].
        intros HuR. destruct (Ho u eq_refl) as (_ & _ & H3). now apply H3, HRin.
      * intros u' Hu'. rewrite Hlog in Hu'. rewrite Hui, Hlog.
        destruct (Hexp u' Hu') as [H|H]; [|now left].
        destruct (Hold u' H) as [H'|H'].
        -- left. now rewrite <- Hsame.
        -- right. rewrite Hrev. apply in_or_app. now right.
    + assert (Hdiff : outputUrl (ui w1) <> Some u).
      { intros H. rewrite H in Hsame. simpl in Hsame. now rewrite String.eqb_refl in Hsame. }
      destruct (Ho u eq_refl) as (_ & _ & Hnl).
      split.
      * apply (urlsLive_step w w2 (u :: R) keep new); try rewrite Hui; try rewrite Hblobs;
          auto.
        -- rewrite Hlog. cbn [app revoked flat_map].
           change (flat_map _ (log w1)) with (revoked (log w1)). now rewrite Hrev.
        -- constructor; [|exact HR]. intros HuR. now apply Hnl, HRin.
        -- intros u' [<-|Hu']; [now right | left; now apply HRin].
        -- intros u' Hu'. destruct (Hkeepin u' Hu') as [H1 H2]. split; [exact H1|].
           intros [<-|H]; [now apply Hnl | now apply H2].
        -- intros u' Hu'. destruct (Hout u' Hu') as [H|H]; [|now right].
           exfalso. apply Hdiff. injection H as <-. exact Hu'.
      * intros u' Hu'. rewrite Hlog in Hu'. cbn [app exported flat_map] in Hu'.
        change (flat_map _ (log w1)) with (exported (log w1)) in Hu'.
        rewrite Hui, Hlog. cbn [app revoked flat_map].
        change (flat_map _ (log w1)) with (revoked (log w1)).
        destruct (Hexp u' Hu') as [H|H]; [|now left].
        right. destruct (Hold u' H) as [[= ->]|H']; [now left|].
        right. rewrite Hrev. apply in_or_app. now right.
  - simpl in Hlog. split.
    + apply (urlsLive_step w w2 R keep new); try rewrite Hui; try rewrite Hlog;
        try rewrite Hblobs; auto.
      intros u' Hu'. destruct (Hout u' Hu') as [H|H]; [|now right].
      discriminate.
    + intros u' Hu'. rewrite Hlog in Hu'. rewrite Hui, Hlog.
      destruct (Hexp u' Hu') as [H|H]; [|now left].
      destruct (Hold u' H) as [H'|H']; [discriminate|].
      right. rewrite Hrev. apply in_or_app. now right.
Qed.

Lemma page_urls (B : Browser) (actions : list action) :
  let w := page B actions in
  urlsLive w /\
  (forall u, In u (exported (log w)) -> outputUrl (ui w) = Some u \/ In u (revoked (log w))).
Proof.
  apply (page_ind B (fun w => urlsLive w /\
           (forall u, In u (exported (log w)) ->
                      outputUrl (ui w) = Some u \/ In u (revoked (log w))))).
  - split; [apply urlsLive_initial | intros u []].
  - intros a w. apply act_urls.
Qed.

(** X12.  With the cleanup of the [outputUrl] effect run after every
    handler: every URL that was once stored in [outputUrl] and has been
    replaced since is revoked, and no URL is revoked twice; the URL
    [outputUrl] holds now and the URLs of the listed videos are not
    revoked. *)
Theorem replaced_output_is_revoked (B : Browser) (actions : list action) :
  let w := page B actions in
  (forall u, In u (exported (log w)) ->
     outputUrl (ui w) <> Some u -> In u (revoked (log w))) /\
  NoDup (revoked (log w)) /\
  (forall u, outputUrl (ui w) = Some u -> ~ In u (revoked (log w))) /\
  (forall v, In v (videos (ui w)) -> ~ In (objectUrl v) (revoked (log w))).
Proof.
  intros w. destruct (page_urls B actions) as [(Hl & Hr & Hlisted & _ & Hout) Hexp].
  fold w in Hl, Hr, Hlisted, Hout, Hexp.
  split; [|split; [exact Hr|split]].
  - intros u Hu Hn. destruct (Hexp u Hu) as [H|H]; [contradiction | exact H].
  - intros u Hu. now apply Hout.
  - intros v Hv. apply Hlisted. unfold listed. now apply in_map.
Qed.

(** X13.  Unmounting the page revokes the URL of every listed video and
    the URL in [outputUrl]; with the cleanups run during the session no
    output URL is left unrevoked, and still no URL has been revoked
    twice. *)
Theorem unmount_revokes_held (B : Browser) (actions : list action) :
  let w := page B actions in
  let w' := snd (unmount w) in
  fst (unmount w) = Val tt /\
  (forall v, In v (videos (ui w)) -> In (objectUrl v) (revoked (log w'))) /\
  (forall u, outputUrl (ui w) = Some u -> In u (revoked (log w'))) /\
  (forall u, In u (exported (log w')) -> In u (revoked (log w'))) /\
  NoDup (revoked (log w')).
Proof.
  intros w w'. subst w'.
  destruct (page_urls B actions) as [(Hl & Hr & Hlisted & _ & Hout) Hexp].
  fold w in Hl, Hr, Hlisted, Hout, Hexp.
  unfold unmount, unmountCleanup, bind.
  destruct (revokeAll_run (videos (ui w)) w) as (w1 & Hrun & Hlog & Hui & _).
  rewrite Hrun. cbv iota.
  assert (Hobs := revoking_observed (rev (listed w))).
  rewrite map_rev in Hobs. destruct Hobs as (Hobs & _).
  assert (Hrev1 : revoked (log w1) = rev (listed w) ++ revoked (log w)).
  { rewrite Hlog, revoked_app, <- (map_map objectUrl RevokeObjectURL), <- map_rev.
    now rewrite revoked_revokes. }
  assert (Hexp1 : exported (log w1) = exported (log w)).
  { rewrite Hlog, exported_app, <- (map_map objectUrl RevokeObjectURL).
    fold (listed w). now rewrite Hobs. }
  assert (Hnd1 : NoDup (revoked (log w1))).
  { rewrite Hrev1. apply NoDup_app; [now apply NoDup_rev | exact Hr|].
    intros u Hu. apply in_rev in Hu. now apply Hlisted. }
  assert (Hin1 : forall v, In v (videos (ui w)) -> In (objectUrl v) (revoked (log w1))).
  { intros v Hv. rewrite Hrev1. apply in_or_app. left. apply in_rev.
    rewrite rev_involutive. unfold listed. now apply in_map. }
  destruct (outputUrl (ui w)) as [u|] eqn:Hprev; cbn [outputUrlCleanup revokeObjectURL emit
                                                        ret fst snd record log].
  - cbn [revoked exported flat_map app].
    fold (revoked (log w1)). fold (exported (log w1)).
    split; [reflexivity|]. split; [intros v Hv; right; now apply Hin1|].
    split; [intros u' [= <-]; now left|]. split.
    + intros u' Hu'. rewrite Hexp1 in Hu'. destruct (Hexp u' Hu') as [[= ->]|H]; [now left|].
      right. rewrite Hrev1. apply in_or_app. now right.
    + constructor; [|exact Hnd1]. rewrite Hrev1. intros H.
      destruct (Hout u eq_refl) as (_ & H2 & H3).
      apply in_app_or in H. destruct H as [H|H]; [|now apply H2].
      apply H3. now apply in_rev.
  - split; [reflexivity|]. split; [exact Hin1|]. split; [discriminate|]. split.
    + intros u' Hu'. rewrite Hexp1 in Hu'. destruct (Hexp u' Hu') as [H|H]; [discriminate|].
      rewrite Hrev1. apply in_or_app. now right.
    + exact Hnd1.
Qed.

(** ** The buttons *)

Lemma commit_same (w1 : World) : snd (commit (outputUrl (ui w1)) w1) = w1.
Proof.
  unfold commit. destruct (sameUrl _ _) eqn:H; [reflexivity|].
  assert (H' : sameUrl (outputUrl (ui w1)) (outputUrl (ui w1)) = true)
    by now apply sameUrl_spec.
  congruence.
Qed.

(** The handlers other than [handleRenderVideo] leave [outputUrl] alone
    and make no blob. *)
Lemma perform_output (B : Browser) (a : action) (w : World) :
  (forall fuel, a <> RenderVideo fuel) ->
  outputUrl (ui (perform B a w)) = outputUrl (ui w) /\
  exported (log (perform B a w)) = exported (log w) /\
  blobsMade (log (perform B a w)) = blobsMade (log w).
Proof.
  intros Hother. destruct a as [files|f|s| |i| |d|b|f|fuel]; cbn [perform];
    try (now repeat split).
  - destruct files as [|f rest]; [now repeat split|].
    destruct (handleVideoUpload_run B (f :: rest) w) as (vs & _ & _ & _ & Hout & _ & Hlog);
      [discriminate|].
    destruct (minting_observed (rev (map objectUrl vs))) as (_ & H1 & H2).
    rewrite map_rev in H1, H2.
    rewrite Hout, Hlog, !exported_app, !blobsMade_app, H1, H2. now repeat split.
  - destruct f; now repeat split.
  - unfold handleGenerateMusic. destruct (falsy _ || notPositive _); [now repeat split|].
    unfold bind. simpl. destruct (generateContent B _); now repeat split.
  - destruct (handleRemoveVideo_log i w) as (Hlog & Hui & _). rewrite Hlog, Hui.
    destruct (find _ _); now repeat split.
  - destruct (handleClearAllVideos_log w) as (Hlog & Hui & _).
    destruct (revoking_observed (rev (listed w))) as (H1 & H2).
    rewrite map_rev in H1, H2.
    rewrite Hlog, Hui, !exported_app, !blobsMade_app, H1, H2. now repeat split.
  - exfalso. now apply (Hother fuel).
Qed.

Lemma truthy_blobUrl (k : nat) : truthy (Some (blobUrl k)) = true.
Proof. reflexivity. Qed.

(** Once [outputUrl] holds a URL the page offers nothing that changes it
    or makes another blob. *)
Lemma offered_keeps_output (B : Browser) (a : action) (w : World) (k : nat) :
  outputUrl (ui w) = Some (blobUrl k) ->
  offered (ui w) a = true ->
  outputUrl (ui (act B a w)) = Some (blobUrl k) /\
  exported (log (act B a w)) = exported (log w) /\
  blobsMade (log (act B a w)) = blobsMade (log w) /\
  revoked (log (act B a w)) = revoked (log (perform B a w)).
Proof.
  intros Hout Ha.
  assert (Hother : forall fuel, a <> RenderVideo fuel).
  { intros fuel ->. cbn [offered] in Ha. rewrite Hout, truthy_blobUrl in Ha. discriminate. }
  destruct (perform_output B a w Hother) as (H1 & H2 & H3).
  unfold act. rewrite <- H1, commit_same. rewrite H1, H2, H3. now repeat split.
Qed.

(** X14.  Through the buttons the page offers, a visit sees at most one
    finished render: once [outputUrl] is set the Render button is gone,
    so [outputUrl] keeps its value whatever the user does next, no second
    blob is made, and the URL of the output is not revoked before the
    page is unmounted. *)
Theorem download_link_is_final (B : Browser) (actions : list action) :
  let w := visit B actions in
  (List.length (blobsMade (log w)) <= 1)%nat /\
  (forall u, In u (exported (log w)) ->
     outputUrl (ui w) = Some u /\ ~ In u (revoked (log w))) /\
  (forall u more,
     outputUrl (ui w) = Some u ->
     outputUrl (ui (visit B (actions ++ more))) = Some u /\
     blobsMade (log (visit B (actions ++ more))) = blobsMade (log w)).
Proof.
  intros w.
  assert (Hinv : urlsLive w /\
                 ((outputUrl (ui w) = None /\ blobsMade (log w) = [] /\ exported (log w) = [])
                  \/ exists k m, outputUrl (ui w) = Some (blobUrl k) /\
                                 blobsMade (log w) = [m] /\
                                 exported (log w) = [blobUrl k])).
  { subst w. apply (visit_ind B (fun w => urlsLive w /\
      ((outputUrl (ui w) = None /\ blobsMade (log w) = [] /\ exported (log w) = [])
       \/ exists k m, outputUrl (ui w) = Some (blobUrl k) /\
                      blobsMade (log w) = [m] /\ exported (log w) = [blobUrl k]))).
    - split; [apply urlsLive_initial | left; now repeat split].
    - intros a w [Hlive HJ] Ha. split.
      + apply (act_urls B a w). split; [exact Hlive|].
        intros u Hu. left. destruct HJ as [(_ & _ & H)|(k & m & H1 & _ & H3)].
        * rewrite H in Hu. contradiction.
        * rewrite H3 in Hu. destruct Hu as [<-|[]]. exact H1.
      + destruct HJ as [(H1 & H2 & H3)|(k & m & H1 & H2 & H3)].
        * unfold act. rewrite H1.
          assert (Hc : snd (commit None (perform B a w)) = perform B a w).
          { unfold commit. simpl. now destruct (outputUrl (ui (perform B a w))). }
          rewrite Hc.
          assert (Hr : (exists fuel, a = RenderVideo fuel) \/ forall fuel, a <> RenderVideo fuel).
          { destruct a; try (right; discriminate). left. now eexists. }
          destruct Hr as [[fuel ->]|Hother].
          -- cbn [perform].
             destruct (handleRenderVideo_urls B fuel w) as (_ & _ & _ & _ & Hout).
             rewrite H1, H2, H3 in Hout.
             destruct (fst (handleRenderVideo B fuel w));
               try (destruct Hout as (Ho & He & Hb); left; now repeat split).
             destruct Hout as (k & _ & Ho & He & Hb). right.
             now exists k, (mimeTypeOf (outputFormat (ui w))).
          -- destruct (perform_output B a w Hother) as (Ho & He & Hb).
             rewrite Ho, He, Hb. left. now repeat split.
        * destruct (offered_keeps_output B a w k H1 Ha) as (Ho & He & Hb & _).
          rewrite Ho, He, Hb. right. now exists k, m. }
  destruct Hinv as [Hlive HJ].
  split; [|split].
  - destruct HJ as [(_ & -> & _)|(k & m & _ & -> & _)]; simpl; lia.
  - intros u Hu. destruct HJ as [(_ & _ & H)|(k & m & H1 & _ & H3)].
    + rewrite H in Hu. contradiction.
    + rewrite H3 in Hu. destruct Hu as [<-|[]]. split; [exact H1|].
      destruct Hlive as (_ & _ & _ & _ & Ho). now apply Ho.
  - intros u more Hu.
    assert (Hk : exists k, u = blobUrl k).
    { destruct Hlive as (_ & _ & _ & _ & Ho). destruct (Ho u Hu) as ((k & _ & ->) & _).
      now exists k. }
    destruct Hk as (k & ->). unfold visit. rewrite fold_left_app. fold (visit B actions).
    fold w. clearbody w. clear Hlive HJ.
    revert w Hu. induction more as [|a rest IH]; intros w Hu; [now split|].
    simpl. destruct (offered (ui w) a) eqn:Ha; [|now apply IH].
    destruct (offered_keeps_output B a w k Hu Ha) as (Ho & _ & Hb & _).
    rewrite <- Hb. now apply IH.
Qed.

(** ** The preview player *)

(** X15.  The preview player never points at a revoked URL: its source
    is [outputUrl] when set, else the URL of the first listed video, else
    empty, and none of these has been revoked, whatever handlers ran and
    with the cleanup of the [outputUrl] effect run after each. *)
Theorem preview_is_live (B : Browser) (actions : list action) :
  let w := page B actions in
  ~ In (previewSrc (ui w)) (revoked (log w)) /\
  (previewSrc (ui w) = "" <-> outputUrl (ui w) = None /\ videos (ui w) = []).
Proof.
  intros w. destruct (page_urls B actions) as [(_ & _ & Hlisted & Hrev & Hout) _].
  fold w in Hlisted, Hrev, Hout. unfold previewSrc, listed in *.
  destruct (outputUrl (ui w)) as [u|] eqn:Hu.
  - destruct (Hout u eq_refl) as ((k & _ & Hk) & Hnr & _). split; [exact Hnr|].
    split; [|intros [[=] _]]. intros ->. discriminate.
  - destruct (videos (ui w)) as [|v rest] eqn:Hvs.
    + split; [|now split]. intros H. destruct (Hrev _ H) as (k & _ & Hk). discriminate.
    + destruct (Hlisted (objectUrl v)) as ((k & _ & Hk) & Hnr); [now left|].
      split; [exact Hnr|]. split; [|intros [_ [=]]]. intros H. rewrite H in Hk. discriminate.
Qed.

(** ** handleAudioUpload *)

Lemma perform_audio (B : Browser) (a : action) (w : World) :
  audioFile (ui (perform B a w)) = audioFile (ui w) \/
  exists f, audioFile (ui (perform B a w)) = Some f.
Proof.
  destruct a as [files|f|s| |i| |d|b|f|fuel]; cbn [perform]; try (now left).
  - destruct files as [|f rest]; [now left|].
    destruct (handleVideoUpload_run B (f :: rest) w) as (vs & _ & _ & _ & _ & H & _);
      [discriminate | now left].
  - destruct f as [f|]; [right; now exists f | now left].
  - left. unfold handleGenerateMusic. destruct (falsy _ || notPositive _); [reflexivity|].
    unfold bind. simpl. destruct (generateContent B _); reflexivity.
  - left. destruct (handleRemoveVideo_log i w) as (_ & -> & _). reflexivity.
  - left. destruct (handleClearAllVideos_log w) as (_ & -> & _). reflexivity.
  - left. now destruct (handleRenderVideo_urls B fuel w) as (_ & _ & _ & H & _).
Qed.

(** X16.  An audio file, once selected, stays selected: closing the file
    dialog without a choice changes nothing, a new choice replaces the
    file, and no handler ever clears [audioFile]. *)
Theorem audio_stays_selected (B : Browser) (actions : list action) (f : File) :
  audioFile (ui (session B actions)) = Some f ->
  perform B (UploadAudio None) (session B actions) = session B actions /\
  (forall g, audioFile (ui (perform B (UploadAudio (Some g)) (session B actions))) = Some g) /\
  forall more, exists g, audioFile (ui (session B (actions ++ more))) = Some g.
Proof.
  intros Hf. split; [reflexivity|]. split; [reflexivity|].
  intros more. unfold session in *. rewrite fold_left_app.
  revert Hf. generalize (fold_left (fun w a => perform B a w) actions initialWorld).
  revert f. induction more as [|a rest IH]; intros f w Hf; [now exists f|].
  simpl. destruct (perform_audio B a w) as [H|[g H]].
  - apply (IH f). now rewrite H.
  - now apply (IH g).
Qed.

Lemma audio_stays_selected_witness :
  exists g,
    audioFile (ui (session chrome ([UploadAudio (Some song)]
                                   ++ [UploadAudio None; ClearAllVideos; RenderVideo 0])))
    = Some g.
Proof.
  exact (proj2 (proj2 (audio_stays_selected chrome [UploadAudio (Some song)] song eq_refl))
               [UploadAudio None; ClearAllVideos; RenderVideo 0]).
Defined.

(** ** handleGenerateMusic without a duration *)

(** X17.  With the duration field cleared, [totalDuration] is [NaN] and
    the guard [totalDuration <= 0] does not fire: if the prompt is not
    blank there is no alert and the request goes out, asking for music
    for a video that is NaN seconds long, also when no video is
    listed. *)
Theorem handleGenerateMusic_without_duration (B : Browser) (w : World) :
  masterDuration (ui w) = None ->
  trim (musicPrompt (ui w)) <> "" ->
  let w' := snd (handleGenerateMusic B w) in
  alerts (since w w') = [] /\
  requests (since w w')
    = ["Describe a piece of instrumental background music for a video that is NaN seconds long. The desired mood is: "
       +++ String "034" (musicPrompt (ui w))
       +++ String "034" ". Describe the instruments, tempo, and emotional progression of the music."].
Proof.
  intros Hd Hprompt w'. subst w'. unfold handleGenerateMusic.
  assert (Hf : falsy (trim (musicPrompt (ui w))) = false).
  { destruct (falsy _) eqn:H; [|reflexivity]. now apply falsy_iff in H. }
  assert (Ht : totalDuration (ui w) = NaN) by (unfold totalDuration; now rewrite Hd).
  assert (Hp : fullPrompt B (ui w)
               = "Describe a piece of instrumental background music for a video that is NaN seconds long. The desired mood is: "
                 +++ String "034" (musicPrompt (ui w))
                 +++ String "034" ". Describe the instruments, tempo, and emotional progression of the music.").
  { unfold fullPrompt. rewrite Ht. reflexivity. }
  rewrite Hf, Ht. cbn [notPositive orb]. unfold bind. simpl.
  destruct (generateContent B (fullPrompt B (ui w))) as [error|text]; simpl.
  - match goal with |- alerts (since w ?w1) = _ /\ _ =>
      rewrite (since_app w w1
                 [SetState (IsGeneratingMusic false);
                  SetState (MusicDescription musicFailure);
                  ConsoleError "Error generating music description:";
                  GenerateContent "gemini-2.5-flash" (fullPrompt B (ui w));
                  SetState (MusicDescription "");
                  SetState (IsGeneratingMusic true)] eq_refl)
    end.
    split; [reflexivity|]. cbn [rev app requests flat_map]. now rewrite Hp.
  - match goal with |- alerts (since w ?w1) = _ /\ _ =>
      rewrite (since_app w w1
                 [SetState (IsGeneratingMusic false);
                  SetState (MusicDescription text);
                  GenerateContent "gemini-2.5-flash" (fullPrompt B (ui w));
                  SetState (MusicDescription "");
                  SetState (IsGeneratingMusic true)] eq_refl)
    end.
    split; [reflexivity|]. cbn [rev app requests flat_map]. now rewrite Hp.
Qed.

Lemma handleGenerateMusic_without_duration_witness :
  let w := snd (set (MasterDuration None) initialWorld) in
  videos (ui w) = [] /\
  requests (since w (snd (handleGenerateMusic chrome w)))
    = ["Describe a piece of instrumental background music for a video that is NaN seconds long. The desired mood is: "
       +++ String "034" "Epic cinematic score"
       +++ String "034" ". Describe the instruments, tempo, and emotional progression of the music."].
Proof.
  split; [reflexivity|].
  apply (handleGenerateMusic_without_duration chrome
           (snd (set (MasterDuration None) initialWorld))).
  - reflexivity.
  - vm_compute. discriminate.
Defined.

(** ** The size of the frames *)

Lemma drawnAtClipSize_quiet (B : Browser) (l : list event) :
  (forall width height, ~ In (DrawImage width height) l) ->
  forall src, drawnAtClipSize B src l.
Proof.
  induction l as [|e l IH]; intros Hno src; [exact I|].
  assert (Hl : forall width height, ~ In (DrawImage width height) l).
  { intros width height Hin. apply (Hno width height). now right. }
  destruct e; cbn [drawnAtClipSize]; try (now apply IH).
  exfalso. eapply Hno. now left.
Qed.

Lemma drawnAtClipSize_app (B : Browser) (l1 l2 : list event) :
  forall src,
    drawnAtClipSize B src l1 ->
    (forall src', drawnAtClipSize B src' l2) ->
    drawnAtClipSize B src (l1 ++ l2).
Proof.
  induction l1 as [|e l1 IH]; intros src H1 H2; [apply H2|].
  destruct e; cbn [app drawnAtClipSize] in *; try (now apply IH).
  destruct H1 as [Hsize H1]. split; [exact Hsize | now apply IH].
Qed.

(** The frames of a clip that plays from [url] and has the size [dims]. *)
Lemma drawnAtClipSize_frames (B : Browser) (url : string) (dims : N * N)
    (l : list event) :
  loadMetadata B url = Some dims ->
  Forall (fun e => frameEvent e /\ drawnAt dims e) l ->
  drawnAtClipSize B (Some url) l.
Proof.
  intros Hmeta. induction 1 as [|e l [Hframe Hdims] _ IH]; [exact I|].
  destruct e; cbn [drawnAtClipSize]; try exact IH; try contradiction.
  split; [|exact IH]. exists url. split; [reflexivity|].
  simpl in Hdims. now rewrite Hdims.
Qed.

Section Drawn.

Variable B : Browser.
Variable st : AppState.

Lemma drawn_frame (d : Z) (dims : N * N) (locals : Q * Q * Q) :
  emits (fun e => frameEvent e /\ drawnAt dims e) (frame B st d dims locals).
Proof.
  destruct locals as [[elapsed last] overall]. unfold frame.
  apply emits_bind; [auto with emits | intros now].
  apply emits_bind; [destruct (masterLoop st); auto with emits | intros seek].
  apply emits_bind; [destruct seek; emits_auto | intros _].
  emits_auto. simpl. split; [exact I | now destruct dims].
Qed.

Lemma drawn_frames (fuel : nat) (d : Z) (dims : N * N) (locals : Q * Q * Q) :
  emits (fun e => frameEvent e /\ drawnAt dims e) (frames B fuel st d dims locals).
Proof.
  revert locals. induction fuel as [|fuel IH]; intros locals; rewrite frames_unfold;
    destruct (below _ _); auto with emits.
  apply emits_bind; [apply drawn_frame | intros locals'; apply IH].
Qed.

Lemma drawn_drawClip (fuel : nat) (dims : N * N) (last overall : Q) :
  emits (fun e => frameEvent e /\ drawnAt dims e) (drawClip B fuel st dims last overall).
Proof.
  unfold drawClip. destruct (masterDuration st); auto with emits.
  apply emits_bind; [apply drawn_frames | intros; auto with emits].
Qed.

(** Whatever a [for] loop got to, each frame it drew has the size of the
    clip assigned just before. *)
Lemma drawn_clips (fuel : nat) (vs : list VideoFile) :
  forall overall w r w',
    clips B fuel st vs overall w = (r, w') ->
    exists evs, log w' = rev evs ++ log w /\ forall src, drawnAtClipSize B src evs.
Proof.
  induction vs as [|video rest IH]; intros overall w r w' Hrun.
  - injection Hrun as <- <-. now exists [].
  - rewrite clips_cons in Hrun.
    destruct (throws B (S (S (List.length (log w))))).
    { injection Hrun as <- <-. eexists [_; _; _]. split; [reflexivity|].
      intros src. exact I. }
    destruct (loadMetadata B (objectUrl video)) as [dims|] eqn:Hmeta.
    2: { injection Hrun as <- <-. eexists [_; _; _]. split; [reflexivity|].
         intros src. exact I. }
    match type of Hrun with context [drawClip B fuel st dims ?l overall ?w1] =>
      destruct (drawClip B fuel st dims l overall w1) as [r2 w2] eqn:Hdraw
    end.
    destruct (drawn_drawClip fuel dims _ _ _ _ _ Hdraw) as (evs2 & Hlog2 & Hevs2 & _).
    simpl in Hlog2. apply Forall_rev in Hevs2.
    assert (Hframes := drawnAtClipSize_frames B _ dims _ Hmeta Hevs2).
    assert (Hsame : forall w3 : World, w3 = w2 ->
              exists evs, log w3 = rev evs ++ log w /\
                          forall src, drawnAtClipSize B src evs).
    { intros w3 ->.
      exists ([SetState (Status ("Rendering: " +++ name (file video)));
               SetSrc (objectUrl video); Play; SizeCanvas (fst dims) (snd dims)]
              ++ rev evs2).
      split.
      - rewrite Hlog2, rev_app_distr, rev_involutive, <- app_assoc. reflexivity.
      - intros src. exact Hframes. }
    destruct r2 as [x|e|]; [|injection Hrun as <- <-; now apply Hsame ..].
    destruct (clips B fuel st rest (snd x) w2) as [r3 w3] eqn:Hrest.
    destruct (IH _ _ _ _ Hrest) as (evs3 & Hlog3 & Hevs3).
    assert (Hw3 : w' = w3) by (destruct r3; now injection Hrun). subst w3.
    exists ([SetState (Status ("Rendering: " +++ name (file video)));
             SetSrc (objectUrl video); Play; SizeCanvas (fst dims) (snd dims)]
            ++ rev evs2 ++ evs3).
    split.
    + rewrite Hlog3, Hlog2, !rev_app_distr, rev_involutive, <- !app_assoc. reflexivity.
    + intros src. cbn [app drawnAtClipSize]. now apply drawnAtClipSize_app.
Qed.

End Drawn.

(** X18.  Every frame is drawn at the size of the clip that is playing:
    the [onloadedmetadata] handler of the setup stays attached, so each
    assignment to [tempVideo.src] sizes the canvas anew, and every
    [drawImage] that follows, until the next assignment, is given the
    width and height of the clip assigned. *)
Theorem frames_have_the_size_of_their_clip (B : Browser) (fuel : nat) (w : World) :
  drawnAtClipSize B None (since w (snd (handleRenderVideo B fuel w))).
Proof.
  destruct (videos (ui w)) as [|v0 rest0] eqn:Hvs.
  { unfold handleRenderVideo. rewrite Hvs. cbn [List.length Nat.eqb snd].
    rewrite (since_app w (record _ w) [Alert _] eq_refl). exact I. }
  assert (Hne : videos (ui w) <> []) by (rewrite Hvs; discriminate).
  clear v0 rest0 Hvs.
  destruct (isTypeSupported B (mimeTypeOf (outputFormat (ui w)))) eqn:Hsup.
  2: { destruct (handleRenderVideo_unsupported_run B fuel w Hne Hsup) as [_ ->].
       exact I. }
  destruct (handleRenderVideo_supported B fuel w Hne Hsup)
    as (pre & loop & post & url & Hsince & Hpre & Hclips & _ & Hpost).
  rewrite Hsince.
  apply drawnAtClipSize_app; [exact I | intros src].
  apply drawnAtClipSize_app.
  { apply drawnAtClipSize_quiet. intros width height Hin.
    rewrite Forall_forall in Hpre. now apply Hpre in Hin. }
  clear src. intros src. apply drawnAtClipSize_app.
  { destruct Hclips as [[-> _] | (dims & w0 & r2 & w2 & Hrun & Hlog & _)]; [exact I|].
    destruct (drawn_clips B (ui w) fuel _ _ _ _ _ Hrun) as (evs & Hlog' & Hevs).
    rewrite Hlog in Hlog'. apply app_inv_tail, (f_equal (@rev event)) in Hlog'.
    rewrite !rev_involutive in Hlog'. subst evs. apply Hevs. }
  clear src. intros src. apply drawnAtClipSize_quiet. intros width height Hin.
  apply in_app_or in Hin. destruct Hin as [Hin|Hin].
  - destruct (fst (handleRenderVideo B fuel w)); try contradiction.
    + subst post. simpl in Hin. intuition discriminate.
    + destruct Hpost as [-> | ->]; simpl in Hin; intuition discriminate.
    + destruct Hpost as [-> _]. contradiction.
  - destruct (fst (handleRenderVideo B fuel w)); simpl in Hin; intuition discriminate.
Qed.

(** In a browser where the second clip is smaller than the first, the
    frames of the second clip are drawn at its size. *)
Lemma frames_have_the_size_of_their_clip_witness :
  let evs := since oneSecondClips (snd (handleRenderVideo twoSizes 200 oneSecondClips)) in
  drawnAtClipSize twoSizes None evs /\
  In (DrawImage 1280 720) evs /\ In (SizeCanvas 640 360) evs /\ In (DrawImage 640 360) evs.
Proof.
  split; [apply (frames_have_the_size_of_their_clip twoSizes 200 oneSecondClips)|].
  split; [|split].
  - apply (nth_error_In _ 27). vm_compute. reflexivity.
  - apply (nth_error_In _ 219). vm_compute. reflexivity.
  - apply (nth_error_In _ 220). vm_compute. reflexivity.
Defined.

(** ** Failures of the setup *)

(** X19.  With a supported format, a first clip whose metadata does not
    load ends the render with the status [Error during render: Failed to
    load video metadata.], and a canvas without a 2d context ends it with
    [Error during render: Could not get canvas context].  In both cases
    the render stops before the canvas is captured: no audio context, no
    stream and no recorder is created, whatever else the browser would
    have done. *)
Theorem handleRenderVideo_setup_failure (B : Browser) (fuel : nat) (w : World)
    (v : VideoFile) (rest : list VideoFile) :
  videos (ui w) = v :: rest ->
  isTypeSupported B (mimeTypeOf (outputFormat (ui w))) = true ->
  let w' := snd (handleRenderVideo B fuel w) in
  let opening := [CreateElement "canvas"; CreateElement "video"; SetVolume 0;
                  DisablePictureInPicture; SetSrc (objectUrl v)] in
  (loadMetadata B (objectUrl v) = None ->
   fst (handleRenderVideo B fuel w) = Aborted (JsError "Failed to load video metadata.") /\
   since w w' = startEvents ++ opening
                ++ catchEvents (JsError "Failed to load video metadata.") /\
   status (ui w') = "Error during render: Failed to load video metadata.") /\
  (forall dims,
     loadMetadata B (objectUrl v) = Some dims -> has2d B = false ->
     fst (handleRenderVideo B fuel w) = Aborted (JsError "Could not get canvas context") /\
     since w w' = startEvents ++ opening
                  ++ [SizeCanvas (fst dims) (snd dims); GetContext "2d"]
                  ++ catchEvents (JsError "Could not get canvas context") /\
     status (ui w') = "Error during render: Could not get canvas context").
Proof.
  intros Hvs Hsup w' opening. subst w' opening.
  assert (Hne : videos (ui w) <> []) by (rewrite Hvs; discriminate).
  rewrite (handleRenderVideo_unfold B fuel w Hne).
  unfold tryBlock. rewrite Hsup, Hvs. cbn [negb loadFirst].
  remember (clips B fuel (ui w)) as loop eqn:Hloop.
  split.
  - intros Hmeta. unfold bind, emit, throw. simpl. rewrite Hmeta. simpl.
    split; [reflexivity|]. split; [|reflexivity].
    apply since_rev. reflexivity.
  - intros [width height] Hmeta H2d. unfold getContext2d, bind, emit, throw. simpl.
    rewrite Hmeta. simpl. rewrite H2d. simpl.
    split; [reflexivity|]. split; [|reflexivity].
    apply since_rev. reflexivity.
Qed.

Lemma handleRenderVideo_setup_failure_witness :
  status (ui (snd (handleRenderVideo noDecoder 0 afterUpload)))
    = "Error during render: Failed to load video metadata.".
Proof.
  destruct (handleRenderVideo_setup_failure noDecoder 0 afterUpload
              {| id := "intro.mp4-1700000000000"; file := introA; objectUrl := "blob:0" |}
              [{| id := "outro.mp4-1700000000000"; file := outro; objectUrl := "blob:1" |}])
    as [Hmeta _].
  - reflexivity.
  - reflexivity.
  - now apply Hmeta.
Defined.
